(** * image-editor: mask authoring, service layer and generation history

    A shallow embedding of the TypeScript sources

    - [components/ImagePanel.tsx] (coordinate normalizer, stroke recorder,
    mask rasterizer),
    - [services/geminiService.ts] (prompt assembly, retry loop, response
    parsing),
    - [App.tsx] (prompt composer, generation orchestrator, history).

    Conventions of the embedding.

    - JavaScript numbers that are pixel counts or weights are [Z]; numbers
    that are coordinates, ratios or products of them are rationals [Q].
    [ImagePanel] computes with them exactly; [ImagePanel64] gives the
    pointer path again with every operation rounded to the nearest IEEE
    double ([Binary64]), and the round trip of the coordinate normalizer
    is stated on it.
    - JavaScript strings are [string]; the texts of the program are ASCII.
    - React state is a record threaded through the handlers; a handler is a
    function from the state it closes over to the state after its
    updates.
    - The remote model is an oracle indexed by the number of calls made so
    far; the calls and the timer waits are recorded in a trace. *)

From Stdlib Require Import ZArith QArith Qround Qpower Lqa String Ascii List Lia Bool.
From Stdlib Require Import DecimalString.
From stdpp Require Import base list.
Import ListNotations.

(* ------------------------------------------------------------------ *)
(** ** The string methods the program uses *)

Module Str.
Local Open Scope string_scope.

(** [c.toLowerCase()] on one ASCII code unit. *)
Definition lowerAscii (c : ascii) : ascii :=
  let n := nat_of_ascii c in
  if (Nat.leb 65 n && Nat.leb n 90)%bool then ascii_of_nat (n + 32) else c.

Fixpoint toLowerCase (s : string) : string :=
  match s with
  | EmptyString => EmptyString
  | String c r => String (lowerAscii c) (toLowerCase r)
  end.

(** [s.includes(needle)]. *)
Fixpoint includes (needle s : string) : bool :=
  if String.prefix needle s then true
  else match s with
       | EmptyString => false
       | String _ r => includes needle r
       end.

(** White space in the sense of [String.prototype.trim], on ASCII:
    TAB, LF, VT, FF, CR and SPACE. *)
Definition isSpace (c : ascii) : bool :=
  let n := nat_of_ascii c in
  (Nat.leb 9 n && Nat.leb n 13)%bool || Nat.eqb n 32.

Fixpoint trimStart (s : string) : string :=
  match s with
  | EmptyString => EmptyString
  | String c r => if isSpace c then trimStart r else s
  end.

Fixpoint trimEnd (s : string) : string :=
  match s with
  | EmptyString => EmptyString
  | String c r =>
      match trimEnd r with
      | EmptyString => if isSpace c then EmptyString else String c EmptyString
      | r' => String c r'
      end
  end.

Definition trim (s : string) : string := trimEnd (trimStart s).

(** [parts.join(sep)]. *)
Fixpoint join (sep : string) (parts : list string) : string :=
  match parts with
  | [] => EmptyString
  | [p] => p
  | p :: rest => p ++ sep ++ join sep rest
  end.

(** [s.split(sep)] for a one-character separator. *)
Fixpoint split (sep : ascii) (s : string) : list string :=
  match s with
  | EmptyString => [EmptyString]
  | String c r =>
      if Ascii.eqb c sep then EmptyString :: split sep r
      else match split sep r with
           | [] => [String c EmptyString]
           | p :: ps => String c p :: ps
           end
  end.

(** [s.substring(0, n)]. *)
Definition substring0 (n : nat) (s : string) : string := String.substring 0 n s.

(** Truthiness of a string value. *)
Definition nonEmpty (s : string) : bool :=
  match s with EmptyString => false | _ => true end.

(** Truthiness of a [string | null] value. *)
Definition truthy (o : option string) : bool :=
  match o with Some s => nonEmpty s | None => false end.

(** [o || undefined] on a [string | null] value. *)
Definition orUndefined (o : option string) : option string :=
  if truthy o then o else None.
(** [s.replace(/\s+/g, '_')]: every maximal run of white space becomes
    one underscore; [inRun] tells that the previous unit was white space. *)
Fixpoint replaceRuns (inRun : bool) (s : string) : string :=
  match s with
  | EmptyString => EmptyString
  | String c r =>
      if isSpace c then
        if inRun then replaceRuns true r else String "_"%char (replaceRuns true r)
      else String c (replaceRuns false r)
  end.

Definition replaceSpaces (s : string) : string := replaceRuns false s.

(** The decimal text of an integer, as string concatenation prints it. *)
Definition ofNumber (z : Z) : string := NilZero.string_of_int (Z.to_int z).
End Str.

(* ------------------------------------------------------------------ *)
(** ** The part of the Canvas 2D interface the program calls

    A canvas is its size, the drawing state of its 2D context and the
    list of paint operations applied so far, oldest first. *)

Module Canvas.
Local Open Scope Q_scope.

Inductive LineCap := CapButt | CapRound | CapSquare.
Inductive LineJoin := JoinMiter | JoinRound | JoinBevel.

Definition Pt : Type := Q * Q.

Inductive Paint :=
  | ClearRect (rx ry rw rh : Q)
  | FillRect (style : string) (rx ry rw rh : Q)
  | StrokePath (style : string) (cap : LineCap) (join : LineJoin)
             (lineWidth alpha : Q) (subpaths : list (list Pt)).

Record Ctx := mkCtx {
  cwidth : Z;
  cheight : Z;
  fillStyle : string;
  strokeStyle : string;
  lineCap : LineCap;
  lineJoin : LineJoin;
  lineWidth : Q;
  globalAlpha : Q;
  path : list (list Pt);
  painted : list Paint
}.

(** A canvas whose [width] and [height] have just been assigned: the
    bitmap is cleared and the context state is the default one. *)
Definition create (w h : Z) : Ctx :=
  mkCtx w h "#000000" "#000000" CapButt JoinMiter 1 1 [] [].

Definition setFillStyle (v : string) (c : Ctx) : Ctx :=
  mkCtx (cwidth c) (cheight c) v (strokeStyle c) (lineCap c) (lineJoin c)
        (lineWidth c) (globalAlpha c) (path c) (painted c).
Definition setStrokeStyle (v : string) (c : Ctx) : Ctx :=
  mkCtx (cwidth c) (cheight c) (fillStyle c) v (lineCap c) (lineJoin c)
        (lineWidth c) (globalAlpha c) (path c) (painted c).
Definition setLineCap (v : LineCap) (c : Ctx) : Ctx :=
  mkCtx (cwidth c) (cheight c) (fillStyle c) (strokeStyle c) v (lineJoin c)
        (lineWidth c) (globalAlpha c) (path c) (painted c).
Definition setLineJoin (v : LineJoin) (c : Ctx) : Ctx :=
  mkCtx (cwidth c) (cheight c) (fillStyle c) (strokeStyle c) (lineCap c) v
        (lineWidth c) (globalAlpha c) (path c) (painted c).
Definition setLineWidth (v : Q) (c : Ctx) : Ctx :=
  mkCtx (cwidth c) (cheight c) (fillStyle c) (strokeStyle c) (lineCap c)
        (lineJoin c) v (globalAlpha c) (path c) (painted c).
Definition setGlobalAlpha (v : Q) (c : Ctx) : Ctx :=
  mkCtx (cwidth c) (cheight c) (fillStyle c) (strokeStyle c) (lineCap c)
        (lineJoin c) (lineWidth c) v (path c) (painted c).
Definition setPath (v : list (list Pt)) (c : Ctx) : Ctx :=
  mkCtx (cwidth c) (cheight c) (fillStyle c) (strokeStyle c) (lineCap c)
        (lineJoin c) (lineWidth c) (globalAlpha c) v (painted c).
Definition paint (p : Paint) (c : Ctx) : Ctx :=
  mkCtx (cwidth c) (cheight c) (fillStyle c) (strokeStyle c) (lineCap c)
        (lineJoin c) (lineWidth c) (globalAlpha c) (path c)
        (painted c ++ [p])%list.

Definition clearRect (rx ry rw rh : Q) (c : Ctx) : Ctx :=
  paint (ClearRect rx ry rw rh) c.
Definition fillRect (rx ry rw rh : Q) (c : Ctx) : Ctx :=
  paint (FillRect (fillStyle c) rx ry rw rh) c.
Definition beginPath (c : Ctx) : Ctx := setPath [] c.
Definition moveTo (p : Pt) (c : Ctx) : Ctx := setPath (path c ++ [[p]])%list c.

(** [lineTo] extends the last subpath; on an empty path it starts one. *)
Fixpoint extendLast (p : Pt) (sps : list (list Pt)) : list (list Pt) :=
  match sps with
  | [] => [[p]]
  | [sp] => [(sp ++ [p])%list]
  | sp :: rest => sp :: extendLast p rest
  end.
Definition lineTo (p : Pt) (c : Ctx) : Ctx := setPath (extendLast p (path c)) c.

Definition stroke (c : Ctx) : Ctx :=
  paint (StrokePath (strokeStyle c) (lineCap c) (lineJoin c)
                    (lineWidth c) (globalAlpha c) (path c)) c.

(** *** Which paint a point of the bitmap shows

    For opaque paints.  A stroke with round caps and round joins covers
    the points at distance at most half the line width from one of its
    segments; the program sets no other cap or join. *)

Definition Qlt_bool (a b : Q) : bool := negb (Qle_bool b a).

Definition inRect (rx ry rw rh : Q) (p : Pt) : bool :=
  Qle_bool rx (fst p) && Qle_bool (fst p) (rx + rw) &&
  Qle_bool ry (snd p) && Qle_bool (snd p) (ry + rh).

Definition sq (a : Q) : Q := a * a.

(** Squared distance from [p] to the segment from [a] to [b]. *)
Definition dist2 (p a b : Pt) : Q :=
  let dx := fst b - fst a in
  let dy := snd b - snd a in
  let len2 := sq dx + sq dy in
  let t := if Qeq_bool len2 0 then 0
           else ((fst p - fst a) * dx + (snd p - snd a) * dy) / len2 in
  let t := if Qlt_bool t 0 then 0 else if Qlt_bool 1 t then 1 else t in
  sq (fst p - (fst a + t * dx)) + sq (snd p - (snd a + t * dy)).

Fixpoint segments (poly : list Pt) : list (Pt * Pt) :=
  match poly with
  | a :: ((b :: _) as rest) => (a, b) :: segments rest
  | _ => []
  end.

Definition strokeCovers (lw : Q) (subpaths : list (list Pt)) (p : Pt) : bool :=
  existsb (fun sp =>
    existsb (fun ab => Qle_bool (4 * dist2 p (fst ab) (snd ab)) (sq lw))
            (segments sp)) subpaths.

Definition paintOver (p : Pt) (under : option string) (op : Paint) : option string :=
  match op with
  | ClearRect rx ry rw rh => if inRect rx ry rw rh p then None else under
  | FillRect style rx ry rw rh =>
      if inRect rx ry rw rh p then Some style else under
  | StrokePath style _ _ lw _ sps =>
      if strokeCovers lw sps p then Some style else under
  end.

(** The style shown at [p]; [None] is the transparent initial bitmap. *)
Definition colourAt (c : Ctx) (p : Pt) : option string :=
  fold_left (paintOver p) (painted c) None.

Definition onBitmap (c : Ctx) (p : Pt) : bool :=
  inRect 0 0 (inject_Z (cwidth c)) (inject_Z (cheight c)) p.
End Canvas.

(* ------------------------------------------------------------------ *)
(** ** IEEE binary64 arithmetic

    The numbers of the program are doubles.  A double is the rational
    it denotes, and an operation is the exact one followed by [round],
    to the nearest double, ties to the even significand.  Overflow to
    an infinity is not modelled: [round] is total on the rationals. *)

Module Binary64.
Local Open Scope Q_scope.

(** The floor of the binary logarithm of a positive rational. *)
Definition ilog2 (x : Q) : Z :=
  let k := (Z.log2 (Qnum x) - Z.log2 (Zpos (Qden x)))%Z in
  if Qle_bool (2 ^ k) x then k else (k - 1)%Z.

(** The nearest integer, ties to even. *)
Definition rne (s : Q) : Z :=
  let f := Qfloor s in
  match Qcompare (s - inject_Z f) (1 # 2) with
  | Lt => f
  | Gt => (f + 1)%Z
  | Eq => if Z.even f then f else (f + 1)%Z
  end.

(** A positive rational, rounded to 53 significant bits, or to a
    multiple of [2 ^ -1074] below the normal range. *)
Definition roundPos (x : Q) : Q :=
  let e := Z.max (ilog2 x - 52) (-1074) in
  inject_Z (rne (x / 2 ^ e)) * 2 ^ e.

(** [round x]: the double nearest to [x]. *)
Definition round (x : Q) : Q :=
  let x := Qred x in
  match Qnum x with
  | Z0 => 0
  | Zpos _ => roundPos x
  | Zneg _ => - roundPos (- x)
  end.

(** The operators [+], [-], [*] and [/] on doubles. *)
Definition add (a b : Q) : Q := round (a + b).
Definition sub (a b : Q) : Q := round (a - b).
Definition mul (a b : Q) : Q := round (a * b).
Definition div (a b : Q) : Q := round (a / b).

(** The unit roundoff [2 ^ -53], and half the least positive double. *)
Definition u : Q := 1 # 9007199254740992.
Definition eta : Q := 2 ^ (-1075).

End Binary64.

(* ------------------------------------------------------------------ *)
(** ** components/ImagePanel.tsx *)

Module ImagePanel.
Import Canvas.
Local Open Scope Q_scope.

Record Point := mkPoint { x : Q; y : Q }.
Record Path := mkPath { points : list Point; strokeWidth : Q }.

(** What the handlers read from the [<img>] element: its natural size,
    its [width] and [height], and the corner of
    [getBoundingClientRect()]. *)
Record Img := mkImg {
  naturalWidth : Z;
  naturalHeight : Z;
  width : Z;
  height : Z;
  rectLeft : Q;
  rectTop : Q
}.

(** The rendered sub-rectangle of the image inside its element; the
    same computation opens [adjustCanvas], [getNormalizedPoint] and
    [draw].  This module computes it in exact arithmetic;
    [ImagePanel64] below computes it in doubles. *)
Record Layout := mkLayout {
  renderWidth : Q;
  renderHeight : Q;
  top : Q;
  left : Q
}.

Definition layout (img : Img) : Layout :=
  let imageRatio := inject_Z (naturalWidth img) / inject_Z (naturalHeight img) in
  let containerRatio := inject_Z (width img) / inject_Z (height img) in
  if Qlt_bool imageRatio containerRatio then
    let renderHeight := inject_Z (height img) in
    let renderWidth := inject_Z (height img) * imageRatio in
    mkLayout renderWidth renderHeight 0 ((inject_Z (width img) - renderWidth) / 2)
  else
    let renderWidth := inject_Z (width img) in
    let renderHeight := inject_Z (width img) / imageRatio in
    mkLayout renderWidth renderHeight ((inject_Z (height img) - renderHeight) / 2) 0.

Definition getNormalizedPoint (imgRef : option Img) (clientX clientY : Q)
  : option Point :=
  match imgRef with
  | None => None
  | Some img =>
      let l := layout img in
      let offsetX := clientX - rectLeft img - left l in
      let offsetY := clientY - rectTop img - top l in
      if Qlt_bool offsetX 0 || Qlt_bool (renderWidth l) offsetX ||
         Qlt_bool offsetY 0 || Qlt_bool (renderHeight l) offsetY
      then None
      else Some (mkPoint (offsetX / renderWidth l) (offsetY / renderHeight l))
  end.

(** Where a normalized point is drawn on the overlay canvas:
    [left + p.x * renderWidth, top + p.y * renderHeight]. *)
Definition toCanvas (l : Layout) (p : Point) : Pt :=
  (left l + x p * renderWidth l, top l + y p * renderHeight l).

(** The state of one panel: the React state [isMasking], [isDrawing],
    [paths], the ref [currentPath], and the two DOM refs ([overlay] is
    the canvas of [canvasRef] together with its 2D context). *)
Record Panel := mkPanel {
  isMasking : bool;
  isDrawing : bool;
  paths : list Path;
  currentPath : list Point;
  imgRef : option Img;
  overlay : option Ctx
}.

Definition setDrawing (b : bool) (cur : list Point) (s : Panel) : Panel :=
  mkPanel (isMasking s) b (paths s) cur (imgRef s) (overlay s).
Definition setCurrentPath (cur : list Point) (s : Panel) : Panel :=
  mkPanel (isMasking s) (isDrawing s) (paths s) cur (imgRef s) (overlay s).
Definition setPaths (ps : list Path) (s : Panel) : Panel :=
  mkPanel (isMasking s) (isDrawing s) ps (currentPath s) (imgRef s) (overlay s).
Definition setOverlay (o : option Ctx) (s : Panel) : Panel :=
  mkPanel (isMasking s) (isDrawing s) (paths s) (currentPath s) (imgRef s) o.

Definition startDrawing (clientX clientY : Q) (s : Panel) : Panel :=
  match getNormalizedPoint (imgRef s) clientX clientY with
  | Some point => setDrawing true [point] s
  | None => s
  end.

(** The styles both the overlay redraw and the live segment set. *)
Definition overlayStyle (l : Layout) (c : Ctx) : Ctx :=
  setGlobalAlpha (6 # 10)
    (setLineWidth (renderWidth l * (5 # 100))
      (setStrokeStyle "#84cc16" (setLineJoin JoinRound (setLineCap CapRound c)))).

(** [draw]: [None] stands for the TypeError of reading [p1.x] when
    [currentPath] has fewer than two points after the push. *)
Definition draw (clientX clientY : Q) (s : Panel) : option Panel :=
  if negb (isDrawing s) then Some s
  else
    match getNormalizedPoint (imgRef s) clientX clientY with
    | None => Some s
    | Some point =>
        let cur := (currentPath s ++ [point])%list in
        let s1 := setCurrentPath cur s in
        match overlay s, imgRef s with
        | Some ctx, Some img =>
            let l := layout img in
            let ctx := overlayStyle l ctx in
            if (length cur <? 2)%nat then None   (* [cur[-1]] is undefined *)
            else
              match cur !! (length cur - 2)%nat, cur !! (length cur - 1)%nat with
              | Some p1, Some p2 =>
                  Some (setOverlay
                          (Some (stroke (lineTo (toCanvas l p2)
                                          (moveTo (toCanvas l p1) (beginPath ctx)))))
                          s1)
              | _, _ => None
              end
        | _, _ => Some s1
        end
    end.

(** One iteration of [currentPaths.forEach] in [exportMask]. *)
Definition strokeMaskPath (ctx : Ctx) (p : Path) : Ctx :=
  if (length (points p) <? 2)%nat then ctx
  else
    match points p with
    | [] => ctx
    | p0 :: rest =>
        let w := inject_Z (cwidth ctx) in
        let h := inject_Z (cheight ctx) in
        let ctx := moveTo (x p0 * w, y p0 * h) (beginPath ctx) in
        let ctx := fold_left (fun c pi => lineTo (x pi * w, y pi * h) c) rest ctx in
        stroke ctx
    end.

(** The offscreen canvas [exportMask] paints. *)
Definition rasterize (img : Img) (currentPaths : list Path) : Ctx :=
  let offscreen := create (naturalWidth img) (naturalHeight img) in
  let ctx := setFillStyle "black" offscreen in
  let ctx := fillRect 0 0 (inject_Z (cwidth ctx)) (inject_Z (cheight ctx)) ctx in
  let ctx := setLineCap CapRound ctx in
  let ctx := setLineJoin JoinRound ctx in
  let ctx := setStrokeStyle "white" ctx in
  let ctx := setLineWidth (inject_Z (cwidth ctx) * (5 # 100)) ctx in
  fold_left strokeMaskPath currentPaths ctx.

Section Exporting.
(** [canvas.toDataURL('image/png')], a function of the canvas, and
    whether an offscreen canvas yields a 2D context. *)
Variable toDataURL : Ctx -> string.
Variable offscreen2d : bool.

(** [toDataURL(..).split(',')[1]]; [None] is [undefined]. *)
Definition base64Of (c : Ctx) : option string :=
    Str.split ","%char (toDataURL c) !! 1%nat.

(** The call [exportMask] makes to [onMaskChange], if any: [None] is
    no call (no 2D context), [Some None] the call with [null] (or with
    the [undefined] of a data URL without a comma), [Some (Some m)]
    the call with the payload [m]. *)
Definition exportMask (imgRef : option Img) (currentPaths : list Path)
    : option (option string) :=
    match imgRef with
    | None => Some None
    | Some img =>
        if (length currentPaths =? 0)%nat then Some None
        else if negb offscreen2d then None
        else Some (base64Of (rasterize img currentPaths))
    end.

(** [stopDrawing]: the state after it and the call to [onMaskChange]
    it caused, if any. *)
Definition stopDrawing (s : Panel) : Panel * option (option string) :=
    if negb (isDrawing s) then (s, None)
    else
      let s1 := setDrawing false (currentPath s) s in
      if (0 <? length (currentPath s1))%nat then
        let newPaths := (paths s1 ++ [mkPath (currentPath s1) (5 # 100)])%list in
        (setCurrentPath [] (setPaths newPaths s1),
         exportMask (imgRef s1) newPaths)
      else (setCurrentPath [] s1, None).
End Exporting.

(** [clearMask]: the paths are dropped, [onMaskChange(null)] is called
    and the overlay is wiped. *)
Definition clearMask (s : Panel) : Panel * option (option string) :=
  let s1 := setPaths [] s in
  (match overlay s1 with
   | Some c => setOverlay
                 (Some (clearRect 0 0 (inject_Z (cwidth c)) (inject_Z (cheight c)) c)) s1
   | None => s1
   end, Some None).
(** *** The overlay redraw *)

(** One iteration of [paths.forEach] in [adjustCanvas]. *)
Definition strokeOverlayPath (l : Layout) (ctx : Ctx) (p : Path) : Ctx :=
  if (length (points p) <? 2)%nat then ctx
  else
    match points p with
    | [] => ctx
    | p0 :: rest =>
        stroke (fold_left (fun c pi => lineTo (toCanvas l pi) c) rest
                  (moveTo (toCanvas l p0) (beginPath ctx)))
    end.

(** [adjustCanvas]: without canvas, context or image nothing happens;
    otherwise the canvas takes the size of the element (which resets
    it), is cleared, and the recorded paths are stroked again. *)
Definition adjustCanvas (s : Panel) : Panel :=
  match overlay s, imgRef s with
  | Some _, Some img =>
      let l := layout img in
      let ctx := create (width img) (height img) in
      let ctx := clearRect 0 0 (inject_Z (width img)) (inject_Z (height img)) ctx in
      let ctx := if (0 <? length (paths s))%nat
                 then fold_left (strokeOverlayPath l) (paths s) (overlayStyle l ctx)
                 else ctx in
      setOverlay (Some ctx) s
  | _, _ => s
  end.

(** *** The pointer events of the overlay canvas *)

Inductive PointerEvent :=
| MouseDown (clientX clientY : Q)
| MouseMove (clientX clientY : Q)
| MouseUp
| MouseLeave.

Section Pointer.
Variable toDataURL : Ctx -> string.
Variable offscreen2d : bool.

(** The handler bound to an event: the state after it and the call to
    [onMaskChange] it made; [None] when the handler raised. *)
Definition onPointer (e : PointerEvent) (s : Panel)
  : option (Panel * option (option string)) :=
  match e with
  | MouseDown clientX clientY => Some (startDrawing clientX clientY s, None)
  | MouseMove clientX clientY =>
      match draw clientX clientY s with
      | Some s' => Some (s', None)
      | None => None
      end
  | MouseUp | MouseLeave => Some (stopDrawing toDataURL offscreen2d s)
  end.

(** A sequence of events, with the masks handed to [onMaskChange] in
    order. *)
Fixpoint onPointers (es : list PointerEvent) (s : Panel)
  : option (Panel * list (option string)) :=
  match es with
  | [] => Some (s, [])
  | e :: es' =>
      match onPointer e s with
      | None => None
      | Some (s1, m) =>
          match onPointers es' s1 with
          | None => None
          | Some (s2, ms) =>
              Some (s2, (match m with Some v => [v] | None => [] end ++ ms)%list)
          end
      end
  end.
End Pointer.

(** *** Downloads *)

(** The file name of [handleDownload]. *)
Definition downloadName (title : string) (now : Z) : string :=
  (Str.replaceSpaces (Str.toLowerCase title) ++ "_" ++ Str.ofNumber now ++ ".png")%string.

(** What [handleSplitAndSave] does for one part: the canvas it creates
    ([canvas.width = segmentWidth] keeps the whole part of the number),
    the arguments of [drawImage], and the name of the download. *)
Record Band := mkBand {
  bandName : string;
  canvasWidth : Z;
  canvasHeight : Z;
  sx : Q; sy : Q; sWidth : Q; sHeight : Q;
  dx : Q; dy : Q; dWidth : Q; dHeight : Q
}.

Definition splitParts : list string := ["front"; "side"; "back"]%string.

(** [handleSplitAndSave] once the image has loaded, for an image of
    natural size [w] x [h]; [now i] is [Date.now()] at part [i], and
    [ctx2d] tells whether the canvases yield a 2D context.  Without an
    image URL nothing is done. *)
Definition handleSplitAndSave (imageUrl : option string) (w h : Z)
  (now : nat -> Z) (ctx2d : bool) : list Band :=
  match imageUrl with
  | None => []
  | Some _ =>
      let segmentWidth := inject_Z w / 3 in
      omap (fun ip : nat * string =>
              let (index, part) := ip in
              if ctx2d then
                Some (mkBand ("character_" ++ part ++ "_" ++ Str.ofNumber (now index)
                              ++ ".png")%string
                             (Qfloor segmentWidth) h
                             (inject_Z (Z.of_nat index) * segmentWidth) 0
                             segmentWidth (inject_Z h)
                             0 0 segmentWidth (inject_Z h))
              else None)
           (imap (fun i part => (i, part)) splitParts)
  end.
End ImagePanel.

(* ------------------------------------------------------------------ *)
(** ** components/ImagePanel.tsx, the pointer path in doubles

    [getNormalizedPoint], [startDrawing] and [draw] again, with every
    arithmetic operation of the source rounded as the engine rounds it.
    The sizes of the image and of the element are integers, the
    pointer position and the corner of the bounding box are doubles;
    the literals [0.05] and [0.6] are the doubles nearest to them. *)

Module ImagePanel64.
Import Canvas ImagePanel Binary64.
Local Open Scope Q_scope.

Definition layout (img : Img) : Layout :=
  let imageRatio := div (inject_Z (naturalWidth img)) (inject_Z (naturalHeight img)) in
  let containerRatio := div (inject_Z (width img)) (inject_Z (height img)) in
  if Qlt_bool imageRatio containerRatio then
    let renderHeight := inject_Z (height img) in
    let renderWidth := mul (inject_Z (height img)) imageRatio in
    mkLayout renderWidth renderHeight 0
             (div (sub (inject_Z (width img)) renderWidth) 2)
  else
    let renderWidth := inject_Z (width img) in
    let renderHeight := div (inject_Z (width img)) imageRatio in
    mkLayout renderWidth renderHeight
             (div (sub (inject_Z (height img)) renderHeight) 2) 0.

Definition getNormalizedPoint (imgRef : option Img) (clientX clientY : Q)
  : option Point :=
  match imgRef with
  | None => None
  | Some img =>
      let l := layout img in
      let offsetX := sub (sub clientX (rectLeft img)) (left l) in
      let offsetY := sub (sub clientY (rectTop img)) (top l) in
      if Qlt_bool offsetX 0 || Qlt_bool (renderWidth l) offsetX ||
         Qlt_bool offsetY 0 || Qlt_bool (renderHeight l) offsetY
      then None
      else Some (mkPoint (div offsetX (renderWidth l)) (div offsetY (renderHeight l)))
  end.

(** [left + p.x * renderWidth, top + p.y * renderHeight]. *)
Definition toCanvas (l : Layout) (p : Point) : Pt :=
  (add (left l) (mul (x p) (renderWidth l)),
   add (top l) (mul (y p) (renderHeight l))).

Definition startDrawing (clientX clientY : Q) (s : Panel) : Panel :=
  match getNormalizedPoint (imgRef s) clientX clientY with
  | Some point => setDrawing true [point] s
  | None => s
  end.

Definition overlayStyle (l : Layout) (c : Ctx) : Ctx :=
  setGlobalAlpha (round (6 # 10))
    (setLineWidth (mul (renderWidth l) (round (5 # 100)))
      (setStrokeStyle "#84cc16" (setLineJoin JoinRound (setLineCap CapRound c)))).

Definition draw (clientX clientY : Q) (s : Panel) : option Panel :=
  if negb (isDrawing s) then Some s
  else
    match getNormalizedPoint (imgRef s) clientX clientY with
    | None => Some s
    | Some point =>
        let cur := (currentPath s ++ [point])%list in
        let s1 := setCurrentPath cur s in
        match overlay s, imgRef s with
        | Some ctx, Some img =>
            let l := layout img in
            let ctx := overlayStyle l ctx in
            if (length cur <? 2)%nat then None
            else
              match cur !! (length cur - 2)%nat, cur !! (length cur - 1)%nat with
              | Some p1, Some p2 =>
                  Some (setOverlay
                          (Some (stroke (lineTo (toCanvas l p2)
                                          (moveTo (toCanvas l p1) (beginPath ctx)))))
                          s1)
              | _, _ => None
              end
        | _, _ => Some s1
        end
    end.

End ImagePanel64.

(* ------------------------------------------------------------------ *)
(** ** services/geminiService.ts *)

Module GeminiService.
Local Open Scope string_scope.
Local Open Scope Z_scope.

Record ImageReference := mkRef { ref_base64 : string; ref_mimeType : string }.

Inductive ImageSize := K1 | K2 | K4.       (* "1K" | "2K" | "4K" *)
Inductive AspectRatio := R1_1 | R3_4 | R4_3 | R9_16 | R16_9.

Definition ImageSize_eqb (a b : ImageSize) : bool :=
  match a, b with
  | K1, K1 | K2, K2 | K4, K4 => true
  | _, _ => false
  end.

Definition FLUX_AESTHETIC_TOKENS : string :=
  "hyper-realistic photography, 8k resolution, incredible details, highly detailed texture, 35mm film grain, masterpiece, sharp focus, professional lighting, cinematic color grading, depth of field, ray tracing, authentic look, unreal engine 5 render".

(** The arguments of [editImage], defaults resolved by the caller. *)
Record EditArgs := mkArgs {
  base64ImageData : string;
  mimeType : string;
  prompt : string;
  styleReferences : option (list ImageReference);
  assets : option (list ImageReference);
  imageSize : ImageSize;
  aspectRatio : AspectRatio;
  maskImage : option string;
  structureWeight : Z;
  seed : option Z
}.

(** *** The request *)

Record InlineData := mkInline { data : string; inlineMime : string }.

Inductive Part :=
  | InlinePart (d : InlineData)
  | TextPart (t : string).

Record Config := mkConfig {
  cfg_aspectRatio : AspectRatio;
  cfg_imageSize : option ImageSize;
  cfg_timeout : Z;
  cfg_seed : option Z
}.

Record GenRequest := mkRequest {
  model : string;
  parts : list Part;
  config : Config
}.

Definition refParts (refs : option (list ImageReference)) : list Part :=
  match refs with
  | Some l => map (fun r => InlinePart (mkInline (ref_base64 r) (ref_mimeType r))) l
  | None => []
  end.

Definition imageParts (a : EditArgs) : list Part :=
  ([InlinePart (mkInline (base64ImageData a) (mimeType a))]
   ++ (if Str.truthy (maskImage a)
       then match maskImage a with
            | Some m => [InlinePart (mkInline m "image/png")]
            | None => []
            end
       else [])
   ++ refParts (assets a)
   ++ refParts (styleReferences a))%list.

Definition isHighQuality (sz : ImageSize) : bool :=
  ImageSize_eqb sz K2 || ImageSize_eqb sz K4.

Definition maskNote : string :=
  " (Note: The second image provided is a binary mask. Only edit the white areas of the mask and keep the black areas unchanged.)".

Definition bgChangeKeywords : list string :=
  ["background"; "world"; "environment"; "location"; "place"].

Definition backgroundDirective : string :=
  " [CRITICAL: PIXEL-PERFECT BACKGROUND PRESERVATION] You are editing the character ONLY. The background environment, furniture, lighting, and room structure must remain EXACTLY identical to the source image. Do not hallucinate new background details. Treat the background as a locked layer.".

Definition backgroundNegative : string :=
  " [NEGATIVE PROMPT: (changing background:1.5), new location, different room, remodeling, changing furniture, changing lighting, morphing background, distorted architecture, (bench:1.5), park bench, outdoor furniture, grass, street elements]".

Definition structureLow : string :=
  " [Instruction: You may freely alter the character's pose, action, and composition to fit the prompt. However, you MUST strictly preserve the background structure and perspective of the original image.]".
Definition structureHigh : string :=
  " [Instruction: Strictly preserve the exact structure, pose, and layout of the original source image. Do not change the camera angle or subject placement unless explicitly asked.]".
Definition structureBalanced : string :=
  " [Instruction: Maintain the general structure of the source image while applying the requested changes.]".

(** Step 1: trim, and the aesthetic tokens of the 2K and 4K modes. *)
Definition withAesthetics (a : EditArgs) : string :=
  let finalPrompt := Str.trim (prompt a) in
  if isHighQuality (imageSize a) then
    if negb (Str.includes "hyper-realistic" (Str.toLowerCase finalPrompt))
    then finalPrompt ++ ", " ++ FLUX_AESTHETIC_TOKENS
    else finalPrompt
  else finalPrompt.

Definition hasBgChangeRequest (finalPrompt : string) : bool :=
  existsb (fun kw => Str.includes kw (Str.toLowerCase finalPrompt)) bgChangeKeywords.

(** Step 2: the mask note, or the background freeze. *)
Definition withMaskInstructions (a : EditArgs) (finalPrompt : string) : string :=
  if Str.truthy (maskImage a) then finalPrompt ++ maskNote
  else if negb (hasBgChangeRequest finalPrompt)
       then (finalPrompt ++ backgroundDirective) ++ backgroundNegative
       else finalPrompt.

(** Step 3: the structure instruction chosen by the weight. *)
Definition withStructure (a : EditArgs) (finalPrompt : string) : string :=
  if structureWeight a <? 30 then finalPrompt ++ structureLow
  else if 70 <? structureWeight a then finalPrompt ++ structureHigh
  else finalPrompt ++ structureBalanced.

Definition finalPrompt (a : EditArgs) : string :=
  withStructure a (withMaskInstructions a (withAesthetics a)).

Definition modelFor (sz : ImageSize) : string :=
  if isHighQuality sz then "gemini-3-pro-image-preview" else "gemini-2.5-flash-image".

Definition buildRequest (a : EditArgs) : GenRequest :=
  let model := modelFor (imageSize a) in
  mkRequest model
    (imageParts a ++ [TextPart (finalPrompt a)])%list
    (mkConfig (aspectRatio a)
              (if String.eqb model "gemini-3-pro-image-preview"
               then Some (imageSize a) else None)
              300000
              (seed a)).

(** *** The response *)

Record RespPart := mkPart {
  text : option string;
  inlineData : option InlineData
}.

(** A candidate may come without [content] (a blocked answer), and a
    content without [parts]. *)
Record Content := mkContent { content_parts : option (list RespPart) }.
Record Candidate := mkCandidate { content : option Content }.
Record Response := mkResponse { candidates : option (list Candidate) }.

Record EditResult := mkResult {
  imageUrl : option string;
  base64 : option string;
  resMimeType : option string;
  resText : option string
}.

Definition emptyResult : EditResult := mkResult None None None None.

(** What is thrown inside the [try]: an [Error] with its message, or
    any other value, of which the handler sees [String(error)]. *)
Inductive Thrown :=
  | ErrorObj (message : string)
  | OtherValue (asString : string).

Definition messageOf (e : Thrown) : string :=
  match e with ErrorObj m => m | OtherValue s => s end.

(** The [TypeError] of [response.candidates[0].content.parts] when
    [content] is undefined, and of [for ... of] when [parts] is; both
    are [Error]s, here with the wording of V8. *)
Definition undefinedContent : Thrown :=
  ErrorObj "Cannot read properties of undefined (reading 'parts')".
Definition partsNotIterable : Thrown :=
  ErrorObj "response.candidates[0].content.parts is not iterable".

(** What the loop iterates over: nothing when the guard on
    [candidates] fails, else the parts of the first candidate; [inl]
    when reading them raises. *)
Definition scanned (response : Response) : Thrown + list RespPart :=
  match candidates response with
  | Some (c0 :: _) =>
      match content c0 with
      | None => inl undefinedContent
      | Some ct =>
          match content_parts ct with
          | None => inl partsNotIterable
          | Some ps => inr ps
          end
      end
  | _ => inr []
  end.

(** The body of [for (const part of ...)]. *)
Definition scanPart (r : EditResult) (part : RespPart) : EditResult :=
  if Str.truthy (text part) then
    mkResult (imageUrl r) (base64 r) (resMimeType r) (text part)
  else
    match inlineData part with
    | Some d =>
        mkResult (Some ("data:" ++ inlineMime d ++ ";base64," ++ data d))
                 (Some (data d)) (Some (inlineMime d)) (resText r)
    | None => r
    end.

(** The four variables after the loop. *)
Definition parseResponse (response : Response) : EditResult :=
  fold_left scanPart (match scanned response with inr ps => ps | inl _ => [] end)
            emptyResult.

(** From the response to the [return]: the value returned, or what
    reading the segments raised. *)
Definition readResponse (response : Response) : Thrown + EditResult :=
  match scanned response with
  | inl e => inl e
  | inr _ => inr (parseResponse response)
  end.

(** *** The remote call and the retry loop *)

(** What [generateContent] does: it resolves with a response or throws. *)
Inductive Outcome :=
  | Returns (r : Response)
  | Throws (e : Thrown).

Inductive Event :=
  | Call (req : GenRequest)
  | Sleep (ms : Z).

Definition Trace := list Event.

Definition callsOf (t : Trace) : list GenRequest :=
  omap (fun e => match e with Call r => Some r | Sleep _ => None end) t.

Definition isTransientError (errorMessage : string) : bool :=
  Str.includes "503" errorMessage || Str.includes "Deadline expired" errorMessage
  || Str.includes "timeout" errorMessage || Str.includes "Overloaded" errorMessage.

Definition isKeyError (errorMessage : string) : bool :=
  Str.includes "403" errorMessage || Str.includes "API key not valid" errorMessage
  || Str.includes "Requested entity was not found" errorMessage.

Definition invalidKeyMessage : string :=
  "Invalid API Key or project configuration. Please check your AI Studio settings.".
Definition unexpectedMessage : string :=
  "An unexpected error occurred while communicating with the Gemini API.".
Definition afterRetriesMessage : string := "Failed to generate image after retries.".

(** The message of the [Error] the [catch] block rethrows. *)
Definition surface (e : Thrown) : string :=
  match e with
  | ErrorObj m =>
      if isKeyError m then invalidKeyMessage
      else if isTransientError m then "SERVER_BUSY"
      else m
  | OtherValue _ => unexpectedMessage
  end.

Definition maxRetries : nat := 1.

(** The body of the [try]: the call, then the scan of its response;
    [inl] is what reaches the [catch]. *)
Definition attemptOf (outcome : Outcome) : Thrown + EditResult :=
  match outcome with
  | Returns response => readResponse response
  | Throws error => inl error
  end.

Section Remote.
(** The remote model: the outcome of the [n]-th call (from 0) made
    with a given request. *)
Variable service : nat -> GenRequest -> Outcome.

(** [while (attempt <= maxRetries) { try ... catch ... }]; [inl] is
    the message of the thrown [Error], [inr] the returned value.
    Each iteration that continues increments [attempt], so
    [maxRetries + 1 - attempt] iterations are enough; [fuel] counts
    them. *)
Fixpoint retryLoop (fuel : nat) (attempt : nat) (req : GenRequest) (t : Trace)
    : (string + EditResult) * Trace :=
    match fuel with
    | O => (inl afterRetriesMessage, t)
    | S fuel' =>
        if (attempt <=? maxRetries)%nat then
          let outcome := service (length (callsOf t)) req in
          let t := (t ++ [Call req])%list in
          match attemptOf outcome with
          | inr result => (inr result, t)
          | inl error =>
              if isTransientError (messageOf error) && (attempt <? maxRetries)%nat
              then retryLoop fuel' (S attempt) req (t ++ [Sleep 2000])%list
              else (inl (surface error), t)
          end
        else (inl afterRetriesMessage, t)
    end.

Definition editImage (a : EditArgs) (t : Trace) : (string + EditResult) * Trace :=
    retryLoop (S (S maxRetries)) 0 (buildRequest a) t.
End Remote.
End GeminiService.

(* ------------------------------------------------------------------ *)
(** ** App.tsx: the prompt composer *)

Module Composer.
Import GeminiService.
Local Open Scope string_scope.

Inductive Angle := front | side | back | sheet.
Definition CameraAngle : Type := option Angle.

(** The [val] and [prompt] fields of the option tables. *)
Definition SHOT_SIZES : list (string * string) :=
  [("ecu", "Extreme Close-up (ECU) shot on a Macro lens 100mm, focus purely on iris/lips, extreme skin texture detail, f/2.8, intense intimacy.");
   ("closeup", "Cinematic Close-up shot on an 85mm Portrait Prime lens, tight framing chin-to-forehead, compression effect, creamy bokeh background (f/1.4).");
   ("bust", "Medium Close-up (MCU) shot on a 50mm Standard lens, chest-up shot, natural distortion, subject separated from background, authentic look.");
   ("fullbody", "Wide Shot (Full Shot) on a 24mm Wide-angle lens, slight barrel distortion, capturing full room context, expansive depth, head to toe visible.")].

Definition CAMERA_HEIGHTS : list (string * string) :=
  [("low", "Low angle shot"); ("eye", "Eye-level shot"); ("high", "High angle shot")].

Definition SCENARIO_POOLS : list (string * list string) :=
  [("sitting",
    ["sitting naturally on the existing furniture, relaxed posture, candid vibe, looking slightly away";
     "sitting on a ledge or surface with legs dangling, shot from below, carefree vibe, raw aesthetic";
     "curled up in a chair, hugging knees, cozy vibe, comfort, slightly out of focus, home snapshot";
     "lounging sideways on a sofa, looking at ceiling, boredom, flash photography style";
     "sitting on the floor with legs crossed, eating a snack, candid moment"]);
   ("lying",
    ["lying flat on the existing surface, staring up at the camera (POV), peaceful, messy hair";
     "lying on side comfortably, resting on the current furniture/floor, relaxed everyday pose, candid snapshot";
     "lying on stomach, reading a magazine or looking at phone, raw energy, teenage room vibe";
     "lounging back, blending into the scene, flash photography, sharp shadows"]);
   ("running",
    ["Running TOWARDS the camera, hair flying, blurry motion, excited expression, teenage vibe";
     "Turning head sharply to look back, hair whipping around, surprised look, candid chase shot";
     "sprinting towards the camera laughing, motion blur, urgent expression, cinematic action";
     "jogging lightly with headphones, relaxed expression, morning exercise vibe"]);
   ("jumping",
    ["Dancing freely, blurred arms, hair in motion, flash photography style, energetic party vibe";
     "mid-air freeze frame of a joyful jump, arms raised, celebration, natural lighting";
     "jumping over a small obstacle in an urban setting, parkour light, street style";
     "levitating slightly off the ground, surreal atmosphere, dreamy, floating hair"]);
   ("crying",
    ["Covering mouth while laughing (eyes crinkled, tears of joy), candid moment, raw emotion";
     "sitting curled up, hiding face, emotional moment within the current setting, raw emotion";
     "standing and wiping tears, emotional expression, blending with the current lighting";
     "head in hands, sobbing, deep emotion, isolated in the current room"]);
   ("static",
    ["POV shot holding a smartphone camera, taking a mirror selfie, looking at the screen, flash on";
     "Fixing hair while looking at a reflection, unaware of the camera, candid snapshot";
     "Covering mouth while laughing, candid moment, eyes crinkled, raw aesthetic";
     "Whispering a secret to someone off-camera, hand cupped around mouth, secretive vibe";
     "leaning against a wall, one foot up, cool attitude, street style";
     "casual standing, hands in pockets, looking sideways, candid shot"]);
   ("reaching",
    ["Leaning extremely close into the camera lens (fisheye effect), playful expression, winking, reaching out";
     "Blocking the camera lens with one hand playfully, candid snapshot, blurred hand foreground";
     "reaching hand towards the camera lens, forced perspective, blurring hand, emotional connection"]);
   ("crouching",
    ["Tying shoelaces while crouching down, street snap vibe, looking down";
     "crouching down low, street level view, candid moment, wide angle";
     "squatting down, resting elbows on knees, casual street pose, low angle, waiting for someone"]);
   ("lookingup",
    ["head tilted back looking at the sky, exposing neck line, rain or sunlight on face, dreamy";
     "looking up in awe, soft lighting on face, contemplative expression"])].

Definition MOTIONS : list string :=
  ["static"; "sitting"; "lying"; "running"; "jumping"; "crying"; "reaching";
   "crouching"; "lookingup"].

Definition CAMERA_MOVEMENTS : list (string * string) :=
  [("static", "Static camera, tripod shot, stable footage, no shake");
   ("smooth", "Smooth gimbal shot, floating camera, cinematic stabilizer, slow pan or tilt");
   ("dynamic", "Documentary style, Dynamic camera movement, Raw footage look, slightly unstable angle, Immersive POV. --no motion blur");
   ("tracking", "Tracking shot, dolly shot, camera following the subject, keeping subject in frame")].

Definition TRENDY_STYLES : list (string * string) :=
  [("kpop", "High-budget music video still frame, powerful synchronized dance choreography captured mid-motion, energetic performance, dynamic camera angle, dramatic stage lighting with lens flare, sharp focus on movement, vibrant cinematic color grading.");
   ("tiktok", "Viral social media dance clip screenshot, trendy aesthetic, dynamic body movement, slight motion blur emphasizing action, handheld camera feel, raw energy, candid yet stylish composition, distinct street fashion.");
   ("street", "High-fashion streetwear editorial advertisement, professional model with a powerful and confident pose, gritty urban background, professional commercial photography lighting, sharp focus, shallow depth of field, premium brand look.");
   ("dance", "Spectacular professional dance photography, frozen mid-air action pose, explosive movement, high tension, dramatic lighting highlighting muscle definition, impactful composition, raw power and grace.")].

(** [TABLE.find(s => s.val === v)], or the property [POOLS[v]]. *)
Definition findVal {A} (table : list (string * A)) (v : string) : option A :=
  match List.find (fun e => String.eqb (fst e) v) table with
  | Some e => Some (snd e)
  | None => None
  end.

(** The selections [executeGeneration] reads from the component state. *)
Record Selections := mkSelections {
  selectedAngle : CameraAngle;
  structureWeight : Z;
  randomCinematicPrompt : string;
  selectedShotSize : option string;
  selectedCameraHeight : option string;
  selectedMotion : option string;
  selectedCameraMovement : option string;
  selectedTrendyStyle : option string
}.

Definition isVal (o : option string) (v : string) : bool :=
  match o with Some s => String.eqb s v | None => false end.

Definition isAngle (o : CameraAngle) (a : Angle) : bool :=
  match o, a with
  | Some front, front | Some side, side | Some back, back | Some sheet, sheet => true
  | _, _ => false
  end.

(** [/a|b/i.test(s)] for lower-case alternatives [a] and [b]. *)
Definition testEither (a b s : string) : bool :=
  Str.includes a (Str.toLowerCase s) || Str.includes b (Str.toLowerCase s).

Definition pushIf (c : bool) (items : list string) (acc : list string) : list string :=
  if c then (acc ++ items)%list else acc.

Definition optPrompt (table : list (string * string)) (sel : option string)
  : list string :=
  match sel with
  | Some v => if Str.nonEmpty v
              then match findVal table v with Some p => [p] | None => [] end
              else []
  | None => []
  end.

Section Compose.
Variable sel : Selections.
Variable targetPrompt : string.
Variable overrideStructureWeight : option Z.
(** The value of the one [Math.random()] call, in [0, 1). *)
Variable random : Q.

Definition motionOn : bool := Str.truthy (selectedMotion sel).

Definition anglePrompts : list string :=
    let a := selectedAngle sel in
    pushIf (isAngle a side)
      ["Profile view of subject. Background perspective shifts to reveal the SIDE WALL and depth of the room. Vanishing point moves to the side. NOT a flat background."] []
    ++ pushIf (isAngle a back)
      ["Reverse angle shot. Showing the OPPOSITE side of the room (e.g., the door or wall BEHIND the character). The window is now behind the camera."] []
    ++ pushIf (isVal (selectedCameraHeight sel) "low")
      ["Worm's eye view. Visible CEILING structure, upper parts of furniture/windows, and tall vertical lines. Floor is not visible."] []
    ++ pushIf (isVal (selectedCameraHeight sel) "high")
      ["Bird's eye view. Visible FLOOR texture and patterns, tops of furniture. Ceiling is not visible."] []
    ++ match a with
       | Some sheet =>
           ["Character reference sheet, showing front view, side view, and back view of the same character standing side by side, consistent character details, white background"]
       | Some other =>
           ["Wide-angle shot, cinematic lighting, 8k resolution, ample space above head and below feet, head to toe visible";
            match other with
            | front => "Symmetrical front view, facing the camera directly"
            | side => "Side profile view, walking sideways"
            | back => "View from behind, back of the character, facing away from camera"
            | sheet => EmptyString
            end]
       | None => []
       end.

(** The scenario line of the selected motion. *)
Definition motionPrompts : list string :=
    match selectedMotion sel with
    | Some m =>
        if Str.nonEmpty m then
          match findVal SCENARIO_POOLS m with
          | Some pool =>
              let i := Z.to_nat (Qfloor (random * inject_Z (Z.of_nat (length pool)))) in
              [default EmptyString (pool !! i)]
          | None =>
              if existsb (String.eqb m) MOTIONS && String.eqb m "static"
              then ["Standing still, calm pose, steady, no movement"] else []
          end
        else []
    | None => []
    end.

Definition effectiveStructureWeight : Z :=
    let nominal := match overrideStructureWeight with
                   | Some w => w
                   | None => structureWeight sel
                   end in
    match selectedMotion sel with
    | Some m =>
        if Str.nonEmpty m
           && (match findVal SCENARIO_POOLS m with Some _ => true | None => false end)
           && negb (String.eqb m "static")
           && (match overrideStructureWeight with None => true | Some _ => false end)
        then 20%Z else nominal
    | None => nominal
    end.

Definition cinematicPrompts : list string :=
    optPrompt SHOT_SIZES (selectedShotSize sel)
    ++ optPrompt CAMERA_HEIGHTS (selectedCameraHeight sel)
    ++ motionPrompts
    ++ optPrompt CAMERA_MOVEMENTS (selectedCameraMovement sel)
    ++ optPrompt TRENDY_STYLES (selectedTrendyStyle sel).

Definition isCinematicActive : bool :=
    Str.truthy (selectedShotSize sel) || Str.truthy (selectedCameraHeight sel)
    || Str.truthy (selectedMotion sel) || Str.truthy (selectedCameraMovement sel)
    || Str.nonEmpty (randomCinematicPrompt sel).

Definition depthPrompts : list string :=
    let r := randomCinematicPrompt sel in
    let rOn := Str.nonEmpty r in
    if isCinematicActive && negb (isAngle (selectedAngle sel) sheet) then
      ["volumetric atmosphere, depth of field, spatial depth, 3D render style environment"]
      ++ pushIf (isVal (selectedCameraHeight sel) "low"
                 || (rOn && testEither "low angle" "worm" r))
           ["imposing perspective, towering background elements"] []
      ++ pushIf (isVal (selectedCameraHeight sel) "high"
                 || (rOn && testEither "high angle" "drone" r))
           ["ground-level details emphasized"] []
      ++ pushIf (isVal (selectedCameraMovement sel) "dynamic"
                 || isVal (selectedShotSize sel) "extremewide"
                 || (rOn && testEither "fisheye" "wide-angle" r))
           ["wide-angle lens distortion, expansive view of the entire room corner, exaggerated perspective vanishing point, seeing multiple walls and floor simultaneously"] []
      ++ pushIf (rOn && testEither "dutch angle" "tilted" r)
           ["disoriented tilted horizon line, slanted walls and floor, dynamic diagonal composition of the space"] []
    else [].

Definition strictNegativePrompts : list string :=
    let m := selectedMotion sel in
    ["(changing background:1.5)"; "new location"; "different room"; "remodeling";
     "changing furniture"; "changing lighting"; "morphing background";
     "distorted architecture"]
    ++ pushIf (isVal m "sitting" || isVal m "lying")
         ["(bench:1.5)"; "park bench"; "outdoor furniture"; "grass";
          "street elements"; "public park"; "new chair"] []
    ++ pushIf (existsb (String.eqb (default EmptyString m))
                       ["running"; "jumping"; "reaching"; "crouching"])
         ["(martial arts, kung fu, fighting stance, superhero landing, combat, punching, kicking, karate:1.5)"] []
    ++ pushIf (isVal m "running" || isVal m "jumping")
         ["distance running"; "track"; "road"; "spacious outdoors";
          "changing location"; "forest"; "street"] []
    ++ ["outdoor"; "exterior"; "sky"; "sunlight"; "nature"].

Definition promptParts : list string :=
    pushIf (Str.nonEmpty targetPrompt && (0 <? String.length (Str.trim targetPrompt))%nat)
           [Str.trim targetPrompt] []
    ++ anglePrompts
    ++ pushIf (0 <? length cinematicPrompts)%nat [Str.join ", " cinematicPrompts] []
    ++ pushIf (Str.nonEmpty (randomCinematicPrompt sel))
         ["(Director's Cut: " ++ randomCinematicPrompt sel ++ ")"] []
    ++ depthPrompts
    ++ ["[NEGATIVE PROMPT: " ++ Str.join ", " strictNegativePrompts ++ "]"]
    ++ pushIf motionOn
         ["candid photography, motion blur, direct flash, slightly out of focus, raw aesthetic, teenage vibe, high school concept, iPhone camera quality";
          "[NEGATIVE PROMPT: studio lighting, perfect pose, his model, professional headshot, staged photo]"] [].

Definition composedPrompt : string :=
    let finalPrompt := Str.join ", " promptParts in
    if negb (Str.nonEmpty finalPrompt) || (String.length (Str.trim finalPrompt) =? 0)%nat
    then "High quality image transformation, cinematic lighting, 8k resolution"
    else finalPrompt.
End Compose.
End Composer.

(* ------------------------------------------------------------------ *)
(** ** App.tsx: session state, orchestrator and history *)

Module App.
Import GeminiService Composer.
Local Open Scope string_scope.

(** types.ts *)
Record ImageSource := mkImage {
  url : string;
  img_base64 : string;
  img_mimeType : string;
  img_prompt : option string;
  timestamp : option Z;
  isSheet : option bool
}.

Inductive ToastType := success | error | info.

(** The component state the handlers below only read. *)
Record Settings := mkSettings {
  prompt : string;
  apiKey : string;
  selectedSize : ImageSize;
  selectedAspectRatio : AspectRatio;
  styleReferenceImages : list ImageSource;
  assetImages : list ImageSource;
  selections : Selections
}.

(** The component state they write, with the toasts shown so far. *)
Record Session := mkSession {
  originalImage : option ImageSource;
  sourceImage : option ImageSource;
  maskImage : option string;
  currentGeneratedImage : option ImageSource;
  generatedImageHistory : list ImageSource;
  isGenerating : bool;
  isUpscaling : bool;
  errorState : option string;
  isKeyModalOpen : bool;
  isGeneratingScenes : bool;
  sceneProgress : nat;
  toasts : list (string * ToastType)
}.

Definition setOriginalImage v (s : Session) : Session :=
  mkSession v (sourceImage s) (maskImage s) (currentGeneratedImage s)
    (generatedImageHistory s) (isGenerating s) (isUpscaling s) (errorState s)
    (isKeyModalOpen s) (isGeneratingScenes s) (sceneProgress s) (toasts s).
Definition setSourceImage v (s : Session) : Session :=
  mkSession (originalImage s) v (maskImage s) (currentGeneratedImage s)
    (generatedImageHistory s) (isGenerating s) (isUpscaling s) (errorState s)
    (isKeyModalOpen s) (isGeneratingScenes s) (sceneProgress s) (toasts s).
Definition setMaskImage v (s : Session) : Session :=
  mkSession (originalImage s) (sourceImage s) v (currentGeneratedImage s)
    (generatedImageHistory s) (isGenerating s) (isUpscaling s) (errorState s)
    (isKeyModalOpen s) (isGeneratingScenes s) (sceneProgress s) (toasts s).
Definition setCurrentGeneratedImage v (s : Session) : Session :=
  mkSession (originalImage s) (sourceImage s) (maskImage s) v
    (generatedImageHistory s) (isGenerating s) (isUpscaling s) (errorState s)
    (isKeyModalOpen s) (isGeneratingScenes s) (sceneProgress s) (toasts s).
(** [setGeneratedImageHistory(prev => f(prev))]. *)
Definition setGeneratedImageHistory (f : list ImageSource -> list ImageSource)
  (s : Session) : Session :=
  mkSession (originalImage s) (sourceImage s) (maskImage s) (currentGeneratedImage s)
    (f (generatedImageHistory s)) (isGenerating s) (isUpscaling s) (errorState s)
    (isKeyModalOpen s) (isGeneratingScenes s) (sceneProgress s) (toasts s).
Definition setIsGenerating v (s : Session) : Session :=
  mkSession (originalImage s) (sourceImage s) (maskImage s) (currentGeneratedImage s)
    (generatedImageHistory s) v (isUpscaling s) (errorState s)
    (isKeyModalOpen s) (isGeneratingScenes s) (sceneProgress s) (toasts s).
Definition setIsUpscaling v (s : Session) : Session :=
  mkSession (originalImage s) (sourceImage s) (maskImage s) (currentGeneratedImage s)
    (generatedImageHistory s) (isGenerating s) v (errorState s)
    (isKeyModalOpen s) (isGeneratingScenes s) (sceneProgress s) (toasts s).
Definition setError v (s : Session) : Session :=
  mkSession (originalImage s) (sourceImage s) (maskImage s) (currentGeneratedImage s)
    (generatedImageHistory s) (isGenerating s) (isUpscaling s) v
    (isKeyModalOpen s) (isGeneratingScenes s) (sceneProgress s) (toasts s).
Definition setIsKeyModalOpen v (s : Session) : Session :=
  mkSession (originalImage s) (sourceImage s) (maskImage s) (currentGeneratedImage s)
    (generatedImageHistory s) (isGenerating s) (isUpscaling s) (errorState s)
    v (isGeneratingScenes s) (sceneProgress s) (toasts s).
Definition setIsGeneratingScenes v (s : Session) : Session :=
  mkSession (originalImage s) (sourceImage s) (maskImage s) (currentGeneratedImage s)
    (generatedImageHistory s) (isGenerating s) (isUpscaling s) (errorState s)
    (isKeyModalOpen s) v (sceneProgress s) (toasts s).
Definition setSceneProgress v (s : Session) : Session :=
  mkSession (originalImage s) (sourceImage s) (maskImage s) (currentGeneratedImage s)
    (generatedImageHistory s) (isGenerating s) (isUpscaling s) (errorState s)
    (isKeyModalOpen s) (isGeneratingScenes s) v (toasts s).
Definition showToast (message : string) (type : ToastType) (s : Session) : Session :=
  mkSession (originalImage s) (sourceImage s) (maskImage s) (currentGeneratedImage s)
    (generatedImageHistory s) (isGenerating s) (isUpscaling s) (errorState s)
    (isKeyModalOpen s) (isGeneratingScenes s) (sceneProgress s)
    (toasts s ++ [(message, type)])%list.

Definition hasApiKey (cfg : Settings) : bool := Str.nonEmpty (apiKey cfg).

(** *** History handlers *)

Definition resetGeneratedState (s : Session) : Session :=
  setMaskImage None (setGeneratedImageHistory (fun _ => [])
    (setCurrentGeneratedImage None s)).

(** A pasted image; the file input does the same without clearing the
    error. *)
Definition handlePaste (source : ImageSource) (s : Session) : Session :=
  setError None (resetGeneratedState
    (setSourceImage (Some source) (setOriginalImage (Some source) s))).
Definition handleFileInput (source : ImageSource) (s : Session) : Session :=
  resetGeneratedState
    (setSourceImage (Some source) (setOriginalImage (Some source) s)).

Definition handleSwapImages (s : Session) : Session :=
  match sourceImage s, currentGeneratedImage s with
  | None, None => s
  | tempSource, current =>
      setError None (setMaskImage None
        (setCurrentGeneratedImage tempSource (setSourceImage current s)))
  end.

Definition handleBranchFromHistory (img : ImageSource) (s : Session) : Session :=
  setError None (setMaskImage None (setSourceImage (Some img) s)).

Definition handleResetToOriginal (s : Session) : Session :=
  match originalImage s with
  | Some o => setError None (setMaskImage None (setSourceImage (Some o) s))
  | None => s
  end.

(** [prev.slice(0, -1)]. *)
Definition dropLast {A} (l : list A) : list A := take (length l - 1) l.

Definition handleDeleteResult (s : Session) : Session :=
  setGeneratedImageHistory dropLast (setCurrentGeneratedImage None s).

Definition handleDeleteSource (s : Session) : Session :=
  resetGeneratedState (setOriginalImage None (setSourceImage None s)).

(** The history thumbnail: [setCurrentGeneratedImage(img)]. *)
Definition handleSelect (img : ImageSource) (s : Session) : Session :=
  setCurrentGeneratedImage (Some img) s.

(** The two props the result panel receives for reverting. *)
Definition onRevert (s : Session) : Session :=
  let h := dropLast (generatedImageHistory s) in      (* [...history]; h.pop() *)
  setCurrentGeneratedImage (h !! (length h - 1)%nat)
    (setGeneratedImageHistory (fun _ => h) s).


(** *** The generation orchestrator *)

Definition toRefs (l : list ImageSource) : list ImageReference :=
  map (fun i => mkRef (img_base64 i) (img_mimeType i)) l.

(** [list.length > 0 ? list : undefined]. *)
Definition refsOrUndefined (l : list ImageSource) : option (list ImageReference) :=
  if (0 <? length l)%nat then Some (toRefs l) else None.

Definition hasImage (r : EditResult) : bool :=
  Str.truthy (imageUrl r) && Str.truthy (base64 r) && Str.truthy (resMimeType r).

(** [newHistory[newHistory.length - 1] = img] when the copy is not empty. *)
Definition replaceLast (img : ImageSource) (prev : list ImageSource)
  : list ImageSource :=
  if (0 <? length prev)%nat then <[(length prev - 1)%nat := img]> prev else prev.

Definition upscaleFailedNotice : string :=
  "4K Upscale failed due to timeout, but 1K image is saved.".

(** The two strings of the i18n table the orchestrator shows. *)
Record I18n := mkI18n { serverBusy : string; genError : string }.

Definition scenes : list (string * string) :=
  [("Establishing Shot", "Cinematic Establishing Shot, Wide Angle Master Shot. Show the character in their full environment. Action: Sitting on the bed or interacting with the space. Mood: Atmospheric. Persona: ");
   ("Emotional Close-up", "Extreme Close-up (ECU) on face, High Angle POV. Focus on eyes reflecting light, subtle emotional expression. Intimate mood. Persona: ");
   ("Activity/Hobby", "Mid-Shot or Over-the-Shoulder. Character is busy with a hobby, writing in a diary, or using a phone. Focused action. Persona: ");
   ("Vibe Snapshot", "Candid Snapshot, 'NewJeans' style aesthetic. Dutch Angle, Direct Flash, Motion Blur. Breaking the 4th wall, playful or lazy. Raw teenage vibe. Persona: ");
   ("Detail Macro", "Artistic Macro Shot (B-roll). Focus on hands holding an object, textures of clothing, or environmental details. No face necessary. Persona: ")].

Definition batchStructureWeight : Z := 20.

(** A one-digit number as text. *)
Definition digit (n : nat) : string := String (ascii_of_nat (48 + n)) EmptyString.

Section Orchestrator.
Variable service : nat -> GenRequest -> Outcome.
Variable t : I18n.
(** [Date.now()] as a function of what has happened so far, and the
    value of [Math.random()] in the composer. *)
Variable dateNow : Trace -> Z.
Variable random : Q.
Variable cfg : Settings.

Definition recordOf (r : EditResult) (promptText : string) (tr : Trace)
    (sheetFlag : bool) : option ImageSource :=
    if hasImage r then
      match imageUrl r, base64 r, resMimeType r with
      | Some u, Some b, Some m =>
          Some (mkImage u b m (Some promptText) (Some (dateNow tr)) (Some sheetFlag))
      | _, _, _ => None
      end
    else None.

(** The [catch] of the first call. *)
Definition onGenerationError (message : string) (s : Session) : Session :=
    let s := setIsUpscaling false (setIsGenerating false s) in
    let errorMsg := if Str.nonEmpty message then message else "Unknown error" in
    let errorMsg :=
      if String.eqb errorMsg "SERVER_BUSY" || Str.includes "503" errorMsg
         || Str.includes "Deadline" errorMsg
      then serverBusy t else errorMsg in
    showToast (if String.eqb errorMsg (serverBusy t) then errorMsg else genError t)
              error (setError (Some errorMsg) s).

(** The upscale pass, after the first record is committed. *)
Definition upscalePass (targetPrompt finalPrompt : string)
    (aspectRatio : AspectRatio) (styleRefs : option (list ImageReference))
    (seed : option Z) (first : ImageSource) (s : Session) (tr : Trace)
    : Session * Trace :=
    let s := setIsUpscaling true s in
    match editImage service
            (mkArgs (img_base64 first) (img_mimeType first) finalPrompt styleRefs
                    (refsOrUndefined (assetImages cfg)) K4 aspectRatio None 100 seed)
            tr with
    | (inr upscaleResult, tr) =>
        match recordOf upscaleResult
                ((if Str.nonEmpty targetPrompt then targetPrompt
                  else "[Click Generation]") ++ " (Upscaled)")
                tr (isAngle (selectedAngle (selections cfg)) sheet) with
        | Some upscaledImg =>
            (setIsUpscaling false
               (setGeneratedImageHistory (replaceLast upscaledImg)
                  (setCurrentGeneratedImage (Some upscaledImg) s)), tr)
        | None => (setIsUpscaling false s, tr)
        end
    | (inl _, tr) =>
        (setIsUpscaling false (showToast upscaleFailedNotice info s), tr)
    end.

(** [executeGeneration]: the value it resolves to, the state and the
    trace after it. *)
Definition executeGeneration (targetPrompt : string) (size : ImageSize)
    (aspectRatio : AspectRatio) (overrideStyleRefs : option (list ImageReference))
    (overrideStructureWeight : option Z) (seed : option Z)
    (s : Session) (tr : Trace) : option ImageSource * Session * Trace :=
    match sourceImage s with
    | None =>
        (None, showToast "Please upload a source image first." error
                 (setError (Some "Upload a source image.") s), tr)
    | Some src =>
        if negb (hasApiKey cfg) then
          (None, setIsKeyModalOpen true
                   (showToast "Please set your Gemini API Key in settings first." error
                      (setError (Some "API Key Required") s)), tr)
        else
          let s := setError None (setIsUpscaling false (setIsGenerating true s)) in
          let finalPrompt :=
            composedPrompt (selections cfg) targetPrompt random in
          let weight :=
            effectiveStructureWeight (selections cfg) overrideStructureWeight in
          let styleRefs := match overrideStyleRefs with
                           | Some l => Some l
                           | None => refsOrUndefined (styleReferenceImages cfg)
                           end in
          let initialSize := if ImageSize_eqb size K4 then K1 else size in
          match editImage service
                  (mkArgs (img_base64 src) (img_mimeType src) finalPrompt styleRefs
                          (refsOrUndefined (assetImages cfg)) initialSize aspectRatio
                          (Str.orUndefined (maskImage s)) weight seed)
                  tr with
          | (inr result, tr) =>
              match recordOf result
                      (if Str.nonEmpty targetPrompt then targetPrompt
                       else "[Click Generation] " ++ Str.substring0 30 finalPrompt ++ "...")
                      tr (isAngle (selectedAngle (selections cfg)) sheet) with
              | Some newImg =>
                  let s := setIsGenerating false
                             (setGeneratedImageHistory (fun prev => prev ++ [newImg])%list
                                (setCurrentGeneratedImage (Some newImg) s)) in
                  if ImageSize_eqb size K4 then
                    let '(s, tr) := upscalePass targetPrompt finalPrompt aspectRatio
                                      styleRefs seed newImg s tr in
                    (Some newImg, s, tr)
                  else (Some newImg, s, tr)
              | None => (None, setIsGenerating false s, tr)
              end
          | (inl message, tr) => (None, onGenerationError message s, tr)
          end
    end.

(** The loop of [handleGeneratePersonaScenes] from scene [i] on;
    [false] when a call threw. *)
Fixpoint sceneLoop (src : ImageSource) (rest : list (string * string)) (i : nat)
    (s : Session) (tr : Trace) : bool * Session * Trace :=
    match rest with
    | [] => (true, s, tr)
    | (name, promptPrefix) :: rest' =>
        let fullPrompt := promptPrefix ++ " " ++ prompt cfg in
        let s := showToast ("Generating Scene: " ++ name ++ "... (" ++ digit (i + 1) ++ "/5)")
                           info s in
        match editImage service
                (mkArgs (img_base64 src) (img_mimeType src) fullPrompt
                        (refsOrUndefined (styleReferenceImages cfg))
                        (refsOrUndefined (assetImages cfg)) K1 R16_9 None
                        batchStructureWeight None)
                tr with
        | (inr result, tr) =>
            let s := match recordOf result ("[Scene: " ++ name ++ "] " ++ prompt cfg)
                             tr false with
                     | Some newImg =>
                         setGeneratedImageHistory (fun prev => prev ++ [newImg])%list
                           (setCurrentGeneratedImage (Some newImg) s)
                     | None => s
                     end in
            sceneLoop src rest' (S i) (setSceneProgress (i + 1) s) tr
        | (inl _, tr) => (false, s, tr)
        end
    end.

Definition handleGeneratePersonaScenes (s : Session) (tr : Trace)
    : Session * Trace :=
    match sourceImage s with
    | None => (showToast "Please upload a source image first." error s, tr)
    | Some src =>
        let s := setSceneProgress 0 (setIsGeneratingScenes true s) in
        let '(completed, s, tr) := sceneLoop src scenes 0 s tr in
        let s := if completed
                 then showToast "Persona Scenario Generation Complete!" success s
                 else showToast "Scenario Generation interrupted." error s in
        (setSceneProgress 0 (setIsGeneratingScenes false s), tr)
    end.
End Orchestrator.
(** *** Reading an image file *)

(** What [fileToImageSource] resolves with; [base64] is [undefined]
    when the data URL has no comma. *)
Record LoadedImage := mkLoaded {
  loadedUrl : string;
  loadedBase64 : option string;
  loadedMimeType : string
}.

(** [fileToImageSource]: [readResult] is [reader.result] when the read
    succeeded and [None] when [onerror] fired; [inl] is the message of
    the rejection. *)
Definition fileToImageSource (readResult : option string) (fileType : string)
  : string + LoadedImage :=
  match readResult with
  | Some result => inr (mkLoaded result (Str.split ","%char result !! 1%nat) fileType)
  | None => inl "Failed to read image file"
  end.

(** *** Handlers of the selections *)

Definition setSelections (f : Selections -> Selections) (cfg : Settings) : Settings :=
  mkSettings (prompt cfg) (apiKey cfg) (selectedSize cfg) (selectedAspectRatio cfg)
    (styleReferenceImages cfg) (assetImages cfg) (f (selections cfg)).
Definition setSelectedAspectRatio (r : AspectRatio) (cfg : Settings) : Settings :=
  mkSettings (prompt cfg) (apiKey cfg) (selectedSize cfg) r
    (styleReferenceImages cfg) (assetImages cfg) (selections cfg).
Definition setSelectedAngle (a : CameraAngle) (sel : Selections) : Selections :=
  mkSelections a (Composer.structureWeight sel) (randomCinematicPrompt sel)
    (selectedShotSize sel) (selectedCameraHeight sel) (selectedMotion sel)
    (selectedCameraMovement sel) (selectedTrendyStyle sel).

Definition CameraAngle_eqb (a b : CameraAngle) : bool :=
  match a, b with
  | None, None => true
  | Some x, _ => isAngle b x
  | None, Some _ => false
  end.

Definition handleAngleSelection (angle : CameraAngle) (cfg : Settings) : Settings :=
  if CameraAngle_eqb (selectedAngle (selections cfg)) angle
  then setSelections (setSelectedAngle None) cfg
  else
    let cfg := setSelections (setSelectedAngle angle) cfg in
    if isAngle angle sheet then setSelectedAspectRatio R16_9 cfg else cfg.

Definition EXTREME_ACTIONS : list string :=
  ["Jumping in mid-air with dynamic motion blur, action pose";
   "Sitting on the ground, looking up, relaxed pose";
   "Running towards the camera aggressively, dynamic movement";
   "Lying down, top-down view, relaxing";
   "Back view, turning head around, mystery";
   "Dynamic combat pose, fighting stance";
   "Floating in zero gravity, weightless pose"].

Definition EXTREME_ANGLES : list string :=
  ["Extreme Low Angle (Worm's eye view), imposing";
   "High Angle (Drone shot), birds eye view";
   "Dutch Angle (Tilted 30 degrees), dynamic framing";
   "Wide-angle Fisheye Lens distortion, 10mm lens";
   "Over-the-shoulder shot, cinematic perspective"].

(** [table[Math.floor(r * table.length)]]; [None] is [undefined]. *)
Definition pick {A} (table : list A) (r : Q) : option A :=
  table !! Z.to_nat (Qfloor (r * inject_Z (Z.of_nat (length table)))).

(** [randomizeCinematic], given the six values of [Math.random()] in
    the order they are drawn: the settings after it and the text of its
    toast; [None] when an entry read from a table is [undefined] (the
    handler raises on its first property access). *)
Definition randomizeCinematic (r1 r2 r3 r4 r5 r6 : Q) (cfg : Settings)
  : option (Settings * string) :=
  match pick SHOT_SIZES r1, pick CAMERA_HEIGHTS r2, pick MOTIONS r3,
        pick CAMERA_MOVEMENTS r4, pick EXTREME_ACTIONS r5, pick EXTREME_ANGLES r6 with
  | Some randomShot, Some randomHeight, Some randomMotion, Some randomCamMove,
    Some randomAction, Some randomAngle =>
      let extraPrompt := (randomAction ++ ", " ++ randomAngle)%string in
      Some (setSelections
              (fun sel =>
                 mkSelections (selectedAngle sel) 35 extraPrompt
                   (Some (fst randomShot)) (Some (fst randomHeight)) (Some randomMotion)
                   (Some (fst randomCamMove)) (selectedTrendyStyle sel)) cfg,
            ("Director's Cut: "
             ++ default EmptyString (Str.split ","%char randomAction !! 0%nat)
             ++ " + "
             ++ default EmptyString (Str.split ","%char randomAngle !! 0%nat))%string)
  | _, _, _, _, _, _ => None
  end.
End App.

(* ------------------------------------------------------------------ *)
(** ** contexts/ToastContext.tsx *)

Module ToastContext.
Record Toast := mkToast {
  id : string;
  message : string;
  type : App.ToastType
}.

(** [showToast]: [id] is the text drawn from [Math.random()], and a
    missing [type] is ['info']. *)
Definition showToast (newId message : string) (type : option App.ToastType)
  (toasts : list Toast) : list Toast :=
  (toasts ++ [mkToast newId message (default App.info type)])%list.

(** The timer of a toast, three seconds later:
    [prev.filter(t => t.id !== id)]. *)
Definition dismiss (oldId : string) (toasts : list Toast) : list Toast :=
  List.filter (fun t => negb (String.eqb (id t) oldId)) toasts.
End ToastContext.

(* ------------------------------------------------------------------ *)
(** ** components/CompareSlider.tsx *)

Module CompareSlider.
Local Open Scope Q_scope.

(** [Math.min] and [Math.max] on two numbers. *)
Definition jsMin (a b : Q) : Q := if Canvas.Qlt_bool b a then b else a.
Definition jsMax (a b : Q) : Q := if Canvas.Qlt_bool a b then b else a.

(** [handleMove]: the new [position]; [containerRect] is the left edge
    and the width of the bounding box of the container, [None] when the
    ref is not set. *)
Definition handleMove (containerRect : option (Q * Q)) (clientX position : Q) : Q :=
  match containerRect with
  | None => position
  | Some (rectLeft, rectWidth) =>
      let x := clientX - rectLeft in
      jsMax 0 (jsMin 100 (x / rectWidth * 100))
  end.
End CompareSlider.

(* ================================================================== *)
(** * The terms of the statements, and sample data *)

Section MaskRasterTerms.
Import Canvas ImagePanel.
Local Open Scope Q_scope.

(** The points of a path at the resolution of the raster. *)
Definition scaled (img : Img) (p : Path) : list Pt :=
  map (fun pt => (x pt * inject_Z (naturalWidth img),
                  y pt * inject_Z (naturalHeight img))) (points p).

(** The one white stroke a path of two points or more is to leave. *)
Definition maskStroke (img : Img) (p : Path) : Paint :=
  StrokePath "white" CapRound JoinRound
             (inject_Z (naturalWidth img) * (5 # 100)) 1 [scaled img p].

Definition strokable (p : Path) : bool := (2 <=? length (points p))%nat.

Definition blackFill (img : Img) : Paint :=
  FillRect "black" 0 0 (inject_Z (naturalWidth img)) (inject_Z (naturalHeight img)).

(** The drawing state [exportMask] strokes with. *)
Definition maskStyled (img : Img) (c : Ctx) : Prop :=
  cwidth c = naturalWidth img /\ cheight c = naturalHeight img /\
  strokeStyle c = "white"%string /\ lineCap c = CapRound /\
  lineJoin c = JoinRound /\
  lineWidth c = inject_Z (naturalWidth img) * (5 # 100) /\
  globalAlpha c = 1.

End MaskRasterTerms.

Section NormalizerTerms.
Import Canvas ImagePanel.
Local Open Scope Q_scope.

(** The element has a size and the image has loaded. *)
Definition displayed (img : Img) : Prop :=
  (0 < naturalWidth img)%Z /\ (0 < naturalHeight img)%Z /\
  (0 < width img)%Z /\ (0 < height img)%Z.

(** A 400x200 image in a 100x100 element (bars above and below) and a
    200x400 image in the same element (bars left and right). *)
Definition wideImg : Img := mkImg 400 200 100 100 (10 # 1) (20 # 1).
Definition tallImg : Img := mkImg 200 400 100 100 (10 # 1) (20 # 1).

End NormalizerTerms.

Section RoundedNormalizerTerms.
Import Canvas ImagePanel.
Local Open Scope Q_scope.

(** The sides of the image and of the element are between one pixel
    and [maxSide] pixels. *)
Definition maxSide : Z := 65536.

Definition sized (img : Img) : Prop :=
  (1 <= naturalWidth img <= maxSide)%Z /\ (1 <= naturalHeight img <= maxSide)%Z /\
  (1 <= width img <= maxSide)%Z /\ (1 <= height img <= maxSide)%Z.

(** The rendered sub-rectangle, in the words of the specification:
    [rect] has the aspect ratio of the image, lies within the element,
    fills it along one axis and is centred in it. *)
Definition letterboxed (img : Img) (rect : Layout) : Prop :=
  0 < renderWidth rect /\ 0 < renderHeight rect /\
  renderWidth rect * inject_Z (naturalHeight img)
    == renderHeight rect * inject_Z (naturalWidth img) /\
  renderWidth rect <= inject_Z (width img) /\
  renderHeight rect <= inject_Z (height img) /\
  (renderWidth rect == inject_Z (width img) \/
   renderHeight rect == inject_Z (height img)) /\
  left rect == (inject_Z (width img) - renderWidth rect) / 2 /\
  top rect == (inject_Z (height img) - renderHeight rect) / 2.

(** The error of one rounding of a quantity below [4 * maxSide], and
    the tolerance of the round trip, [2 ^ -33] and [2 ^ -30] of a pixel. *)
Definition oneRounding : Q := 1 # 8589934592.
Definition tolerance : Q := 1 # 1073741824.

(** [a] is [b] within the tolerance. *)
Definition near (a b : Q) : Prop := b - tolerance <= a /\ a <= b + tolerance.

(** The position [(cx, cy)], taken from the corner of the bounding box,
    is on [rect] grown by [margin] on every side (shrunk when [margin]
    is negative). *)
Definition onRect (rect : Layout) (margin cx cy : Q) : Prop :=
  (left rect - margin <= cx /\ cx <= left rect + renderWidth rect + margin) /\
  (top rect - margin <= cy /\ cy <= top rect + renderHeight rect + margin).

(** A 700x1000 image in a 700x700 element at the origin of the
    viewport, and its rendered sub-rectangle. *)
Definition portraitImg : Img := mkImg 700 1000 700 700 0 0.
Definition portraitRect : Layout := mkLayout 490 700 0 105.

(** A 3x7 image in a 100x700 element at the origin of the viewport,
    and its rendered sub-rectangle; [aboveStrip] is the double next
    below [700 / 3]. *)
Definition stripImg : Img := mkImg 3 7 100 700 0 0.
Definition stripRect : Layout := mkLayout 100 (700 # 3) (700 # 3) 0.
Definition aboveStrip : Q := 4104843410363733 # 17592186044416.

(** The rendered sub-rectangle of [wideImg]. *)
Definition wideRect : Layout := mkLayout 100 50 25 0.

End RoundedNormalizerTerms.

Section ExportedMaskTerms.
Import Canvas ImagePanel.
Local Open Scope Q_scope.

(** A stand-in encoder for the examples: a fixed payload. *)
Definition pngStub (c : Ctx) : string := "data:image/png;base64,iVBORw0KGgo=".

Definition diagonal : Path :=
  mkPath [mkPoint (1 # 4) (1 # 4); mkPoint (3 # 4) (3 # 4)] (5 # 100).
Definition dot : Path := mkPath [mkPoint (1 # 2) (1 # 2)] (5 # 100).

End ExportedMaskTerms.

Section SingleClickTerms.
Import Canvas ImagePanel.
Local Open Scope Q_scope.

Definition idlePanel : Panel := mkPanel true false [] [] (Some wideImg) None.

Definition maskedArgs : GeminiService.EditArgs :=
  GeminiService.mkArgs "c291cmNl" "image/png" "make the hat red" None None
    GeminiService.K1 GeminiService.R1_1 (Some "iVBORw0KGgo="%string) 50 None.

End SingleClickTerms.

Section ServiceClaimsTerms.
Import GeminiService.
Local Open Scope list_scope.

(** Sample requests, responses and remote behaviours. *)
Definition plainArgs : EditArgs :=
  mkArgs "c291cmNl" "image/png" "make the hat red" None None K1 R1_1 None 50 None.

Definition imageSeg (d : string) : RespPart :=
  mkPart None (Some (mkInline d "image/png")).
Definition textSeg (s : string) : RespPart := mkPart (Some s) None.
Definition respOf (segs : list RespPart) : Response :=
  mkResponse (Some [mkCandidate (Some (mkContent (Some segs)))]).

Definition overloaded : Thrown := ErrorObj "503 Service Unavailable: Overloaded".

(** Every call is refused with the same value. *)
Definition alwaysThrows (e : Thrown) : nat -> GenRequest -> Outcome :=
  fun _ _ => Throws e.
(** The first call is refused as overloaded, the later ones answered. *)
Definition busyOnce (r : Response) : nat -> GenRequest -> Outcome :=
  fun n _ => match n with O => Throws overloaded | S _ => Returns r end.

End ServiceClaimsTerms.

Section ResponseParsingTerms.
Import GeminiService.
Local Open Scope list_scope.

(** A response that carries the segments [segs]: it has one candidate,
    whose content holds them, or it has no candidate and [segs] is
    empty. *)
Definition carries (response : Response) (segs : list RespPart) : Prop :=
  candidates response = Some [mkCandidate (Some (mkContent (Some segs)))] \/
  ((candidates response = None \/ candidates response = Some []) /\ segs = []).

(** A candidate without content, as a blocked answer has it. *)
Definition blocked : Response := mkResponse (Some [mkCandidate None]).

(** What a segment contributes: its text when that is not empty,
    otherwise its inline data. *)
Definition imageOf (part : RespPart) : option InlineData :=
  if Str.truthy (text part) then None else inlineData part.
Definition textOf (part : RespPart) : option string :=
  if Str.truthy (text part) then text part else None.

Definition dataUrl (d : InlineData) : string :=
  ("data:" ++ inlineMime d ++ ";base64," ++ data d)%string.

Definition twoImages : Response := respOf [imageSeg "QUFB"; imageSeg "QkJC"].

End ResponseParsingTerms.

Section HistoryTerms.
Import GeminiService Composer App.
Local Open Scope list_scope.

Definition shot (name : string) : ImageSource :=
  mkImage ("data:image/png;base64," ++ name)%string name "image/png" None None None.

Definition emptySession : Session :=
  mkSession None None None None [] false false None false false 0 [].

(** A session whose history is the given list, the last record current. *)
Definition sessionWith (h : list ImageSource) : Session :=
  setCurrentGeneratedImage (last h) (setGeneratedImageHistory (fun _ => h) emptySession).

End HistoryTerms.

Section GenerationTerms.
Import GeminiService Composer App.
Local Open Scope list_scope.

Variable random : Q.
Variable cfg : Settings.

(** The arguments of the first call and of the upscale call. *)
Definition styleRefsOf (overrideStyleRefs : option (list ImageReference))
  : option (list ImageReference) :=
  match overrideStyleRefs with
  | Some l => Some l
  | None => refsOrUndefined (styleReferenceImages cfg)
  end.

Definition firstArgs (targetPrompt : string) (size : ImageSize)
  (aspectRatio : AspectRatio) (overrideStyleRefs : option (list ImageReference))
  (overrideStructureWeight seed : option Z) (s : Session) (src : ImageSource)
  : EditArgs :=
  mkArgs (img_base64 src) (img_mimeType src)
         (composedPrompt (selections cfg) targetPrompt random)
         (styleRefsOf overrideStyleRefs) (refsOrUndefined (assetImages cfg))
         (if ImageSize_eqb size K4 then K1 else size) aspectRatio
         (Str.orUndefined (maskImage s))
         (effectiveStructureWeight (selections cfg) overrideStructureWeight) seed.

Definition upscaleArgs (targetPrompt : string) (aspectRatio : AspectRatio)
  (overrideStyleRefs : option (list ImageReference)) (seed : option Z)
  (inputBase64 inputMime : string) : EditArgs :=
  mkArgs inputBase64 inputMime
         (composedPrompt (selections cfg) targetPrompt random)
         (styleRefsOf overrideStyleRefs) (refsOrUndefined (assetImages cfg))
         K4 aspectRatio None 100 seed.

Definition firstPromptText (targetPrompt : string) : string :=
  if Str.nonEmpty targetPrompt then targetPrompt
  else ("[Click Generation] "
        ++ Str.substring0 30 (composedPrompt (selections cfg) targetPrompt random)
        ++ "...")%string.

(** The session once the first record is committed. *)
Definition committed (newImg : ImageSource) (s : Session) : Session :=
  setIsGenerating false
    (setGeneratedImageHistory (fun prev => prev ++ [newImg])
       (setCurrentGeneratedImage (Some newImg)
          (setError None (setIsUpscaling false (setIsGenerating true s))))).

End GenerationTerms.

Section SampleRunsTerms.
Import GeminiService Composer App.
Local Open Scope list_scope.

Definition noSelections : Selections :=
  mkSelections None 50 EmptyString None None None None None.

Definition sampleSettings : Settings :=
  mkSettings "make the hair red" "key-123" K1 R1_1 [] [] noSelections.

Definition sampleI18n : I18n := mkI18n "The server is busy." "Generation failed.".

Definition tick (tr : Trace) : Z := Z.of_nat (length tr).

(** A session with a source image loaded and nothing generated yet. *)
Definition loaded : Session :=
  setSourceImage (Some (shot "c291cmNl"))
    (setOriginalImage (Some (shot "c291cmNl")) emptySession).

(** The first call is answered with one image, the later ones with
    another. *)
Definition twoAnswers : nat -> GenRequest -> Outcome :=
  fun n _ => match n with
             | O => Returns (respOf [imageSeg "QUFB"])
             | S _ => Returns (respOf [textSeg "upscaled"; imageSeg "VVBT"])
             end.

(** The first call is answered with an image, every later one refused. *)
Definition upscaleRefused : nat -> GenRequest -> Outcome :=
  fun n _ => match n with
             | O => Returns (respOf [imageSeg "QUFB"])
             | S _ => Throws (ErrorObj "400 Bad Request")
             end.

Definition ultraRun (service : nat -> GenRequest -> Outcome)
  : option ImageSource * Session * Trace :=
  executeGeneration service sampleI18n tick 0 sampleSettings "make the hair red"
                    K4 R1_1 None None None loaded [].

End SampleRunsTerms.

Section SubstringsTerms.
Local Open Scope string_scope.

(** [k] occurs in [s]. *)
Definition Contains (k s : string) : Prop := exists a b, s = a ++ k ++ b.

(** A word: not empty, and no white space at either end. *)
Fixpoint lastNotSpace (k : string) : bool :=
    match k with
    | EmptyString => false
    | String c EmptyString => negb (Str.isSpace c)
    | String _ r => lastNotSpace r
    end.

Definition firstNotSpace (k : string) : bool :=
    match k with
    | EmptyString => false
    | String c _ => negb (Str.isSpace c)
    end.

End SubstringsTerms.

Section BackgroundFreezeTerms.
Import GeminiService Composer App.
Local Open Scope list_scope.

(** A standard-tier generation from the free text alone. *)
Definition plainRun (freeText : string) : option ImageSource * Session * Trace :=
  executeGeneration twoAnswers sampleI18n tick 0 sampleSettings freeText
                    K1 R1_1 None None None loaded [].

(** The text segment of a request. *)
Definition sentPrompt (req : GenRequest) : option string :=
  match last (parts req) with
  | Some (TextPart s) => Some s
  | _ => None
  end.

Definition composerNegative : string :=
  "[NEGATIVE PROMPT: (changing background:1.5), new location, different room, remodeling, changing furniture, changing lighting, morphing background, distorted architecture, outdoor, exterior, sky, sunlight, nature]".

End BackgroundFreezeTerms.

Section OperationsTerms.
Import GeminiService Composer App.
Local Open Scope list_scope.

(** The operations a user can trigger on the session. *)
Inductive Action :=
  | Generate (targetPrompt : string) (size : ImageSize) (aspectRatio : AspectRatio)
           (overrideStyleRefs : option (list ImageReference))
           (overrideStructureWeight seed : option Z)
  | GeneratePersonaScenes
  | Paste (source : ImageSource)
  | FileInput (source : ImageSource)
  | SwapImages
  | BranchFromHistory (img : ImageSource)
  | ResetToOriginal
  | DeleteResult
  | DeleteSource
  | Select (img : ImageSource)
  | MaskChange (mask : option string)
  | Revert.

Variable service : nat -> GenRequest -> Outcome.
Variable t : I18n.
Variable dateNow : Trace -> Z.
Variable random : Q.
Variable cfg : Settings.

(** One operation, run to completion. *)
Definition step (a : Action) (s : Session) (tr : Trace) : Session * Trace :=
  match a with
  | Generate targetPrompt size aspectRatio osr osw seed =>
      let '(_, s', tr') :=
        executeGeneration service t dateNow random cfg targetPrompt size
                          aspectRatio osr osw seed s tr in
      (s', tr')
  | GeneratePersonaScenes => handleGeneratePersonaScenes service dateNow cfg s tr
  | Paste source => (handlePaste source s, tr)
  | FileInput source => (handleFileInput source s, tr)
  | SwapImages => (handleSwapImages s, tr)
  | BranchFromHistory img => (handleBranchFromHistory img s, tr)
  | ResetToOriginal => (handleResetToOriginal s, tr)
  | DeleteResult => (handleDeleteResult s, tr)
  | DeleteSource => (handleDeleteSource s, tr)
  | Select img => (handleSelect img s, tr)
  | MaskChange mask => (setMaskImage mask s, tr)
  | Revert => (onRevert s, tr)
  end.

(** The operations that shorten the history: revert, deleting the
    result, and replacing or deleting the source image. *)
Definition shortens (a : Action) : bool :=
  match a with
  | Revert | DeleteResult | DeleteSource | Paste _ | FileInput _ => true
  | _ => false
  end.

End OperationsTerms.

Section OperationsExamplesTerms.
Import GeminiService Composer App.
Local Open Scope list_scope.

Definition twoShots : Session := sessionWith [shot "QQ=="; shot "Qg=="].

(** The session of [loaded] once a first record is committed, and the
    same session after the upscale pass of that generation, run as the
    second remote call. *)
Definition baseCommitted : Session := committed (shot "QUFB") loaded.
Definition afterUpscale : Session :=
  fst (upscalePass twoAnswers tick sampleSettings "make the hair red"
         "make the hair red" R1_1 None None (shot "QUFB") baseCommitted
         [Call (buildRequest plainArgs)]).

End OperationsExamplesTerms.

Section StrokeRecorderTerms.
Import Canvas ImagePanel.
Local Open Scope Q_scope.

(** While a stroke is being drawn its first point is recorded. *)
Definition wellStarted (s : Panel) : Prop :=
  isDrawing s = true -> currentPath s <> [].

(** A point of the unit square. *)
Definition unitPoint (p : Point) : Prop := 0 <= x p <= 1 /\ 0 <= y p <= 1.

(** Every recorded point is a point of the unit square. *)
Definition normalizedPanel (s : Panel) : Prop :=
  Forall unitPoint (currentPath s) /\
  Forall (fun q => Forall unitPoint (points q)) (paths s).

(** The points accepted among pointer positions. *)
Definition accepted (imgRef : option Img) (positions : list (Q * Q)) : list Point :=
  omap (fun xy => getNormalizedPoint imgRef (fst xy) (snd xy)) positions.

(** The stroke the overlay shows for a path of two points or more. *)
Definition overlayStroke (img : Img) (p : Path) : Paint :=
  StrokePath "#84cc16" CapRound JoinRound
             (renderWidth (layout img) * (5 # 100)) (6 # 10)
             [map (toCanvas (layout img)) (points p)].

(** A panel in masking mode over [wideImg], with an overlay canvas. *)
Definition maskingPanel : Panel :=
  mkPanel true false [] [] (Some wideImg) (Some (create 100 100)).

(** A drag across the image that leaves it and comes back. *)
Definition sampleDrag : list PointerEvent :=
  [MouseDown (40 # 1) (60 # 1); MouseMove (50 # 1) (70 # 1);
   MouseMove (50 # 1) (200 # 1); MouseMove (60 # 1) (80 # 1); MouseUp; MouseLeave].
End StrokeRecorderTerms.

Section OverlayTerms.
Import Canvas ImagePanel.
Local Open Scope Q_scope.

(** The drawing state [adjustCanvas] strokes with. *)
Definition overlayStyled (img : Img) (c : Ctx) : Prop :=
  strokeStyle c = "#84cc16"%string /\ lineCap c = CapRound /\
  lineJoin c = JoinRound /\
  lineWidth c = renderWidth (layout img) * (5 # 100) /\
  globalAlpha c = 6 # 10.

(** [maskingPanel] with the two sample paths recorded. *)
Definition twoPathPanel : Panel :=
  mkPanel true false [dot; diagonal] [] (Some wideImg) (Some (create 300 150)).
End OverlayTerms.

Section SmallComponentsTerms.
Local Open Scope string_scope.

(** Every code unit of [s] passes [test]. *)
Fixpoint allChars (test : ascii -> bool) (s : string) : bool :=
  match s with
  | EmptyString => true
  | String c r => test c && allChars test r
  end.

(** An ASCII capital letter. *)
Definition isUpper (c : ascii) : bool :=
  let n := nat_of_ascii c in (Nat.leb 65 n && Nat.leb n 90)%bool.

(** A data URL, as [readAsDataURL] and the service layer write it. *)
Definition dataUrlOf (mime payload : string) : string :=
  "data:" ++ mime ++ ";base64," ++ payload.

(** The character [sep] occurs nowhere in [s]. *)
Definition free (sep : ascii) (s : string) : Prop :=
  Str.includes (String sep EmptyString) s = false.
End SmallComponentsTerms.

Section RequestTerms.
Import GeminiService.
Local Open Scope list_scope.

(** A request with a mask, two assets and one style reference. *)
Definition fullArgs : EditArgs :=
  mkArgs "c291cmNl" "image/jpeg" "  Make the hat red  "
         (Some [mkRef "c3R5bGU=" "image/png"])
         (Some [mkRef "YXNzZXQx" "image/png"; mkRef "YXNzZXQy" "image/webp"])
         K2 R3_4 (Some "bWFzaw=="%string) 80 (Some 7%Z).
End RequestTerms.

Section OutcomeTerms.
Import GeminiService Composer App.
Local Open Scope list_scope.

(** The time a trace spends waiting, in ms. *)
Definition waited (tr : Trace) : Z :=
  fold_right (fun e acc => match e with Sleep ms => ms + acc | Call _ => acc end)%Z
             0%Z tr.

(** The remote calls one generation may make: the first call and its
    retry, and for the ultra tier the upscale call and its retry. *)
Definition callBudget (size : ImageSize) : nat :=
  if ImageSize_eqb size K4 then 4 else 2.

(** The model answers with words only, or with no candidate at all. *)
Definition textOnly : nat -> GenRequest -> Outcome :=
  fun _ _ => Returns (respOf [textSeg "I cannot edit this image."]).
Definition noCandidates : nat -> GenRequest -> Outcome :=
  fun _ _ => Returns (mkResponse None).

(** A session with a source image, a mask and a first result. *)
Definition midSession : Session :=
  setMaskImage (Some "bWFzaw=="%string)
    (setCurrentGeneratedImage (Some (shot "QQ=="))
       (setGeneratedImageHistory (fun _ => [shot "QQ=="]) loaded)).

End OutcomeTerms.

Section BatchTerms.
Import GeminiService Composer App.
Local Open Scope list_scope.

(** A request of the persona batch for the source [src]: standard tier,
    16:9, structure weight 20, no mask and no seed. *)
Definition sceneCall (src : ImageSource) (req : GenRequest) : Prop :=
  exists a,
    req = buildRequest a /\
    base64ImageData a = img_base64 src /\ mimeType a = img_mimeType src /\
    imageSize a = K1 /\ aspectRatio a = R16_9 /\
    GeminiService.maskImage a = None /\ GeminiService.structureWeight a = 20%Z /\
    seed a = None.

(** The record that is current once [added] has been appended. *)
Definition currentAfter (added : list ImageSource) (before : option ImageSource)
  : option ImageSource :=
  match last added with Some r => Some r | None => before end.

(** Every call is answered with the same image. *)
Definition sameAnswer : nat -> GenRequest -> Outcome :=
  fun _ _ => Returns (respOf [imageSeg "QUFB"]).

(** The third call is refused, the others answered. *)
Definition thirdRefused : nat -> GenRequest -> Outcome :=
  fun n _ => match n with
             | 2%nat => Throws (ErrorObj "400 Bad Request")
             | _ => Returns (respOf [imageSeg "QUFB"])
             end.

End BatchTerms.

Section ComposerTerms.
Import GeminiService Composer App.
Local Open Scope list_scope.

(** A value of [Math.random()]. *)
Definition unitInterval (r : Q) : Prop := (0 <= r /\ r < 1)%Q.

(** The text [executeGeneration] falls back on for an empty instruction. *)
Definition fallbackPrompt : string :=
  "High quality image transformation, cinematic lighting, 8k resolution".

(** Settings with the motion [m] selected and nothing else. *)
Definition withMotion (m : string) : Settings :=
  mkSettings "wave at the camera" "key-123" K1 R1_1 [] []
             (mkSelections None 50 EmptyString None None (Some m) None None).

End ComposerTerms.

Section SimilarityTerms.
Import Canvas ImagePanel.
Local Open Scope Q_scope.

(** The scale from the rendered image to its natural size. *)
Definition zoom (img : Img) : Q :=
  inject_Z (naturalWidth img) / renderWidth (layout img).

(** A point of the raster is the point [o] of the overlay, moved by the
    letterbox bars and scaled by [zoom] on both axes. *)
Definition similar (img : Img) (o m : Pt) : Prop :=
  fst m == (fst o - left (layout img)) * zoom img /\
  snd m == (snd o - top (layout img)) * zoom img.

Definition zigzag : Path :=
  mkPath [mkPoint (1 # 4) (1 # 4); mkPoint (3 # 4) (1 # 2); mkPoint (1 # 4) (3 # 4)]
         (5 # 100).

End SimilarityTerms.

(* ================================================================== *)
(** * Properties *)


(** ** Mask rasterizer *)

Section MaskRaster.
Import Canvas ImagePanel.
Local Open Scope Q_scope.

Lemma setPath_setPath a b c : setPath a (setPath b c) = setPath a c.
Proof. destruct c; reflexivity. Qed.

Lemma fold_lineTo (f : Point -> Pt) rest : forall acc c,
  fold_left (fun c pi => lineTo (f pi) c) rest (setPath [acc] c)
  = setPath [(acc ++ map f rest)%list] c.
Proof.
  induction rest as [|pt rest IH]; intros acc c; simpl.
  - now rewrite app_nil_r.
  - unfold lineTo at 2. simpl. rewrite setPath_setPath, IH.
    now rewrite <- app_assoc.
Qed.

Lemma stroke_polyline (f : Point -> Pt) p0 rest c :
  stroke (fold_left (fun c pi => lineTo (f pi) c) rest (moveTo (f p0) (beginPath c)))
  = setPath [map f (p0 :: rest)]
      (paint (StrokePath (strokeStyle c) (lineCap c) (lineJoin c) (lineWidth c)
                         (globalAlpha c) [map f (p0 :: rest)]) c).
Proof.
  unfold beginPath, moveTo. rewrite setPath_setPath. simpl.
  rewrite fold_lineTo. destruct c; reflexivity.
Qed.

Lemma strokeMaskPath_painted img c p :
  maskStyled img c ->
  maskStyled img (strokeMaskPath c p) /\
  painted (strokeMaskPath c p)
  = (painted c ++ (if strokable p then [maskStroke img p] else []))%list.
Proof.
  intros (Hw & Hh & Hs & Hc & Hj & Hl & Ha).
  unfold strokeMaskPath, strokable, maskStroke, scaled.
  destruct (points p) as [|p0 rest] eqn:Hp.
  - simpl. rewrite app_nil_r. repeat split; assumption.
  - destruct rest as [|p1 rest].
    + simpl. rewrite app_nil_r. repeat split; assumption.
    + change ((length (p0 :: p1 :: rest) <? 2)%nat) with false.
      change ((2 <=? length (p0 :: p1 :: rest))%nat) with true.
      cbv iota.
      rewrite (stroke_polyline
                 (fun pi => (x pi * inject_Z (cwidth c), y pi * inject_Z (cheight c)))).
      unfold maskStyled. simpl.
      rewrite Hw, Hh, Hs, Hc, Hj, Hl, Ha. repeat split; reflexivity.
Qed.

Lemma fold_strokeMaskPath img ps : forall c,
  maskStyled img c ->
  maskStyled img (fold_left strokeMaskPath ps c) /\
  painted (fold_left strokeMaskPath ps c)
  = (painted c ++ map (maskStroke img) (List.filter strokable ps))%list.
Proof.
  induction ps as [|p ps IH]; intros c Hc; simpl.
  - rewrite app_nil_r. split; [assumption | reflexivity].
  - destruct (strokeMaskPath_painted img c p Hc) as [Hc' Hp].
    destruct (IH _ Hc') as [Hc'' Hps]. split; [assumption|].
    rewrite Hps, Hp. destruct (strokable p); simpl.
    + now rewrite <- app_assoc.
    + now rewrite app_nil_r.
Qed.

Lemma rasterize_spec img ps :
  cwidth (rasterize img ps) = naturalWidth img /\
  cheight (rasterize img ps) = naturalHeight img /\
  painted (rasterize img ps)
  = blackFill img :: map (maskStroke img) (List.filter strokable ps).
Proof.
  unfold rasterize.
  match goal with |- context [fold_left strokeMaskPath ps ?c0] =>
    destruct (fold_strokeMaskPath img ps c0) as [(Hw & Hh & _) Hp]
  end.
  - repeat split; reflexivity.
  - repeat split; assumption.
Qed.

(** A raster painted with the black fill alone shows black at every
    point of its bitmap. *)
Lemma blackFill_colour img c p :
  cwidth c = naturalWidth img -> cheight c = naturalHeight img ->
  painted c = [blackFill img] ->
  onBitmap c p = true -> colourAt c p = Some "black"%string.
Proof.
  unfold onBitmap, colourAt. intros Hw Hh Hp Hin. rewrite Hp. simpl.
  rewrite Hw, Hh in Hin. now rewrite Hin.
Qed.
End MaskRaster.

(** ** Coordinate normalizer *)

Section Normalizer.
Import Canvas ImagePanel.
Local Open Scope Q_scope.

Lemma Qlt_bool_iff a b : Qlt_bool a b = true <-> a < b.
Proof.
  unfold Qlt_bool. rewrite negb_true_iff. split; intro H.
  - apply Qnot_le_lt. intro Hle. apply Qle_bool_iff in Hle. congruence.
  - destruct (Qle_bool b a) eqn:E; [|reflexivity].
    apply Qle_bool_iff in E. exfalso. apply (Qlt_not_le _ _ H E).
Qed.

Lemma Qlt_bool_false a b : Qlt_bool a b = false <-> b <= a.
Proof.
  unfold Qlt_bool. rewrite negb_false_iff. apply Qle_bool_iff.
Qed.

Lemma inject_Z_pos z : (0 < z)%Z -> 0 < inject_Z z.
Proof. intro H. unfold Qlt. simpl. lia. Qed.

(** The rendered rectangle keeps the aspect ratio of the image, fits
    the element, fills one axis and is centred on the other. *)
Lemma layout_letterbox img :
  displayed img ->
  let l := layout img in
  0 < renderWidth l /\ 0 < renderHeight l /\
  renderWidth l * inject_Z (naturalHeight img)
    == renderHeight l * inject_Z (naturalWidth img) /\
  renderWidth l <= inject_Z (width img) /\
  renderHeight l <= inject_Z (height img) /\
  left l == (inject_Z (width img) - renderWidth l) / 2 /\
  top l == (inject_Z (height img) - renderHeight l) / 2 /\
  (renderWidth l == inject_Z (width img) \/ renderHeight l == inject_Z (height img)).
Proof.
  intros (Hnw & Hnh & Hw & Hh). unfold layout.
  apply inject_Z_pos in Hnw, Hnh, Hw, Hh.
  set (nw := inject_Z (naturalWidth img)) in *.
  set (nh := inject_Z (naturalHeight img)) in *.
  set (w := inject_Z (width img)) in *.
  set (h := inject_Z (height img)) in *.
  assert (Hr : 0 < nw / nh) by (apply Qlt_shift_div_l; lra).
  destruct (Qlt_bool (nw / nh) (w / h)) eqn:E; simpl.
  - apply Qlt_bool_iff in E.
    assert (Hfit : h * (nw / nh) <= w).
    { apply Qlt_le_weak. 
      assert (Hx : h * (nw / nh) < h * (w / h)) by (apply Qmult_lt_l; assumption).
      assert (Hy : h * (w / h) == w) by (field; lra).
      lra. }
    repeat split; try lra.
    + apply Qmult_lt_0_compat; assumption.
    + field. lra.
    + field.
  - apply Qlt_bool_false in E.
    assert (Hfit : w / (nw / nh) <= h).
    { apply Qle_shift_div_r; [assumption|].
      assert (Hx : h * (w / h) <= h * (nw / nh)) by (apply Qmult_le_l; assumption).
      assert (Hy : h * (w / h) == w) by (field; lra).
      lra. }
    repeat split; try lra.
    + apply Qlt_shift_div_l; lra.
    + field. split; lra.
    + field.
Qed.
End Normalizer.

(** ** Rounding to the nearest double *)

Section Rounding.
Import Canvas ImagePanel Binary64.
Local Open Scope Q_scope.

Lemma pow2_pos (a : Z) : 0 < 2 ^ a.
Proof. apply Qpower_0_lt. reflexivity. Qed.

Lemma pow2_plus (a b : Z) : 2 ^ (a + b) == 2 ^ a * 2 ^ b.
Proof. apply Qpower_plus. discriminate. Qed.

Lemma pow2_Z (a : Z) : (0 <= a)%Z -> inject_Z (2 ^ a) == 2 ^ a.
Proof. intro H. rewrite Zpower_Qpower by assumption. reflexivity. Qed.

Lemma pow2_succ (a : Z) : 2 ^ (a + 1) == 2 * 2 ^ a.
Proof. rewrite pow2_plus. change (2 ^ 1) with 2. ring. Qed.

Lemma pow2_pred (a : Z) : 2 ^ (a - 1) == (1 # 2) * 2 ^ a.
Proof.
  replace a with ((a - 1) + 1)%Z at 2 by lia. rewrite pow2_succ. ring.
Qed.

Lemma ilog2_spec (x : Q) :
  0 < x -> 2 ^ ilog2 x <= x /\ x < 2 ^ (ilog2 x + 1).
Proof.
  intro Hx. destruct x as [n d]. unfold ilog2. cbn [Qnum Qden].
  assert (Hn : (0 < n)%Z) by (unfold Qlt in Hx; cbn in Hx; lia).
  set (a := Z.log2 n). set (b := Z.log2 (Z.pos d)).
  destruct (Z.log2_spec n Hn) as [Ha1 Ha2]. fold a in Ha1, Ha2.
  destruct (Z.log2_spec (Z.pos d) (Pos2Z.is_pos d)) as [Hb1 Hb2]. fold b in Hb1, Hb2.
  assert (Ha0 : (0 <= a)%Z) by apply Z.log2_nonneg.
  assert (Hb0 : (0 <= b)%Z) by apply Z.log2_nonneg.
  assert (Hq : n # d == inject_Z n / inject_Z (Z.pos d)) by apply Qmake_Qdiv.
  assert (Hd : 0 < inject_Z (Z.pos d)) by reflexivity.
  assert (Qa1 : 2 ^ a <= inject_Z n).
  { rewrite <- pow2_Z by assumption. now rewrite <- Zle_Qle. }
  assert (Qa2 : inject_Z n < 2 ^ (a + 1)).
  { rewrite <- pow2_Z by lia. rewrite <- Zlt_Qlt. unfold Z.succ in Ha2. exact Ha2. }
  assert (Qb1 : 2 ^ b <= inject_Z (Z.pos d)).
  { rewrite <- pow2_Z by assumption. now rewrite <- Zle_Qle. }
  assert (Qb2 : inject_Z (Z.pos d) < 2 ^ (b + 1)).
  { rewrite <- pow2_Z by lia. rewrite <- Zlt_Qlt. unfold Z.succ in Hb2. exact Hb2. }
  pose proof (pow2_pos b) as Pb. pose proof (pow2_pos (a - b)) as Pab.
  assert (Eab : 2 ^ a == 2 ^ (a - b) * 2 ^ b).
  { rewrite <- pow2_plus. now replace (a - b + b)%Z with a by lia. }
  destruct (Qle_bool (2 ^ (a - b)) (n # d)) eqn:E.
  - apply Qle_bool_iff in E. split; [exact E|].
    rewrite Hq. apply Qlt_shift_div_r; [exact Hd|].
    rewrite pow2_succ.
    rewrite pow2_succ in Qa2. rewrite Eab in Qa2.
    assert (Hm : 2 ^ (a - b) * 2 ^ b <= 2 ^ (a - b) * inject_Z (Z.pos d))
      by (apply Qmult_le_l; assumption).
    generalize dependent (2 ^ (a - b)). generalize dependent (2 ^ b).
    generalize dependent (inject_Z (Z.pos d)). generalize dependent (inject_Z n).
    intros. clear - Qa2 Hm. lra.
  - assert (E' : n # d < 2 ^ (a - b)).
    { apply Qnot_le_lt. intro H. apply Qle_bool_iff in H. congruence. }
    replace (a - b - 1 + 1)%Z with (a - b)%Z by lia. split; [|exact E'].
    rewrite Hq. apply Qle_shift_div_l; [exact Hd|].
    rewrite pow2_pred. rewrite pow2_succ in Qb2. rewrite Eab in Qa1.
    assert (Hm : 2 ^ (a - b) * inject_Z (Z.pos d) < 2 ^ (a - b) * (2 * 2 ^ b))
      by (apply Qmult_lt_l; assumption).
    generalize dependent (2 ^ (a - b)). generalize dependent (2 ^ b).
    generalize dependent (inject_Z (Z.pos d)). generalize dependent (inject_Z n).
    intros. clear - Qa1 Hm. nra.
Qed.

Lemma rne_spec (s : Q) :
  inject_Z (rne s) - (1 # 2) <= s /\ s <= inject_Z (rne s) + (1 # 2).
Proof.
  unfold rne. pose proof (Qfloor_le s) as Hlo. pose proof (Qlt_floor s) as Hhi.
  rewrite inject_Z_plus in Hhi. change (inject_Z 1) with 1 in Hhi.
  set (f := Qfloor s) in *.
  destruct (Qcompare_spec (s - inject_Z f) (1 # 2)) as [E|E|E].
  - destruct (Z.even f); [lra|]. rewrite inject_Z_plus. change (inject_Z 1) with 1. lra.
  - lra.
  - rewrite inject_Z_plus. change (inject_Z 1) with 1. lra.
Qed.

Lemma rne_le (s : Q) (N : Z) : s <= inject_Z N -> (rne s <= N)%Z.
Proof.
  intro H. unfold rne. pose proof (Qfloor_le s) as Hlo.
  pose proof (Qfloor_resp_le _ _ H) as Hf. rewrite Qfloor_Z in Hf.
  set (f := Qfloor s) in *.
  assert (Hcase : (f = N \/ f + 1 <= N)%Z) by lia.
  destruct Hcase as [->|Hlt].
  - destruct (Qcompare_spec (s - inject_Z N) (1 # 2)) as [E|E|E];
      [exfalso; lra | lia | exfalso; lra].
  - destruct (Qcompare (s - inject_Z f) (1 # 2)); [destruct (Z.even f)| |]; lia.
Qed.

Lemma rne_ge (s : Q) (N : Z) : inject_Z N <= s -> (N <= rne s)%Z.
Proof.
  intro H. unfold rne.
  pose proof (Qfloor_resp_le _ _ H) as Hf. rewrite Qfloor_Z in Hf.
  set (f := Qfloor s) in *.
  destruct (Qcompare (s - inject_Z f) (1 # 2)); [destruct (Z.even f)| |]; lia.
Qed.

Lemma roundPos_nonneg (x : Q) : 0 < x -> 0 <= roundPos x.
Proof.
  intro Hx. unfold roundPos. cbv zeta.
  set (e := Z.max (ilog2 x - 52) (-1074)).
  pose proof (pow2_pos e) as He.
  assert (Hs : inject_Z 0 <= x / 2 ^ e).
  { apply Qle_shift_div_l; [exact He|]. change (inject_Z 0) with 0. lra. }
  apply rne_ge in Hs. rewrite Zle_Qle in Hs. change (inject_Z 0) with 0 in Hs.
  apply Qmult_le_0_compat; [exact Hs | lra].
Qed.

Lemma roundPos_le_1 (x : Q) : 0 < x -> x <= 1 -> roundPos x <= 1.
Proof.
  intros Hx H1. unfold roundPos. cbv zeta.
  destruct (ilog2_spec x Hx) as [Hk _].
  assert (Hk0 : (ilog2 x <= 0)%Z).
  { destruct (Z_le_gt_dec (ilog2 x) 0) as [H|H]; [exact H|]. exfalso.
    assert (2 ^ 1 <= 2 ^ ilog2 x) by (apply Qpower_le_compat_l; [lia | discriminate]).
    change (2 ^ 1) with 2 in H0. lra. }
  set (e := Z.max (ilog2 x - 52) (-1074)).
  assert (He0 : (e <= 0)%Z) by (unfold e; lia).
  pose proof (pow2_pos e) as He.
  assert (Einv : 2 ^ (- e) * 2 ^ e == 1).
  { rewrite <- pow2_plus. now replace (- e + e)%Z with 0%Z by lia. }
  assert (Hs : x / 2 ^ e <= inject_Z (2 ^ (- e))).
  { rewrite pow2_Z by lia. apply Qle_shift_div_r; [exact He|]. lra. }
  apply rne_le in Hs. rewrite Zle_Qle in Hs. rewrite pow2_Z in Hs by lia.
  assert (Hm : inject_Z (rne (x / 2 ^ e)) * 2 ^ e <= 2 ^ (- e) * 2 ^ e)
    by (apply Qmult_le_compat_r; [exact Hs | lra]).
  lra.
Qed.

Lemma u_pow : u == 2 ^ (-53).
Proof. reflexivity. Qed.

Lemma eta_pos : 0 < eta.
Proof. apply pow2_pos. Qed.

Lemma roundPos_error (x : Q) :
  0 < x ->
  x - (u * x + eta) <= roundPos x /\ roundPos x <= x + (u * x + eta).
Proof.
  intro Hx. unfold roundPos. cbv zeta.
  destruct (ilog2_spec x Hx) as [Hk _].
  set (k := ilog2 x) in *.
  set (e := Z.max (k - 52) (-1074)).
  pose proof (pow2_pos e) as He.
  destruct (rne_spec (x / 2 ^ e)) as [Hlo Hhi].
  set (m := inject_Z (rne (x / 2 ^ e))) in *.
  assert (Ex : x / 2 ^ e * 2 ^ e == x) by (field; lra).
  assert (Hlo' : (m - (1 # 2)) * 2 ^ e <= x / 2 ^ e * 2 ^ e)
    by (apply Qmult_le_compat_r; [exact Hlo | lra]).
  assert (Hhi' : x / 2 ^ e * 2 ^ e <= (m + (1 # 2)) * 2 ^ e)
    by (apply Qmult_le_compat_r; [exact Hhi | lra]).
  rewrite Ex in Hlo', Hhi'.
  assert (Hhalf : (1 # 2) * 2 ^ e <= u * x + eta).
  { pose proof eta_pos as Heta.
    assert (Hux : 0 <= u * x) by (apply Qmult_le_0_compat; [discriminate | lra]).
    destruct (Z.max_spec (k - 52) (-1074)) as [[_ Hmax]|[_ Hmax]]; fold e in Hmax.
    - rewrite Hmax.
      assert (Ee : (1 # 2) * 2 ^ (-1074) == eta) by reflexivity.
      rewrite Ee. lra.
    - rewrite Hmax.
      assert (E : (1 # 2) * 2 ^ (k - 52) == u * 2 ^ k).
      { replace (k - 52)%Z with (k + -52)%Z by lia. rewrite pow2_plus.
        assert (E52 : 2 ^ (-52) == 2 * u) by reflexivity.
        rewrite E52. ring. }
      rewrite E.
      assert (u * 2 ^ k <= u * x) by (apply Qmult_le_l; [reflexivity | exact Hk]).
      lra. }
  set (P := 2 ^ e) in *. clearbody P m. clear - Hlo' Hhi' Hhalf. split; lra.
Qed.

Lemma round_ext (x y : Q) : x == y -> round x = round y.
Proof. intro H. unfold round. now rewrite (Qred_complete x y H). Qed.

(** [round] by cases on the sign of its argument. *)
Lemma round_cases (x : Q) :
  (x == 0 /\ round x = 0) \/
  (0 < x /\ exists y, y == x /\ round x = roundPos y) \/
  (x < 0 /\ exists y, y == - x /\ round x = - roundPos y).
Proof.
  unfold round. cbv zeta. pose proof (Qred_correct x) as Hy.
  destruct (Qred x) as [n d] eqn:E. destruct n as [|p|p]; cbn [Qnum].
  - left. split; [|reflexivity]. rewrite <- Hy. reflexivity.
  - right. left. split; [rewrite <- Hy; reflexivity|].
    exists (Z.pos p # d). split; [exact Hy | reflexivity].
  - right. right. split; [rewrite <- Hy; reflexivity|].
    exists (- (Z.neg p # d)). split; [now rewrite Hy | reflexivity].
Qed.

Lemma round_near (x M : Q) :
  - M <= x -> x <= M ->
  x - (u * M + eta) <= round x /\ round x <= x + (u * M + eta).
Proof.
  intros Hlo Hhi. pose proof eta_pos as Heta.
  assert (Hu : 0 < u) by reflexivity.
  destruct (round_cases x) as [[H0 ->] | [[Hp (y & Hy & ->)] | [Hn (y & Hy & ->)]]].
  - assert (0 <= u * M) by (apply Qmult_le_0_compat; lra). lra.
  - assert (Hy0 : 0 < y) by (rewrite Hy; exact Hp).
    destruct (roundPos_error y Hy0) as [H1 H2].
    assert (u * x <= u * M) by (apply Qmult_le_l; assumption).
    unfold u in *. lra.
  - assert (Hy0 : 0 < y) by (rewrite Hy; lra).
    destruct (roundPos_error y Hy0) as [H1 H2].
    assert (u * - x <= u * M) by (apply Qmult_le_l; [assumption | lra]).
    unfold u in *. lra.
Qed.

Lemma round_nonneg (x : Q) : 0 <= x -> 0 <= round x.
Proof.
  intro H. destruct (round_cases x) as [[H0 ->] | [[Hp (y & Hy & ->)] | [Hn _]]].
  - lra.
  - apply roundPos_nonneg. rewrite Hy. exact Hp.
  - lra.
Qed.

Lemma round_nonpos (x : Q) : x <= 0 -> round x <= 0.
Proof.
  intro H. destruct (round_cases x) as [[H0 ->] | [[Hp _] | [Hn (y & Hy & ->)]]].
  - lra.
  - lra.
  - assert (0 <= roundPos y) by (apply roundPos_nonneg; rewrite Hy; lra). lra.
Qed.

Lemma round_le_1 (x : Q) : x <= 1 -> round x <= 1.
Proof.
  intro H. destruct (round_cases x) as [[H0 ->] | [[Hp (y & Hy & ->)] | [Hn (y & Hy & ->)]]].
  - lra.
  - apply roundPos_le_1; rewrite Hy; assumption.
  - assert (0 <= roundPos y) by (apply roundPos_nonneg; rewrite Hy; lra). lra.
Qed.

(** [round] on the literals of the source, on two ties, and in the
    layout of a 700x1000 image in a 700x700 element, where the code
    computes the width 489.99999999999994 and the offset
    105.00000000000003. *)
Lemma round_examples :
  round (5 # 100) == 3602879701896397 # 72057594037927936 /\
  round (6 # 10) == 5404319552844595 # 9007199254740992 /\
  round (1 # 3) == 6004799503160661 # 18014398509481984 /\
  round 9007199254740993 == 9007199254740992 /\
  round 9007199254740995 == 9007199254740996 /\
  renderWidth (ImagePanel64.layout portraitImg)
  == 8620171161763839 # 17592186044416 /\
  left (ImagePanel64.layout portraitImg)
  == 3694359069327361 # 35184372088832.
Proof. repeat apply conj; vm_compute; reflexivity. Qed.
End Rounding.

(** ** The error of the operations of one axis *)

Section Errors.
Import Canvas ImagePanel Binary64.
Local Open Scope Q_scope.

Lemma eta_tiny : eta <= 1 # 1267650600228229401496703205376.
Proof. apply Qle_bool_iff. vm_compute. reflexivity. Qed.

(** One rounding of a value below [4 * maxSide]. *)
Lemma round_small (x : Q) :
  - 262144 <= x -> x <= 262144 ->
  x - oneRounding <= round x /\ round x <= x + oneRounding.
Proof.
  intros Hlo Hhi. destruct (round_near x 262144 Hlo Hhi) as [H1 H2].
  pose proof eta_tiny. pose proof eta_pos. unfold u, oneRounding in *. split; lra.
Qed.

(** The same, known from the rounded value. *)
Lemma round_back (x : Q) :
  - 262144 <= round x -> round x <= 262144 ->
  x - oneRounding <= round x /\ round x <= x + oneRounding.
Proof.
  intros Hlo Hhi. pose proof eta_tiny. pose proof eta_pos.
  destruct (Qlt_le_dec x 0) as [Hneg|Hpos].
  - destruct (round_near x (- x)) as [H1 H2]; [lra | lra|].
    pose proof (round_nonpos x (Qlt_le_weak _ _ Hneg)).
    unfold u, oneRounding in *. split; lra.
  - destruct (round_near x x) as [H1 H2]; [lra | lra|].
    pose proof (round_nonneg x Hpos).
    unfold u, oneRounding in *. split; lra.
Qed.

Section Axis.
(** One axis: the extent [R] and the offset [L] the code computed, the
    exact ones [Rx] and [Lx], and [d] the pointer from the corner of
    the bounding box. *)
Variables R L Rx Lx d : Q.
Hypothesis HR : Rx - 3 * oneRounding <= R /\ R <= Rx + 3 * oneRounding.
Hypothesis HL : Lx - 3 * oneRounding <= L /\ L <= Lx + 3 * oneRounding.
Hypothesis HR0 : 0 < R.
Hypothesis HLx : 0 <= Lx.
Hypothesis HRx : 0 <= Rx.
Hypothesis Hfit : Lx + Rx <= 65536.

Lemma axis_inside :
  Lx + tolerance <= d -> d <= Lx + Rx - tolerance ->
  0 <= round (round d - L) /\ round (round d - L) <= R.
Proof.
  intros Hlo Hhi. destruct HR as [HR1 HR2]. destruct HL as [HL1 HL2].
  unfold tolerance, oneRounding in *.
  destruct (round_small d) as [Hd1 Hd2]; [lra | lra|]. unfold oneRounding in *.
  split.
  - apply round_nonneg. lra.
  - destruct (round_small (round d - L)) as [Ha1 Ha2]; [lra | lra|].
    unfold oneRounding in *. lra.
Qed.

Lemma axis_roundtrip :
  0 <= round (round d - L) -> round (round d - L) <= R ->
  (0 <= round (round (round d - L) / R) /\ round (round (round d - L) / R) <= 1) /\
  (d - tolerance <= round (L + round (round (round (round d - L) / R) * R)) /\
   round (L + round (round (round (round d - L) / R) * R)) <= d + tolerance) /\
  (Lx - tolerance <= d /\ d <= Lx + Rx + tolerance).
Proof.
  intros Ho1 Ho2. destruct HR as [HR1 HR2]. destruct HL as [HL1 HL2].
  pose proof eta_tiny as Heta. pose proof eta_pos as Heta0.
  unfold tolerance, oneRounding in *.
  set (off := round (round d - L)) in *.
  destruct (round_back (round d - L)) as [Ha1 Ha2]; fold off; [lra | lra|].
  fold off in Ha1, Ha2. unfold oneRounding in *.
  destruct (round_back d) as [Hd1 Hd2]; [lra | lra|].
  unfold oneRounding in *.
  assert (Hs1 : 0 <= off / R) by (apply Qle_shift_div_l; lra).
  assert (Hs2 : off / R <= 1) by (apply Qle_shift_div_r; lra).
  assert (Es : off / R * R == off) by (field; lra).
  set (s := off / R) in *.
  pose proof (round_nonneg s Hs1) as Hx1. pose proof (round_le_1 s Hs2) as Hx2.
  destruct (round_near s 1) as [Hx3 Hx4]; [lra | lra|].
  set (x := round s) in *.
  assert (Hp1 : (s - (u * 1 + eta)) * R <= x * R)
    by (apply Qmult_le_compat_r; lra).
  assert (Hp2 : x * R <= (s + (u * 1 + eta)) * R)
    by (apply Qmult_le_compat_r; lra).
  assert (Hc : (u * 1 + eta) * R <= (u * 1 + eta) * 131072).
  { apply Qmult_le_l; [unfold u; lra | lra]. }
  assert (E1 : (s - (u * 1 + eta)) * R == off - (u * 1 + eta) * R) by (rewrite <- Es; ring).
  assert (E2 : (s + (u * 1 + eta)) * R == off + (u * 1 + eta) * R) by (rewrite <- Es; ring).
  rewrite E1 in Hp1. rewrite E2 in Hp2.
  set (c := (u * 1 + eta) * R) in *.
  assert (Hc' : c <= 1 # 8589934592).
  { assert ((u * 1 + eta) * 131072 <= 1 # 8589934592) by (unfold u; lra). lra. }
  set (pr := x * R) in *.
  destruct (round_small pr) as [Hm1 Hm2]; [lra | lra|].
  unfold oneRounding in *.
  set (m := round pr) in *.
  destruct (round_small (L + m)) as [Hb1 Hb2]; [lra | lra|].
  unfold oneRounding in *.
  repeat split; lra.
Qed.
End Axis.
End Errors.

(** ** The ratios and the branch of the layout *)

Section Geometry.
Import Canvas ImagePanel Binary64.
Local Open Scope Q_scope.

(** A side of at most [maxSide] pixels. *)
Lemma side_bounds (n : Z) :
  (1 <= n <= maxSide)%Z -> 1 <= inject_Z n /\ inject_Z n <= 65536.
Proof.
  intros [H1 H2]. unfold maxSide in H2. split.
  - change 1 with (inject_Z 1). now rewrite <- Zle_Qle.
  - change 65536 with (inject_Z 65536). now rewrite <- Zle_Qle.
Qed.

(** A ratio of two sides, and its rounding. *)
Lemma ratio_bounds (a b : Q) :
  1 <= a -> a <= 65536 -> 1 <= b -> b <= 65536 ->
  (1 # 65536) <= a / b /\ a / b <= 65536.
Proof.
  intros Ha1 Ha2 Hb1 Hb2. split.
  - apply Qle_shift_div_l; lra.
  - apply Qle_shift_div_r; lra.
Qed.

Lemma ratio_round (rho : Q) :
  (1 # 65536) <= rho -> rho <= 65536 ->
  rho - 2 * u * rho <= round rho /\ round rho <= rho + 2 * u * rho.
Proof.
  intros H1 H2. destruct (round_near rho rho) as [Hlo Hhi]; [lra | lra|].
  pose proof eta_tiny. unfold u in *. split; lra.
Qed.

(** Two different ratios of sides are at least [2 ^ -32] apart. *)
Lemma ratio_gap (a b c d : Z) :
  (1 <= a <= maxSide)%Z -> (1 <= b <= maxSide)%Z ->
  (1 <= c <= maxSide)%Z -> (1 <= d <= maxSide)%Z ->
  inject_Z a / inject_Z b < inject_Z c / inject_Z d ->
  inject_Z a / inject_Z b + (1 # 4294967296) <= inject_Z c / inject_Z d.
Proof.
  intros Ha Hb Hc Hd Hlt.
  destruct (side_bounds a Ha) as [Qa1 Qa2]. destruct (side_bounds b Hb) as [Qb1 Qb2].
  destruct (side_bounds c Hc) as [Qc1 Qc2]. destruct (side_bounds d Hd) as [Qd1 Qd2].
  assert (Hz : (a * d + 1 <= c * b)%Z).
  { assert (Hq : inject_Z (a * d) < inject_Z (c * b)).
    { rewrite !inject_Z_mult.
      assert (E1 : inject_Z a * inject_Z d
                   == inject_Z a / inject_Z b * (inject_Z b * inject_Z d)) by (field; lra).
      assert (E2 : inject_Z c * inject_Z b
                   == inject_Z c / inject_Z d * (inject_Z b * inject_Z d)) by (field; lra).
      rewrite E1, E2. apply Qmult_lt_r; [|exact Hlt].
      apply Qmult_lt_0_compat; lra. }
    rewrite <- Zlt_Qlt in Hq. lia. }
  rewrite Zle_Qle in Hz. rewrite inject_Z_plus, !inject_Z_mult in Hz.
  change (inject_Z 1) with 1 in Hz.
  set (A := inject_Z a) in *. set (B := inject_Z b) in *.
  set (C := inject_Z c) in *. set (D := inject_Z d) in *.
  set (g := C / D - A / B).
  assert (Hg0 : 0 < g) by (unfold g; lra).
  assert (Eg : g * (B * D) == C * B - A * D) by (unfold g; field; lra).
  assert (HP : B * D <= 4294967296).
  { assert (B * D <= 65536 * 65536)
      by (apply Qmult_le_compat_nonneg; split; lra).
    lra. }
  assert (Hm : g * (B * D) <= g * 4294967296)
    by (apply Qmult_le_l; assumption).
  assert (Hg : (1 # 4294967296) <= g) by lra.
  unfold g in Hg. lra.
Qed.

(** The code takes the branch the exact ratios decide. *)
Lemma branch_agrees (nw nh w h : Z) :
  (1 <= nw <= maxSide)%Z -> (1 <= nh <= maxSide)%Z ->
  (1 <= w <= maxSide)%Z -> (1 <= h <= maxSide)%Z ->
  Qlt_bool (div (inject_Z nw) (inject_Z nh)) (div (inject_Z w) (inject_Z h))
  = Qlt_bool (inject_Z nw / inject_Z nh) (inject_Z w / inject_Z h).
Proof.
  intros Hnw Hnh Hw Hh. unfold div.
  destruct (side_bounds nw Hnw) as [Qa1 Qa2]. destruct (side_bounds nh Hnh) as [Qb1 Qb2].
  destruct (side_bounds w Hw) as [Qc1 Qc2]. destruct (side_bounds h Hh) as [Qd1 Qd2].
  destruct (ratio_bounds _ _ Qa1 Qa2 Qb1 Qb2) as [Hr1 Hr2].
  destruct (ratio_bounds _ _ Qc1 Qc2 Qd1 Qd2) as [Hk1 Hk2].
  destruct (ratio_round _ Hr1 Hr2) as [Hr3 Hr4].
  destruct (ratio_round _ Hk1 Hk2) as [Hk3 Hk4].
  destruct (Q_dec (inject_Z nw / inject_Z nh) (inject_Z w / inject_Z h))
    as [[Hlt|Hgt]|Heq].
  - pose proof (ratio_gap nw nh w h Hnw Hnh Hw Hh Hlt) as Hgap.
    rewrite (proj2 (Qlt_bool_iff _ _) Hlt). apply Qlt_bool_iff.
    unfold u in *. lra.
  - pose proof (ratio_gap w h nw nh Hw Hh Hnw Hnh Hgt) as Hgap.
    rewrite (proj2 (Qlt_bool_false _ _) (Qlt_le_weak _ _ Hgt)). apply Qlt_bool_false.
    unfold u in *. lra.
  - rewrite (round_ext _ _ Heq).
    transitivity false; [|symmetry]; apply Qlt_bool_false; lra.
Qed.
End Geometry.

(** ** The extents the layout computes *)

Section Extents.
Import Canvas ImagePanel Binary64.
Local Open Scope Q_scope.

Variables NW NH W H : Q.
Hypothesis HNW : 1 <= NW /\ NW <= 65536.
Hypothesis HNH : 1 <= NH /\ NH <= 65536.
Hypothesis HW : 1 <= W /\ W <= 65536.
Hypothesis HH : 1 <= H /\ H <= 65536.

(** Half the space an extent leaves, as the code computes it. *)
Lemma centred_offset (S e E : Q) :
  1 <= S -> S <= 65536 -> 0 <= E -> E <= S ->
  E - 2 * oneRounding <= e -> e <= E + 2 * oneRounding ->
  (S - E) / 2 - 3 * oneRounding <= div (sub S e) 2 /\
  div (sub S e) 2 <= (S - E) / 2 + 3 * oneRounding.
Proof.
  intros HS1 HS2 HE1 HE2 He1 He2. unfold div, sub.
  assert (Eh : (S - E) / 2 == (1 # 2) * (S - E)) by (field; lra).
  rewrite Eh. clear Eh.
  unfold oneRounding in *.
  destruct (round_small (S - e)) as [Ha1 Ha2]; [lra | lra|].
  unfold oneRounding in *.
  set (a := round (S - e)) in *.
  assert (Eh : a / 2 == (1 # 2) * a) by (field; lra).
  destruct (round_small (a / 2)) as [Hb1 Hb2]; [lra | lra|].
  unfold oneRounding in *. lra.
Qed.

(** Bars left and right: the width the code computes. *)
Lemma fitted_width :
  NW / NH < W / H ->
  (H * (NW / NH) - 2 * oneRounding <= mul H (div NW NH) /\
   mul H (div NW NH) <= H * (NW / NH) + 2 * oneRounding) /\
  0 < mul H (div NW NH) /\ 0 < H * (NW / NH) /\ H * (NW / NH) <= W.
Proof.
  intro Hlt. destruct HNW, HNH, HW, HH.
  destruct (ratio_bounds NW NH) as [Hr1 Hr2]; try assumption.
  destruct (ratio_round _ Hr1 Hr2) as [Hr3 Hr4].
  unfold mul, div.
  set (rho := NW / NH) in *. set (r := round rho) in *.
  assert (Ht : H * rho < W).
  { assert (Hx : H * rho < H * (W / H)) by (apply Qmult_lt_l; lra).
    assert (Hy : H * (W / H) == W) by (field; lra).
    lra. }
  assert (Ht0 : (1 # 65536) <= H * rho).
  { assert (Hx : 1 * rho <= H * rho) by (apply Qmult_le_compat_r; lra). lra. }
  assert (Hs1 : H * (rho - 2 * u * rho) <= H * r) by (apply Qmult_le_l; lra).
  assert (Hs2 : H * r <= H * (rho + 2 * u * rho)) by (apply Qmult_le_l; lra).
  assert (E1 : H * (rho - 2 * u * rho) == H * rho - 2 * u * (H * rho)) by ring.
  assert (E2 : H * (rho + 2 * u * rho) == H * rho + 2 * u * (H * rho)) by ring.
  set (t := H * rho) in *. set (hr := H * r) in *.
  unfold u, oneRounding in *.
  destruct (round_small hr) as [Ha1 Ha2]; [lra | lra|].
  unfold oneRounding in *. repeat split; lra.
Qed.

(** Bars above and below: the height the code computes. *)
Lemma fitted_height :
  W / H <= NW / NH ->
  (W / (NW / NH) - 2 * oneRounding <= div W (div NW NH) /\
   div W (div NW NH) <= W / (NW / NH) + 2 * oneRounding) /\
  0 < div W (div NW NH) /\ 0 < W / (NW / NH) /\ W / (NW / NH) <= H.
Proof.
  intro Hle. destruct HNW, HNH, HW, HH.
  destruct (ratio_bounds NW NH) as [Hr1 Hr2]; try assumption.
  destruct (ratio_round _ Hr1 Hr2) as [Hr3 Hr4].
  unfold div.
  set (rho := NW / NH) in *. set (r := round rho) in *.
  assert (Hrho : 0 < rho) by lra.
  assert (Hr0 : 0 < r) by (unfold u in *; lra).
  assert (Ht : W / rho <= H).
  { apply Qle_shift_div_r; [assumption|].
    assert (Hx : H * (W / H) <= H * rho) by (apply Qmult_le_l; lra).
    assert (Hy : H * (W / H) == W) by (field; lra).
    lra. }
  assert (Ht0 : (1 # 65536) <= W / rho).
  { apply Qle_shift_div_l; [assumption|]. lra. }
  set (t := W / rho) in *.
  assert (Et : t * rho == W) by (unfold t; field; lra).
  (* W / r <= t * (1 + 4u) *)
  assert (Hq2 : W / r <= t + 4 * u * t).
  { apply Qle_shift_div_r; [assumption|].
    assert (Hx : (t + 4 * u * t) * (rho - 2 * u * rho) <= (t + 4 * u * t) * r)
      by (apply Qmult_le_l; unfold u in *; lra).
    assert (Ex : (t + 4 * u * t) * (rho - 2 * u * rho)
                 == (t * rho) * ((1 + 4 * u) * (1 - 2 * u))) by ring.
    rewrite Ex, Et in Hx. unfold u in *. lra. }
  assert (Hq1 : t - 4 * u * t <= W / r).
  { apply Qle_shift_div_l; [assumption|].
    assert (Hx : (t - 4 * u * t) * r <= (t - 4 * u * t) * (rho + 2 * u * rho))
      by (apply Qmult_le_l; unfold u in *; lra).
    assert (Ex : (t - 4 * u * t) * (rho + 2 * u * rho)
                 == (t * rho) * ((1 - 4 * u) * (1 + 2 * u))) by ring.
    rewrite Ex, Et in Hx. unfold u in *. lra. }
  set (q := W / r) in *.
  unfold u, oneRounding in *.
  destruct (round_small q) as [Ha1 Ha2]; [lra | lra|].
  unfold oneRounding in *. repeat split; lra.
Qed.
End Extents.

(** ** Coordinate normalizer, in doubles *)

Section RoundedNormalizer.
Import Canvas ImagePanel Binary64.
Local Open Scope Q_scope.

(** The eight conditions leave one rectangle. *)
Lemma letterboxed_unique img rect :
  sized img -> letterboxed img rect ->
  (inject_Z (naturalWidth img) / inject_Z (naturalHeight img)
   < inject_Z (width img) / inject_Z (height img) ->
   renderWidth rect
   == inject_Z (height img) * (inject_Z (naturalWidth img) / inject_Z (naturalHeight img)) /\
   renderHeight rect == inject_Z (height img)) /\
  (inject_Z (width img) / inject_Z (height img)
   <= inject_Z (naturalWidth img) / inject_Z (naturalHeight img) ->
   renderWidth rect == inject_Z (width img) /\
   renderHeight rect
   == inject_Z (width img) / (inject_Z (naturalWidth img) / inject_Z (naturalHeight img))).
Proof.
  intros (Hnw & Hnh & Hw & Hh) (Hrw & Hrh & Hasp & Hfw & Hfh & Hfill & _).
  destruct (side_bounds _ Hnw) as [Qa1 Qa2]. destruct (side_bounds _ Hnh) as [Qb1 Qb2].
  destruct (side_bounds _ Hw) as [Qc1 Qc2]. destruct (side_bounds _ Hh) as [Qd1 Qd2].
  set (NW := inject_Z (naturalWidth img)) in *.
  set (NH := inject_Z (naturalHeight img)) in *.
  set (W := inject_Z (width img)) in *.
  set (H := inject_Z (height img)) in *.
  set (rw := renderWidth rect) in *. set (rh := renderHeight rect) in *.
  assert (E1 : NW / NH * (NH * H) == NW * H) by (field; lra).
  assert (E2 : W / H * (NH * H) == W * NH) by (field; lra).
  assert (HP : 0 < NH * H) by (apply Qmult_lt_0_compat; lra).
  split; intro Hc.
  - assert (Hx : NW * H < W * NH).
    { rewrite <- E1, <- E2. apply Qmult_lt_r; assumption. }
    assert (Hfull : rh == H).
    { destruct Hfill as [Hf|Hf]; [|exact Hf]. exfalso.
      rewrite Hf in Hasp.
      assert (Hy : rh * NW <= H * NW) by (apply Qmult_le_compat_r; lra).
      lra. }
    split; [|exact Hfull].
    rewrite Hfull in Hasp.
    apply (Qmult_inj_r _ _ NH); [lra|].
    rewrite Hasp. field. lra.
  - assert (Hx : W * NH <= NW * H).
    { rewrite <- E1, <- E2. apply Qmult_le_compat_r; lra. }
    assert (Hfull : rw == W).
    { destruct Hfill as [Hf|Hf]; [exact Hf|].
      rewrite Hf in Hasp.
      destruct (Qlt_le_dec rw W) as [Hlt|Hge]; [exfalso|lra].
      assert (Hy : rw * NH < W * NH) by (apply Qmult_lt_r; lra).
      lra. }
    split; [exact Hfull|].
    rewrite Hfull in Hasp.
    apply (Qmult_inj_r _ _ NW); [lra|].
    rewrite <- Hasp. field. split; lra.
Qed.

(** The rectangle [layout] computes in doubles is the letterboxed one
    within three roundings, and has positive sides. *)
Lemma layout_rounded img rect :
  sized img -> letterboxed img rect ->
  let l := ImagePanel64.layout img in
  ((renderWidth rect - 3 * oneRounding <= renderWidth l /\
    renderWidth l <= renderWidth rect + 3 * oneRounding) /\
   (left rect - 3 * oneRounding <= left l /\
    left l <= left rect + 3 * oneRounding) /\
   0 < renderWidth l) /\
  ((renderHeight rect - 3 * oneRounding <= renderHeight l /\
    renderHeight l <= renderHeight rect + 3 * oneRounding) /\
   (top rect - 3 * oneRounding <= top l /\
    top l <= top rect + 3 * oneRounding) /\
   0 < renderHeight l).
Proof.
  intros Hs Hb. destruct (letterboxed_unique img rect Hs Hb) as [Hca Hcb].
  destruct Hs as (Hnw & Hnh & Hw & Hh).
  destruct Hb as (Hrw & Hrh & Hasp & Hfw & Hfh & Hfill & Hl & Ht).
  unfold ImagePanel64.layout. cbv zeta.
  rewrite (branch_agrees _ _ _ _ Hnw Hnh Hw Hh).
  pose proof (side_bounds _ Hnw) as Qa. pose proof (side_bounds _ Hnh) as Qb.
  pose proof (side_bounds _ Hw) as Qc. pose proof (side_bounds _ Hh) as Qd.
  set (NW := inject_Z (naturalWidth img)) in *.
  set (NH := inject_Z (naturalHeight img)) in *.
  set (W := inject_Z (width img)) in *.
  set (H := inject_Z (height img)) in *.
  destruct (Qlt_bool (NW / NH) (W / H)) eqn:E; cbn [renderWidth renderHeight left top].
  - apply Qlt_bool_iff in E. destruct (Hca E) as [Hw1 Hh1].
    destruct (fitted_width NW NH W H Qa Qb Qc Qd E) as ([Hf1 Hf2] & Hf3 & Hf4 & Hf5).
    destruct (centred_offset W (mul H (div NW NH)) (H * (NW / NH)))
      as [Ho1 Ho2]; try lra.
    rewrite Hl, Ht, Hw1, Hh1.
    assert (Ez : (H - H) / 2 == 0) by field.
    rewrite Ez. unfold oneRounding in *. repeat split; lra.
  - apply Qlt_bool_false in E. destruct (Hcb E) as [Hw1 Hh1].
    destruct (fitted_height NW NH W H Qa Qb Qc Qd E) as ([Hf1 Hf2] & Hf3 & Hf4 & Hf5).
    destruct (centred_offset H (div W (div NW NH)) (W / (NW / NH)))
      as [Ho1 Ho2]; try lra.
    rewrite Hl, Ht, Hw1, Hh1.
    assert (Ez : (W - W) / 2 == 0) by field.
    rewrite Ez. unfold oneRounding in *. repeat split; lra.
Qed.

(** The rectangle [layout] computes in exact arithmetic is the
    letterboxed one. *)
Lemma layout_is_letterboxed img :
  displayed img -> letterboxed img (ImagePanel.layout img).
Proof.
  intro Hd.
  destruct (layout_letterbox img Hd) as (H1 & H2 & H3 & H4 & H5 & H6 & H7 & H8).
  exact (conj H1 (conj H2 (conj H3 (conj H4 (conj H5 (conj H8 (conj H6 H7))))))).
Qed.

(** The letterboxed rectangle lies within the element. *)
Lemma letterboxed_within img rect :
  sized img -> letterboxed img rect ->
  (0 <= left rect /\ left rect + renderWidth rect <= 65536) /\
  (0 <= top rect /\ top rect + renderHeight rect <= 65536).
Proof.
  intros (_ & _ & Hw & Hh) (Hrw & Hrh & _ & Hfw & Hfh & _ & Hl & Ht).
  destruct (side_bounds _ Hw) as [Qc1 Qc2]. destruct (side_bounds _ Hh) as [Qd1 Qd2].
  assert (El : left rect == (1 # 2) * (inject_Z (width img) - renderWidth rect))
    by (rewrite Hl; field).
  assert (Et : top rect == (1 # 2) * (inject_Z (height img) - renderHeight rect))
    by (rewrite Ht; field).
  repeat split; lra.
Qed.

(** What [getNormalizedPoint] answers, in doubles. *)
Lemma point_rounded img rect clientX clientY :
  sized img -> letterboxed img rect ->
  let l := ImagePanel64.layout img in
  let dx := clientX - rectLeft img in
  let dy := clientY - rectTop img in
  (onRect rect (- tolerance) dx dy ->
   exists p, ImagePanel64.getNormalizedPoint (Some img) clientX clientY = Some p) /\
  (forall p,
     ImagePanel64.getNormalizedPoint (Some img) clientX clientY = Some p ->
     onRect rect tolerance dx dy /\
     (0 <= x p /\ x p <= 1) /\ (0 <= y p /\ y p <= 1) /\
     near (fst (ImagePanel64.toCanvas l p)) dx /\
     near (snd (ImagePanel64.toCanvas l p)) dy).
Proof.
  intros Hs Hb l dx dy.
  destruct (layout_rounded img rect Hs Hb) as ((HRx & HLx & HR0x) & (HRy & HLy & HR0y)).
  destruct (letterboxed_within img rect Hs Hb) as ((Hwx1 & Hwx2) & (Hwy1 & Hwy2)).
  fold l in HRx, HLx, HR0x, HRy, HLy, HR0y.
  unfold ImagePanel64.getNormalizedPoint, ImagePanel64.toCanvas, onRect, near.
  cbv zeta. fold l. unfold sub, div, add, mul. fold dx dy.
  split.
  - intros [[Hx1 Hx2] [Hy1 Hy2]].
    destruct (axis_inside _ _ _ _ dx HRx HLx Hwx1 Hwx2) as [Ox1 Ox2]; try lra.
    destruct (axis_inside _ _ _ _ dy HRy HLy Hwy1 Hwy2) as [Oy1 Oy2]; try lra.
    apply Qlt_bool_false in Ox1, Ox2, Oy1, Oy2.
    rewrite Ox1, Ox2, Oy1, Oy2. cbn [orb]. eexists. reflexivity.
  - intros p.
    destruct (Qlt_bool (round (round dx - left l)) 0) eqn:Ex1; [discriminate|].
    destruct (Qlt_bool (renderWidth l) (round (round dx - left l))) eqn:Ex2;
      [discriminate|].
    destruct (Qlt_bool (round (round dy - top l)) 0) eqn:Ey1; [discriminate|].
    destruct (Qlt_bool (renderHeight l) (round (round dy - top l))) eqn:Ey2;
      [discriminate|].
    cbn [orb]. intros [= <-]. cbn [x y fst snd].
    apply Qlt_bool_false in Ex1, Ex2, Ey1, Ey2.
    destruct (axis_roundtrip _ _ _ _ dx HRx HLx HR0x Hwx1 Hwx2 Ex1 Ex2)
      as (Ux & Nx & Bx).
    destruct (axis_roundtrip _ _ _ _ dy HRy HLy HR0y Hwy1 Hwy2 Ey1 Ey2)
      as (Uy & Ny & By).
    repeat split; try tauto; lra.
Qed.

(** The segment [draw] paints live joins the canvas positions of the
    last two points of the stroke. *)
Lemma draw_rounded_segment img s ctx clientX0 clientY0 clientX clientY p0 p :
  imgRef s = Some img -> overlay s = Some ctx ->
  ImagePanel64.getNormalizedPoint (Some img) clientX0 clientY0 = Some p0 ->
  ImagePanel64.getNormalizedPoint (Some img) clientX clientY = Some p ->
  exists s' ctx',
    ImagePanel64.draw clientX clientY (ImagePanel64.startDrawing clientX0 clientY0 s)
    = Some s' /\
    currentPath s' = [p0; p] /\ overlay s' = Some ctx' /\
    painted ctx'
    = (painted ctx ++
       [StrokePath "#84cc16" CapRound JoinRound
                   (mul (renderWidth (ImagePanel64.layout img)) (round (5 # 100)))
                   (round (6 # 10))
                   [[ImagePanel64.toCanvas (ImagePanel64.layout img) p0;
                     ImagePanel64.toCanvas (ImagePanel64.layout img) p]]])%list.
Proof.
  intros Hi Ho H0 H1. unfold ImagePanel64.startDrawing, ImagePanel64.draw.
  rewrite Hi, H0. simpl.
  rewrite Hi, H1, Ho. simpl.
  eexists _, _. repeat split.
Qed.

(** C2 (amended). Coordinate normalization round-trips within a
    tolerance, in the double arithmetic of the code.  For an image and
    an element of 1 to 65536 pixels a side, let [rect] be the rendered
    sub-rectangle: of the aspect ratio of the image, within the
    element, filling one axis and centred on the other.  A pointer
    position on [rect] and at least [2 ^ -30] pixel from its border
    yields a point.  Every point yielded lies in the unit square, comes
    from a position on [rect] or within [2 ^ -30] pixel of it, and
    denormalizing it with the same layout gives, from the corner of the
    bounding box, the pointer position again within [2 ^ -30] pixel, on
    the horizontal and on the vertical axis, whichever is letterboxed;
    a position further than that from [rect] yields no point.  The
    segment [draw] paints for two such positions joins points within
    that tolerance of them. *)
Theorem C2_normalize_roundtrip (img : Img) (rect : Layout) (clientX clientY : Q) :
  sized img -> letterboxed img rect ->
  let l := ImagePanel64.layout img in
  let dx := clientX - rectLeft img in
  let dy := clientY - rectTop img in
  (onRect rect (- tolerance) dx dy ->
   exists p, ImagePanel64.getNormalizedPoint (Some img) clientX clientY = Some p) /\
  (forall p,
     ImagePanel64.getNormalizedPoint (Some img) clientX clientY = Some p ->
     onRect rect tolerance dx dy /\
     (0 <= x p /\ x p <= 1) /\ (0 <= y p /\ y p <= 1) /\
     near (fst (ImagePanel64.toCanvas l p)) dx /\
     near (snd (ImagePanel64.toCanvas l p)) dy) /\
  (~ onRect rect tolerance dx dy ->
   ImagePanel64.getNormalizedPoint (Some img) clientX clientY = None) /\
  (forall s ctx clientX0 clientY0 p0 p,
     imgRef s = Some img -> overlay s = Some ctx ->
     ImagePanel64.getNormalizedPoint (Some img) clientX0 clientY0 = Some p0 ->
     ImagePanel64.getNormalizedPoint (Some img) clientX clientY = Some p ->
     exists s' ctx' q0 q,
       ImagePanel64.draw clientX clientY
         (ImagePanel64.startDrawing clientX0 clientY0 s) = Some s' /\
       overlay s' = Some ctx' /\
       painted ctx'
       = (painted ctx ++
          [StrokePath "#84cc16" CapRound JoinRound
                      (mul (renderWidth l) (round (5 # 100))) (round (6 # 10))
                      [[q0; q]]])%list /\
       near (fst q0) (clientX0 - rectLeft img) /\
       near (snd q0) (clientY0 - rectTop img) /\
       near (fst q) dx /\ near (snd q) dy).
Proof.
  intros Hs Hb l dx dy.
  destruct (point_rounded img rect clientX clientY Hs Hb) as [HA HB].
  split; [exact HA|]. split; [exact HB|]. split.
  - intro Hout.
    destruct (ImagePanel64.getNormalizedPoint (Some img) clientX clientY)
      as [p|] eqn:Hp; [|reflexivity].
    exfalso. apply Hout. exact (proj1 (HB p eq_refl)).
  - intros s ctx clientX0 clientY0 p0 p Hi Ho H0 H1.
    destruct (draw_rounded_segment img s ctx clientX0 clientY0 clientX clientY p0 p
                Hi Ho H0 H1) as (s' & ctx' & Hd & _ & Ho' & Hp).
    destruct (proj2 (point_rounded img rect clientX0 clientY0 Hs Hb) p0 H0)
      as (_ & _ & _ & Nx0 & Ny0).
    destruct (HB p H1) as (_ & _ & _ & Nx & Ny).
    exists s', ctx', (ImagePanel64.toCanvas l p0), (ImagePanel64.toCanvas l p).
    split; [exact Hd|]. split; [exact Ho'|]. split; [exact Hp|].
    split; [exact Nx0|]. split; [exact Ny0|]. split; [exact Nx|exact Ny].
Qed.

Lemma C2_normalize_roundtrip_witness :
  sized wideImg /\ letterboxed wideImg wideRect /\
  onRect wideRect (- tolerance) (40 - rectLeft wideImg) (60 - rectTop wideImg) /\
  exists p,
    ImagePanel64.getNormalizedPoint (Some wideImg) 40 60 = Some p /\
    near (fst (ImagePanel64.toCanvas (ImagePanel64.layout wideImg) p))
         (40 - rectLeft wideImg) /\
    near (snd (ImagePanel64.toCanvas (ImagePanel64.layout wideImg) p))
         (60 - rectTop wideImg).
Proof.
  assert (Hs : sized wideImg) by (unfold sized, maxSide; cbn; lia).
  assert (Hb : letterboxed wideImg wideRect).
  { repeat split; try (left; vm_compute; reflexivity);
      vm_compute; try reflexivity; discriminate. }
  assert (Hin : onRect wideRect (- tolerance)
                       (40 - rectLeft wideImg) (60 - rectTop wideImg))
    by (repeat split; vm_compute; discriminate).
  destruct (C2_normalize_roundtrip wideImg wideRect 40 60 Hs Hb)
    as (HA & HB & _ & _).
  destruct (HA Hin) as [p Hp].
  destruct (HB p Hp) as (_ & _ & _ & Nx & Ny).
  split; [exact Hs|]. split; [exact Hb|]. split; [exact Hin|].
  exists p. repeat split; first [exact Hp | apply Nx | apply Ny].
Defined.

(** C2, as it was claimed, fails in doubles at the border of the
    rendered sub-rectangle.  For a 700x1000 image in a 700x700 element
    the rectangle starts at 105, and the position (105, 1), on its left
    border, yields no point: the code computes the width as
    489.99999999999994 and the offset as 105.00000000000003.  For a 3x7
    image in a 100x700 element the rectangle starts at 700/3, and the
    position one double above it yields a point. *)
Lemma C2_counterexample :
  (sized portraitImg /\ letterboxed portraitImg portraitRect /\
   onRect portraitRect 0 (105 - rectLeft portraitImg) (1 - rectTop portraitImg) /\
   ImagePanel64.getNormalizedPoint (Some portraitImg) 105 1 = None) /\
  (sized stripImg /\ letterboxed stripImg stripRect /\
   ~ onRect stripRect 0 (50 - rectLeft stripImg) (aboveStrip - rectTop stripImg) /\
   exists p, ImagePanel64.getNormalizedPoint (Some stripImg) 50 aboveStrip = Some p).
Proof.
  split.
  - split; [unfold sized, maxSide; cbn; lia|].
    split; [repeat split; try (right; vm_compute; reflexivity);
             vm_compute; try reflexivity; discriminate|].
    split; [repeat split; vm_compute; discriminate|].
    vm_compute. reflexivity.
  - split; [unfold sized, maxSide; cbn; lia|].
    split; [repeat split; try (left; vm_compute; reflexivity);
             vm_compute; try reflexivity; discriminate|].
    split; [intros [_ [H _]]; vm_compute in H; apply H; reflexivity|].
    vm_compute. eexists. reflexivity.
Qed.
End RoundedNormalizer.

(** ** Exported mask *)

Section ExportedMask.
Import Canvas ImagePanel.
Local Open Scope Q_scope.

Lemma filter_strokable_idem ps :
  List.filter strokable (List.filter strokable ps) = List.filter strokable ps.
Proof.
  induction ps as [|p ps IH]; simpl; [reflexivity|].
  destruct (strokable p) eqn:E; simpl; [rewrite E|]; now rewrite ?IH.
Qed.

Lemma colourAt_painted c c' pt :
  painted c = painted c' -> colourAt c pt = colourAt c' pt.
Proof. unfold colourAt. now intros ->. Qed.

(** C1. For a non-empty path set (with the image element mounted and
    an offscreen 2D context obtained), the mask handed to
    [onMaskChange] is the PNG payload of a raster of the image's
    natural width and height, painted with a solid black fill and then,
    in insertion order, one white stroke with round caps and joins and
    line width 5% of the raster width for every path of at least two
    points; paths of fewer than two points are skipped, so the raster
    shows the same colour everywhere as the raster of the other paths
    alone; for the empty path set the call is [onMaskChange(null)]. *)
Theorem C1_exported_mask_raster (toDataURL : Ctx -> string) (img : Img)
  (currentPaths : list Path) :
  currentPaths <> [] ->
  let raster := rasterize img currentPaths in
  exportMask toDataURL true (Some img) currentPaths
    = Some (base64Of toDataURL raster) /\
  cwidth raster = naturalWidth img /\ cheight raster = naturalHeight img /\
  painted raster
    = blackFill img :: map (maskStroke img) (List.filter strokable currentPaths) /\
  (forall pt, colourAt raster pt
              = colourAt (rasterize img (List.filter strokable currentPaths)) pt) /\
  (forall ok imgRef, exportMask toDataURL ok imgRef [] = Some None).
Proof.
  intros Hne raster.
  destruct (rasterize_spec img currentPaths) as (Hw & Hh & Hp).
  split.
  { unfold exportMask. destruct currentPaths; [congruence | reflexivity]. }
  repeat split; try assumption.
  - intro pt. apply colourAt_painted.
    destruct (rasterize_spec img (List.filter strokable currentPaths)) as (_ & _ & Hp').
    unfold raster. now rewrite Hp, Hp', filter_strokable_idem.
  - intros ok [i|]; reflexivity.
Qed.

Lemma C1_exported_mask_raster_witness :
  [dot; diagonal] <> [] /\
  exportMask pngStub true (Some wideImg) [dot; diagonal] = Some (Some "iVBORw0KGgo="%string) /\
  painted (rasterize wideImg [dot; diagonal])
  = [FillRect "black" 0 0 (400 # 1) (200 # 1);
     StrokePath "white" CapRound JoinRound ((400 # 1) * (5 # 100)) 1
       [[((1 # 4) * (400 # 1), (1 # 4) * (200 # 1));
         ((3 # 4) * (400 # 1), (3 # 4) * (200 # 1))]]].
Proof.
  assert (Hne : [dot; diagonal] <> []) by discriminate.
  destruct (C1_exported_mask_raster pngStub wideImg [dot; diagonal] Hne)
    as (He & _ & _ & Hp & _).
  split; [exact Hne|]. split.
  - rewrite He. reflexivity.
  - rewrite Hp. reflexivity.
Defined.
End ExportedMask.

(** ** A click without a drag *)

Section SingleClick.
Import Canvas ImagePanel.
Local Open Scope Q_scope.

Lemma split_no_sep (sep : ascii) (s : string) :
  Str.includes (String sep EmptyString) s = false -> Str.split sep s = [s].
Proof.
  induction s as [|c r IH]; simpl; [reflexivity|].
  destruct (ascii_dec sep c) as [->|Hne]; simpl.
  - destruct r; discriminate.
  - intro H. rewrite (IH H).
    destruct (Ascii.eqb_spec c sep) as [->|_]; [congruence | reflexivity].
Qed.

Lemma base64Of_png toDataURL c payload :
  toDataURL c = ("data:image/png;base64," ++ payload)%string ->
  Str.includes "," payload = false ->
  base64Of toDataURL c = Some payload.
Proof.
  intros Hu Hc. unfold base64Of. rewrite Hu. simpl.
  now rewrite (split_no_sep _ _ Hc).
Qed.

Lemma filter_strokable_none ps :
  Forall (fun q => strokable q = false) ps -> List.filter strokable ps = [].
Proof.
  induction 1 as [|q ps Hq _ IH]; simpl; [reflexivity|]. now rewrite Hq.
Qed.

(** C10. A pointer-down on the image followed at once by a pointer-up
    records a path of exactly one point and appends it to the path
    set; the set is then not empty, so [onMaskChange] receives a mask
    (the non-empty PNG payload of the raster) and not [null]; when no
    recorded path has two points the raster carries the black fill
    alone and shows black at every point of its bitmap; and the
    service layer, given that mask, sends it as the second image and
    appends the mask note to the prompt. *)
Theorem C10_single_click_exports_black_mask (toDataURL : Ctx -> string)
  (img : Img) (s : Panel) (clientX clientY : Q) (p : Point) (payload : string) :
  imgRef s = Some img ->
  getNormalizedPoint (Some img) clientX clientY = Some p ->
  Forall (fun q => strokable q = false) (paths s) ->
  let newPaths := (paths s ++ [mkPath [p] (5 # 100)])%list in
  let raster := rasterize img newPaths in
  toDataURL raster = ("data:image/png;base64," ++ payload)%string ->
  Str.nonEmpty payload = true ->
  Str.includes "," payload = false ->
  let s1 := startDrawing clientX clientY s in
  (isDrawing s1 = true /\ currentPath s1 = [p]) /\
  (paths (fst (stopDrawing toDataURL true s1)) = newPaths /\
   snd (stopDrawing toDataURL true s1) = Some (Some payload)) /\
  (cwidth raster = naturalWidth img /\ cheight raster = naturalHeight img /\
   painted raster = [blackFill img] /\
   forall pt, onBitmap raster pt = true -> colourAt raster pt = Some "black"%string) /\
  (forall a : GeminiService.EditArgs,
     GeminiService.maskImage a = Str.orUndefined (Some payload) ->
     GeminiService.imageParts a !! 1%nat
       = Some (GeminiService.InlinePart (GeminiService.mkInline payload "image/png")) /\
     GeminiService.finalPrompt a
       = GeminiService.withStructure a
           (GeminiService.withAesthetics a ++ GeminiService.maskNote)%string).
Proof.
  intros Hi Hp Hshort newPaths raster Hurl Hne Hcomma s1.
  assert (Hs1 : s1 = setDrawing true [p] s).
  { unfold s1, startDrawing. now rewrite Hi, Hp. }
  destruct (rasterize_spec img newPaths) as (Hw & Hh & Hpaint).
  assert (Hfill : painted raster = [blackFill img]).
  { unfold raster. rewrite Hpaint. unfold newPaths.
    rewrite List.filter_app, (filter_strokable_none _ Hshort). reflexivity. }
  split; [rewrite Hs1; split; reflexivity|].
  split.
  { rewrite Hs1. unfold stopDrawing. simpl. rewrite Hi. fold newPaths.
    split; [reflexivity|].
    unfold exportMask.
    replace (length newPaths =? 0)%nat with false.
    - simpl. fold raster. now rewrite (base64Of_png _ _ _ Hurl Hcomma).
    - unfold newPaths. rewrite length_app. simpl.
      symmetry. apply Nat.eqb_neq. lia. }
  split.
  { repeat split; try assumption.
    intros pt Hpt. now apply (blackFill_colour img). }
  intros a Ha. unfold Str.orUndefined in Ha. simpl in Ha. rewrite Hne in Ha.
  unfold GeminiService.finalPrompt, GeminiService.withMaskInstructions,
    GeminiService.imageParts.
  rewrite Ha. simpl. rewrite Hne. split; reflexivity.
Qed.

Lemma C10_single_click_exports_black_mask_witness :
  exists p,
    getNormalizedPoint (Some wideImg) (40 # 1) (60 # 1) = Some p /\
    snd (stopDrawing pngStub true (startDrawing (40 # 1) (60 # 1) idlePanel))
      = Some (Some "iVBORw0KGgo="%string) /\
    painted (rasterize wideImg [mkPath [p] (5 # 100)]) = [blackFill wideImg] /\
    GeminiService.finalPrompt maskedArgs
      = ("make the hat red" ++ GeminiService.maskNote
         ++ GeminiService.structureBalanced)%string.
Proof.
  eexists. split; [reflexivity|].
  pose proof (C10_single_click_exports_black_mask pngStub wideImg idlePanel
                (40 # 1) (60 # 1) _ "iVBORw0KGgo="
                eq_refl eq_refl (@List.Forall_nil _ _) eq_refl eq_refl eq_refl)
    as (_ & (_ & Hemit) & (_ & _ & Hfill & _) & Hsvc).
  split; [exact Hemit|]. split; [exact Hfill|].
  destruct (Hsvc maskedArgs eq_refl) as [_ Hprompt].
  rewrite Hprompt. reflexivity.
Defined.
End SingleClick.

(** ** Service layer: retry and response parsing *)

Section ServiceLayer.
Import GeminiService.
Local Open Scope list_scope.

Lemma callsOf_app t1 t2 : callsOf (t1 ++ t2) = (callsOf t1 ++ callsOf t2)%list.
Proof. apply omap_app. Qed.

Lemma calls_after_call tr req :
  length (callsOf ((tr ++ [Call req]) ++ [Sleep 2000])) = S (length (callsOf tr)).
Proof. rewrite !callsOf_app, !length_app. simpl. lia. Qed.

Variable service : nat -> GenRequest -> Outcome.

Lemma editImage_succeeds a tr result :
  attemptOf (service (length (callsOf tr)) (buildRequest a)) = inr result ->
  editImage service a tr = (inr result, (tr ++ [Call (buildRequest a)])%list).
Proof.
  intro H. unfold editImage. generalize dependent (buildRequest a). intros req H.
  cbn [retryLoop maxRetries Nat.leb]. now rewrite H.
Qed.

Lemma editImage_raises_at_once a tr e1 :
  attemptOf (service (length (callsOf tr)) (buildRequest a)) = inl e1 ->
  isTransientError (messageOf e1) = false ->
  editImage service a tr = (inl (surface e1), (tr ++ [Call (buildRequest a)])%list).
Proof.
  intros H Hn. unfold editImage. generalize dependent (buildRequest a). intros req H.
  cbn [retryLoop maxRetries Nat.leb]. now rewrite H, Hn.
Qed.

Lemma editImage_retry_succeeds a tr e1 result :
  attemptOf (service (length (callsOf tr)) (buildRequest a)) = inl e1 ->
  isTransientError (messageOf e1) = true ->
  attemptOf (service (S (length (callsOf tr))) (buildRequest a)) = inr result ->
  editImage service a tr
  = (inr result,
     (tr ++ [Call (buildRequest a); Sleep 2000; Call (buildRequest a)])%list).
Proof.
  intros H Ht H2. unfold editImage. generalize dependent (buildRequest a).
  intros req H H2.
  cbn [retryLoop maxRetries Nat.leb Nat.ltb andb]. rewrite H, Ht.
  cbn [andb Nat.leb]. rewrite calls_after_call, H2.
  now rewrite <- !app_assoc.
Qed.

Lemma editImage_retry_raises a tr e1 e2 :
  attemptOf (service (length (callsOf tr)) (buildRequest a)) = inl e1 ->
  isTransientError (messageOf e1) = true ->
  attemptOf (service (S (length (callsOf tr))) (buildRequest a)) = inl e2 ->
  editImage service a tr
  = (inl (surface e2),
     (tr ++ [Call (buildRequest a); Sleep 2000; Call (buildRequest a)])%list).
Proof.
  intros H Ht H2. unfold editImage. generalize dependent (buildRequest a).
  intros req H H2.
  cbn [retryLoop maxRetries Nat.leb Nat.ltb andb]. rewrite H, Ht.
  cbn [andb Nat.leb]. rewrite calls_after_call, H2.
  rewrite andb_false_r. now rewrite <- !app_assoc.
Qed.

(** A response whose segments can be read is returned as parsed. *)
Lemma readResponse_readable r segs :
  scanned r = inr segs -> readResponse r = inr (parseResponse r).
Proof. intro H. unfold readResponse. now rewrite H. Qed.

Lemma editImage_returns a tr r segs :
  service (length (callsOf tr)) (buildRequest a) = Returns r ->
  scanned r = inr segs ->
  editImage service a tr = (inr (parseResponse r), (tr ++ [Call (buildRequest a)])%list).
Proof.
  intros H Hs. apply editImage_succeeds. rewrite H. cbn [attemptOf].
  now apply readResponse_readable with segs.
Qed.

Lemma editImage_fails_at_once a tr e1 :
  service (length (callsOf tr)) (buildRequest a) = Throws e1 ->
  isTransientError (messageOf e1) = false ->
  editImage service a tr = (inl (surface e1), (tr ++ [Call (buildRequest a)])%list).
Proof. intros H. apply editImage_raises_at_once. now rewrite H. Qed.

Lemma editImage_retry_fails a tr e1 e2 :
  service (length (callsOf tr)) (buildRequest a) = Throws e1 ->
  isTransientError (messageOf e1) = true ->
  service (S (length (callsOf tr))) (buildRequest a) = Throws e2 ->
  editImage service a tr
  = (inl (surface e2),
     (tr ++ [Call (buildRequest a); Sleep 2000; Call (buildRequest a)])%list).
Proof.
  intros H Ht H2. apply editImage_retry_raises with e1; [now rewrite H | exact Ht|].
  now rewrite H2.
Qed.

(** Reading the segments raises one of two [TypeError]s, whose message
    is neither transient nor a credential pattern: the call is not
    repeated, and the message is surfaced as it is. *)
Lemma unreadable_not_transient r e :
  scanned r = inl e ->
  isTransientError (messageOf e) = false /\ surface e = messageOf e.
Proof.
  unfold scanned. destruct (candidates r) as [[|c0 cs]|]; try discriminate.
  destruct (content c0) as [ct|].
  - destruct (content_parts ct); [discriminate|]. intros [= <-]. now split.
  - intros [= <-]. now split.
Qed.

Lemma editImage_unreadable a tr r e :
  service (length (callsOf tr)) (buildRequest a) = Returns r ->
  scanned r = inl e ->
  editImage service a tr = (inl (messageOf e), (tr ++ [Call (buildRequest a)])%list).
Proof.
  intros H Hs. destruct (unreadable_not_transient r e Hs) as [Hn Hsurf].
  rewrite <- Hsurf. apply editImage_raises_at_once; [|exact Hn].
  rewrite H. cbn [attemptOf]. unfold readResponse. now rewrite Hs.
Qed.

(** A parsed result with an image comes from a readable response. *)
Lemma parsed_image_readable r b :
  base64 (parseResponse r) = Some b -> exists segs, scanned r = inr segs.
Proof.
  unfold parseResponse. destruct (scanned r) as [e|segs]; [|now exists segs].
  discriminate.
Qed.

Lemma unreadable_parses_empty r e :
  scanned r = inl e -> parseResponse r = emptyResult.
Proof. intro H. unfold parseResponse. now rewrite H. Qed.

Lemma surface_busy m :
  isTransientError m = true -> isKeyError m = false ->
  surface (ErrorObj m) = "SERVER_BUSY"%string.
Proof. intros Ht Hk. unfold surface. now rewrite Hk, Ht. Qed.
End ServiceLayer.

Section ServiceClaims.
Import GeminiService.
Local Open Scope list_scope.

(** C4 (amended). An attempt is the call followed by the scan of its
    response.  An attempt that succeeds is not repeated.  A first
    failure whose message is not transient is surfaced at once, after
    one call and no wait.  A first failure whose message is transient
    (it contains "503", "Deadline expired", "timeout" or "Overloaded")
    is followed by one wait of 2000 ms and exactly one more call: if
    that attempt succeeds, its result is returned; if it fails, its
    failure is surfaced with no further attempt.  A failure is
    surfaced as the invalid-API-key message when it is an [Error]
    whose message contains "403", "API key not valid" or "Requested
    entity was not found"; else as SERVER_BUSY when it is an [Error]
    whose message is transient; else with its own message when it is
    an [Error]; and as the generic message when it is no [Error]. *)
Theorem C4_retry_once (service : nat -> GenRequest -> Outcome)
  (a : EditArgs) (tr : Trace) :
  let req := buildRequest a in
  let n := length (callsOf tr) in
  (forall result, attemptOf (service n req) = inr result ->
     editImage service a tr = (inr result, tr ++ [Call req])) /\
  (forall e1, attemptOf (service n req) = inl e1 ->
     isTransientError (messageOf e1) = false ->
     editImage service a tr = (inl (surface e1), tr ++ [Call req])) /\
  (forall e1 result, attemptOf (service n req) = inl e1 ->
     isTransientError (messageOf e1) = true ->
     attemptOf (service (S n) req) = inr result ->
     editImage service a tr
     = (inr result, tr ++ [Call req; Sleep 2000; Call req])) /\
  (forall e1 e2, attemptOf (service n req) = inl e1 ->
     isTransientError (messageOf e1) = true ->
     attemptOf (service (S n) req) = inl e2 ->
     editImage service a tr
     = (inl (surface e2), tr ++ [Call req; Sleep 2000; Call req])) /\
  (forall e, attemptOf (Throws e) = inl e) /\
  (forall r segs, scanned r = inr segs ->
     attemptOf (Returns r) = inr (parseResponse r)) /\
  (forall e,
     isTransientError (messageOf e)
     = Str.includes "503" (messageOf e) || Str.includes "Deadline expired" (messageOf e)
       || Str.includes "timeout" (messageOf e) || Str.includes "Overloaded" (messageOf e)) /\
  (forall m,
     surface (ErrorObj m)
     = if Str.includes "403" m || Str.includes "API key not valid" m
          || Str.includes "Requested entity was not found" m
       then "Invalid API Key or project configuration. Please check your AI Studio settings."
       else if isTransientError m then "SERVER_BUSY" else m)%string /\
  (forall v,
     surface (OtherValue v)
     = "An unexpected error occurred while communicating with the Gemini API."%string).
Proof.
  intros req n.
  split; [apply editImage_succeeds|]. split; [apply editImage_raises_at_once|].
  split; [apply editImage_retry_succeeds|]. split; [apply editImage_retry_raises|].
  split; [reflexivity|].
  split; [intros r segs H; cbn [attemptOf]; now apply readResponse_readable with segs|].
  split; [reflexivity|]. split; reflexivity.
Qed.

Lemma C4_retry_once_witness :
  editImage (busyOnce (respOf [imageSeg "QUFB"])) plainArgs []
  = (inr (mkResult (Some "data:image/png;base64,QUFB"%string) (Some "QUFB"%string)
                   (Some "image/png"%string) None),
     [Call (buildRequest plainArgs); Sleep 2000; Call (buildRequest plainArgs)])
  /\ editImage (alwaysThrows overloaded) plainArgs []
     = (inl "SERVER_BUSY"%string,
        [Call (buildRequest plainArgs); Sleep 2000; Call (buildRequest plainArgs)])
  /\ editImage (alwaysThrows (ErrorObj "400 Bad Request")) plainArgs []
     = (inl "400 Bad Request"%string, [Call (buildRequest plainArgs)])
  /\ editImage (alwaysThrows (ErrorObj "API key not valid. Please pass a valid API key."))
               plainArgs []
     = (inl "Invalid API Key or project configuration. Please check your AI Studio settings."%string,
        [Call (buildRequest plainArgs)])
  /\ editImage (alwaysThrows (OtherValue "offline")) plainArgs []
     = (inl "An unexpected error occurred while communicating with the Gemini API."%string,
        [Call (buildRequest plainArgs)]).
Proof.
  split; [|split; [|split; [|split]]].
  - destruct (C4_retry_once (busyOnce (respOf [imageSeg "QUFB"])) plainArgs [])
      as (_ & _ & H & _).
    exact (H overloaded _ eq_refl eq_refl eq_refl).
  - destruct (C4_retry_once (alwaysThrows overloaded) plainArgs [])
      as (_ & _ & _ & H & _ & _ & _ & Hs & _).
    rewrite (H overloaded overloaded eq_refl eq_refl eq_refl).
    unfold overloaded. now rewrite Hs.
  - destruct (C4_retry_once (alwaysThrows (ErrorObj "400 Bad Request")) plainArgs [])
      as (_ & H & _ & _ & _ & _ & _ & Hs & _).
    rewrite (H _ eq_refl eq_refl). now rewrite Hs.
  - destruct (C4_retry_once
                (alwaysThrows (ErrorObj "API key not valid. Please pass a valid API key."))
                plainArgs [])
      as (_ & H & _ & _ & _ & _ & _ & Hs & _).
    rewrite (H _ eq_refl eq_refl). now rewrite Hs.
  - destruct (C4_retry_once (alwaysThrows (OtherValue "offline")) plainArgs [])
      as (_ & H & _ & _ & _ & _ & _ & _ & Hv).
    rewrite (H _ eq_refl eq_refl). now rewrite Hv.
Defined.

(** C4, as stated, fails: two transient failures in a row do not always
    surface SERVER_BUSY.  A thrown value that is not an [Error]
    surfaces the generic message, and an [Error] whose transient
    message also contains "403" surfaces the invalid-key message; both
    are retried once first. *)
Lemma C4_counterexample :
  (isTransientError (messageOf (OtherValue "503 Service Unavailable")) = true /\
   editImage (alwaysThrows (OtherValue "503 Service Unavailable")) plainArgs []
   = (inl unexpectedMessage,
      [Call (buildRequest plainArgs); Sleep 2000; Call (buildRequest plainArgs)]) /\
   unexpectedMessage <> "SERVER_BUSY"%string) /\
  (isTransientError (messageOf (ErrorObj "503 Service Unavailable (trace 14038)")) = true /\
   editImage (alwaysThrows (ErrorObj "503 Service Unavailable (trace 14038)")) plainArgs []
   = (inl invalidKeyMessage,
      [Call (buildRequest plainArgs); Sleep 2000; Call (buildRequest plainArgs)]) /\
   invalidKeyMessage <> "SERVER_BUSY"%string).
Proof.
  repeat split; try reflexivity; discriminate.
Qed.
End ServiceClaims.

Section ResponseParsing.
Import GeminiService.
Local Open Scope list_scope.

Lemma scan_segments segs :
  fold_left scanPart segs emptyResult
  = mkResult (dataUrl <$> last (omap imageOf segs))
             (data <$> last (omap imageOf segs))
             (inlineMime <$> last (omap imageOf segs))
             (last (omap textOf segs)).
Proof.
  induction segs as [|part segs IH] using rev_ind; [reflexivity|].
  rewrite fold_left_app, IH, !omap_app. simpl.
  unfold scanPart, imageOf, textOf.
  destruct (Str.truthy (text part)) eqn:Et; simpl.
  - destruct (text part) as [txt|] eqn:Etxt; [|discriminate].
    simpl. now rewrite app_nil_r, last_snoc.
  - rewrite app_nil_r.
    destruct (inlineData part) as [d|]; simpl.
    + now rewrite last_snoc.
    + now rewrite app_nil_r.
Qed.

(** C5 (amended). For a returned response that carries segments (one
    candidate whose content holds them, or no candidate and no
    segment), the service layer returns a result, all segments
    scanned: the image is the inline data of the LAST segment that has
    inline data and no non-empty text, the text is that of the last
    segment with a non-empty text, and when there is neither the
    result is the empty one, returned as a value and not raised. *)
Theorem C5_last_image_segment (service : nat -> GenRequest -> Outcome)
  (a : EditArgs) (tr : Trace) (response : Response) (segs : list RespPart) :
  carries response segs ->
  exists r,
    readResponse response = inr r /\
    (service (length (callsOf tr)) (buildRequest a) = Returns response ->
     editImage service a tr = (inr r, tr ++ [Call (buildRequest a)])) /\
    base64 r = data <$> last (omap imageOf segs) /\
    resMimeType r = inlineMime <$> last (omap imageOf segs) /\
    imageUrl r = dataUrl <$> last (omap imageOf segs) /\
    resText r = last (omap textOf segs) /\
    (omap imageOf segs = [] -> omap textOf segs = [] -> r = emptyResult).
Proof.
  intro Hc.
  assert (Hs : scanned response = inr segs).
  { unfold scanned. destruct Hc as [-> | [[-> | ->] ->]]; reflexivity. }
  exists (parseResponse response).
  split; [now apply readResponse_readable with segs|].
  split; [intro H; now apply editImage_returns with segs|].
  unfold parseResponse. rewrite Hs, scan_segments. repeat split.
  intros -> ->. reflexivity.
Qed.

Lemma C5_last_image_segment_witness :
  editImage (fun _ _ => Returns (respOf [textSeg "done"; mkPart (Some EmptyString) None]))
            plainArgs []
  = (inr (mkResult None None None (Some "done"%string)), [Call (buildRequest plainArgs)])
  /\ editImage (fun _ _ => Returns (mkResponse None)) plainArgs []
     = (inr emptyResult, [Call (buildRequest plainArgs)]).
Proof.
  split.
  - destruct (C5_last_image_segment
                (fun _ _ => Returns (respOf [textSeg "done"; mkPart (Some EmptyString) None]))
                plainArgs [] (respOf [textSeg "done"; mkPart (Some EmptyString) None])
                [textSeg "done"; mkPart (Some EmptyString) None] (or_introl eq_refl))
      as (r & Hr & Hrun & _).
    rewrite (Hrun eq_refl). injection Hr as <-. reflexivity.
  - destruct (C5_last_image_segment (fun _ _ => Returns (mkResponse None))
                plainArgs [] (mkResponse None) []
                (or_intror (conj (or_introl eq_refl) eq_refl)))
      as (r & _ & Hrun & _ & _ & _ & _ & He).
    rewrite (Hrun eq_refl). now rewrite (He eq_refl eq_refl).
Defined.

(** C5, as stated, fails: with two image segments the result is the
    second one, not the first. *)
Lemma C5_counterexample :
  carries twoImages [imageSeg "QUFB"; imageSeg "QkJC"] /\
  head (omap inlineData [imageSeg "QUFB"; imageSeg "QkJC"])
  = Some (mkInline "QUFB" "image/png") /\
  readResponse twoImages
  = inr (mkResult (Some "data:image/png;base64,QkJC"%string) (Some "QkJC"%string)
                  (Some "image/png"%string) None) /\
  Some "QkJC"%string
    <> data <$> head (omap inlineData [imageSeg "QUFB"; imageSeg "QkJC"]).
Proof.
  split; [now left|]. split; [reflexivity|]. split; [reflexivity | discriminate].
Qed.

(** A candidate without content is outside that scope: reading its
    parts raises, the call is not repeated, and [editImage] fails with
    the message of the [TypeError]. *)
Lemma blocked_response_raises (service : nat -> GenRequest -> Outcome)
  (a : EditArgs) (tr : Trace) :
  service (length (callsOf tr)) (buildRequest a) = Returns blocked ->
  editImage service a tr
  = (inl "Cannot read properties of undefined (reading 'parts')"%string,
     tr ++ [Call (buildRequest a)]).
Proof. intro H. now apply (editImage_unreadable service a tr blocked undefinedContent). Qed.
End ResponseParsing.

(** ** History *)

Section History.
Import GeminiService Composer App.
Local Open Scope list_scope.





End History.

(** ** Generation orchestrator *)

Section Generation.
Import GeminiService Composer App.
Local Open Scope list_scope.

Variable service : nat -> GenRequest -> Outcome.
Variable t : I18n.
Variable dateNow : Trace -> Z.
Variable random : Q.
Variable cfg : Settings.

Lemma recordOf_image (r : EditResult) (promptText : string) (tr : Trace) (flag : bool) :
  hasImage r = true ->
  exists u b m,
    imageUrl r = Some u /\ base64 r = Some b /\ resMimeType r = Some m /\
    recordOf dateNow r promptText tr flag
    = Some (mkImage u b m (Some promptText) (Some (dateNow tr)) (Some flag)).
Proof.
  intro H. unfold recordOf. rewrite H. unfold hasImage in H.
  destruct (imageUrl r) as [u|]; [|discriminate].
  destruct (base64 r) as [b|]; [|simpl in H; now rewrite andb_false_r in H].
  destruct (resMimeType r) as [m|]; [|simpl in H; now rewrite andb_false_r in H].
  now exists u, b, m.
Qed.

Lemma recordOf_fields (r : EditResult) promptText tr flag img :
  recordOf dateNow r promptText tr flag = Some img ->
  base64 r = Some (img_base64 img) /\ resMimeType r = Some (img_mimeType img) /\
  imageUrl r = Some (url img).
Proof.
  unfold recordOf. destruct (hasImage r); [|discriminate].
  destruct (imageUrl r), (base64 r), (resMimeType r); try discriminate.
  intros [= <-]. repeat split.
Qed.

Lemma replaceLast_snoc (prev : list ImageSource) (a b : ImageSource) :
  replaceLast b (prev ++ [a]) = prev ++ [b].
Proof.
  unfold replaceLast. rewrite length_app. simpl.
  replace (length prev + 1 - 1)%nat with (length prev + 0)%nat by lia.
  destruct (Nat.ltb_spec 0 (length prev + 1)); [|lia].
  now rewrite insert_app_r.
Qed.

(** An ultra-tier generation whose first call produced a record. *)
Lemma executeGeneration_ultra targetPrompt aspectRatio osr osw seed s tr src
      result tr1 newImg :
  sourceImage s = Some src -> hasApiKey cfg = true ->
  editImage service (firstArgs random cfg targetPrompt K4 aspectRatio osr osw seed s src) tr
    = (inr result, tr1) ->
  recordOf dateNow result (firstPromptText random cfg targetPrompt) tr1
           (isAngle (selectedAngle (selections cfg)) sheet) = Some newImg ->
  executeGeneration service t dateNow random cfg targetPrompt K4 aspectRatio
                    osr osw seed s tr
  = let '(s', tr') := upscalePass service dateNow cfg targetPrompt
                        (composedPrompt (selections cfg) targetPrompt random)
                        aspectRatio (styleRefsOf cfg osr) seed newImg
                        (committed newImg s) tr1 in
    (Some newImg, s', tr').
Proof.
  intros Hsrc Hkey Hcall Hrec. unfold executeGeneration.
  rewrite Hsrc, Hkey. cbn [negb ImageSize_eqb].
  unfold firstArgs, styleRefsOf in Hcall. cbn [ImageSize_eqb] in Hcall.
  cbn [maskImage setError setIsUpscaling setIsGenerating].
  rewrite Hcall. unfold firstPromptText in Hrec. rewrite Hrec. reflexivity.
Qed.

Lemma calls_after_one tr req :
  length (callsOf (tr ++ [Call req])) = S (length (callsOf tr)).
Proof. rewrite callsOf_app, length_app. simpl. lia. Qed.

(** C7. In an ultra-tier generation whose first call produced an image
    and whose upscale call failed, the first record is the final one:
    the history is the old history with that record appended, the
    record is current, an [info] notice is shown, no error is set, and
    both progress flags are down. *)
Theorem C7_upscale_failure_keeps_base targetPrompt aspectRatio osr osw seed
  (s : Session) (tr : Trace) (src : ImageSource) (result : EditResult)
  (tr1 : Trace) (b m message : string) (tr2 : Trace) :
  sourceImage s = Some src -> hasApiKey cfg = true ->
  editImage service (firstArgs random cfg targetPrompt K4 aspectRatio osr osw seed s src) tr
    = (inr result, tr1) ->
  hasImage result = true ->
  base64 result = Some b -> resMimeType result = Some m ->
  editImage service (upscaleArgs random cfg targetPrompt aspectRatio osr seed b m) tr1
    = (inl message, tr2) ->
  exists newImg s',
    executeGeneration service t dateNow random cfg targetPrompt K4 aspectRatio
                      osr osw seed s tr = (Some newImg, s', tr2) /\
    img_base64 newImg = b /\ img_mimeType newImg = m /\
    generatedImageHistory s' = generatedImageHistory s ++ [newImg] /\
    currentGeneratedImage s' = Some newImg /\
    errorState s' = None /\
    toasts s' = toasts s ++ [(upscaleFailedNotice, info)] /\
    isGenerating s' = false /\ isUpscaling s' = false.
Proof.
  intros Hsrc Hkey Hfirst Himg Hb Hm Hup.
  destruct (recordOf_image result (firstPromptText random cfg targetPrompt) tr1
              (isAngle (selectedAngle (selections cfg)) sheet) Himg)
    as (u & b' & m' & Hu & Hb' & Hm' & Hrec).
  rewrite Hb in Hb'. rewrite Hm in Hm'. injection Hb' as <-. injection Hm' as <-.
  eexists _, _. split.
  - rewrite (executeGeneration_ultra _ _ _ _ _ _ _ _ _ _ _ Hsrc Hkey Hfirst Hrec).
    unfold upscalePass. unfold upscaleArgs in Hup.
    cbn [img_base64 img_mimeType]. rewrite Hup. reflexivity.
  - repeat split.
Qed.

(** C3 (amended). In an ultra-tier ("4K") generation the first remote
    call is made at the standard tier "1K" (model
    gemini-2.5-flash-image); when it returns an image, a second call
    is made whose input image is the first call's output, with no
    mask, structure weight 100 and tier "4K"; when both calls return
    at the first attempt the trace gains exactly these two calls, and
    if the second returned an image, the record that ends the history
    and is current carries it. *)
Theorem C3_ultra_two_calls targetPrompt aspectRatio osr osw seed
  (s : Session) (tr : Trace) (src : ImageSource) (resp1 resp2 : Response)
  (b m : string) :
  sourceImage s = Some src -> hasApiKey cfg = true ->
  let args1 := firstArgs random cfg targetPrompt K4 aspectRatio osr osw seed s src in
  let args2 := upscaleArgs random cfg targetPrompt aspectRatio osr seed b m in
  service (length (callsOf tr)) (buildRequest args1) = Returns resp1 ->
  hasImage (parseResponse resp1) = true ->
  base64 (parseResponse resp1) = Some b ->
  resMimeType (parseResponse resp1) = Some m ->
  service (S (length (callsOf tr))) (buildRequest args2) = Returns resp2 ->
  (imageSize args1 = K1 /\
   model (buildRequest args1) = "gemini-2.5-flash-image"%string) /\
  (base64ImageData args2 = b /\ mimeType args2 = m /\
   GeminiService.maskImage args2 = None /\
   GeminiService.structureWeight args2 = 100%Z /\ imageSize args2 = K4) /\
  exists newImg s',
    executeGeneration service t dateNow random cfg targetPrompt K4 aspectRatio
                      osr osw seed s tr
    = (Some newImg, s',
       tr ++ [Call (buildRequest args1); Call (buildRequest args2)]) /\
    img_base64 newImg = b /\
    (hasImage (parseResponse resp2) = true ->
     exists upscaled,
       base64 (parseResponse resp2) = Some (img_base64 upscaled) /\
       currentGeneratedImage s' = Some upscaled /\
       generatedImageHistory s' = generatedImageHistory s ++ [upscaled]).
Proof.
  intros Hsrc Hkey args1 args2 H1 Himg Hb Hm H2.
  split; [split; reflexivity|]. split; [repeat split|].
  destruct (parsed_image_readable resp1 b Hb) as [segs1 Hs1].
  pose proof (editImage_returns service args1 tr resp1 segs1 H1 Hs1) as Hfirst.
  destruct (recordOf_image (parseResponse resp1) (firstPromptText random cfg targetPrompt)
              (tr ++ [Call (buildRequest args1)])
              (isAngle (selectedAngle (selections cfg)) sheet) Himg)
    as (u & b' & m' & Hu & Hb' & Hm' & Hrec).
  rewrite Hb in Hb'. rewrite Hm in Hm'. injection Hb' as <-. injection Hm' as <-.
  rewrite <- (calls_after_one tr (buildRequest args1)) in H2.
  rewrite (executeGeneration_ultra _ _ _ _ _ _ _ _ _ _ _ Hsrc Hkey Hfirst Hrec).
  unfold upscalePass.
  destruct (scanned resp2) as [e2|segs2] eqn:Hs2.
  - pose proof (editImage_unreadable service args2 _ resp2 e2 H2 Hs2) as Hsecond.
    unfold args2, upscaleArgs in Hsecond.
    cbn [img_base64 img_mimeType]. rewrite Hsecond.
    rewrite <- app_assoc. cbn [app].
    eexists _, _. split; [reflexivity|]. split; [reflexivity|].
    rewrite (unreadable_parses_empty resp2 e2 Hs2). discriminate.
  - pose proof (editImage_returns service args2 _ resp2 segs2 H2 Hs2) as Hsecond.
    unfold args2, upscaleArgs in Hsecond.
    cbn [img_base64 img_mimeType]. rewrite Hsecond.
    rewrite <- app_assoc. cbn [app].
    destruct (hasImage (parseResponse resp2)) eqn:Himg2.
    + destruct (recordOf_image (parseResponse resp2)
                  ((if Str.nonEmpty targetPrompt then targetPrompt
                    else "[Click Generation]") ++ " (Upscaled)")%string
                  (tr ++ [Call (buildRequest args1); Call (buildRequest args2)])
                  (isAngle (selectedAngle (selections cfg)) sheet) Himg2)
        as (u2 & b2 & m2 & Hu2 & Hb2 & Hm2 & Hrec2).
      unfold args1, args2, firstArgs, upscaleArgs in Hrec2 |- *.
      rewrite Hrec2.
      eexists _, _. split; [reflexivity|]. split; [reflexivity|].
      intros _. eexists (mkImage u2 b2 m2 _ _ _).
      split; [exact Hb2|]. split; [reflexivity|].
      cbn. apply replaceLast_snoc.
    + unfold recordOf. rewrite Himg2.
      eexists _, _. split; [reflexivity|]. split; [reflexivity|]. discriminate.
Qed.
End Generation.

(** ** Sample runs of the orchestrator *)

Section SampleRuns.
Import GeminiService Composer App.
Local Open Scope list_scope.

Lemma C7_upscale_failure_keeps_base_witness :
  exists newImg s' tr',
    ultraRun upscaleRefused = (Some newImg, s', tr') /\
    img_base64 newImg = "QUFB"%string /\
    generatedImageHistory s' = [newImg] /\
    currentGeneratedImage s' = Some newImg /\
    errorState s' = None /\
    toasts s' = [(upscaleFailedNotice, info)].
Proof.
  edestruct (C7_upscale_failure_keeps_base upscaleRefused sampleI18n tick 0
               sampleSettings "make the hair red" R1_1 None None None loaded []
               (shot "c291cmNl"))
    as (newImg & s' & Hrun & Hb & _ & Hh & Hc & He & Ht & _).
  - reflexivity.
  - reflexivity.
  - vm_compute. reflexivity.
  - reflexivity.
  - reflexivity.
  - reflexivity.
  - vm_compute. reflexivity.
  - exists newImg, s'. eexists. repeat split; eassumption.
Defined.

Lemma C3_ultra_two_calls_witness :
  exists newImg s' r1 r2,
    ultraRun twoAnswers = (Some newImg, s', [Call r1; Call r2]) /\
    model r1 = "gemini-2.5-flash-image"%string /\
    cfg_imageSize (config r1) = None /\
    parts r2 !! 0%nat = Some (InlinePart (mkInline "QUFB" "image/png")) /\
    cfg_imageSize (config r2) = Some K4 /\
    (exists upscaled,
       img_base64 upscaled = "VVBT"%string /\
       currentGeneratedImage s' = Some upscaled /\
       generatedImageHistory s' = [upscaled]).
Proof.
  edestruct (C3_ultra_two_calls twoAnswers sampleI18n tick 0 sampleSettings
               "make the hair red" R1_1 None None None loaded []
               (shot "c291cmNl")
               (respOf [imageSeg "QUFB"])
               (respOf [textSeg "upscaled"; imageSeg "VVBT"])
               "QUFB" "image/png"
               eq_refl eq_refl eq_refl eq_refl eq_refl eq_refl eq_refl)
    as (_ & _ & newImg & s' & Hrun & _ & Hup).
  destruct (Hup eq_refl) as (upscaled & Hb & Hc & Hh).
  exists newImg, s'. eexists _, _. split; [exact Hrun|].
  repeat split.
  exists upscaled. repeat split; try assumption.
  simpl in Hb. congruence.
Defined.

(** C3, as stated, fails: the first call of an ultra-tier generation is
    not a request of the "2K" (high) tier. *)
Lemma C3_counterexample :
  exists r1 r2,
    callsOf (snd (ultraRun twoAnswers)) = [r1; r2] /\
    model r1 = "gemini-2.5-flash-image"%string /\
    cfg_imageSize (config r1) = None /\
    (forall a, imageSize a = K2 -> buildRequest a <> r1).
Proof.
  eexists _, _. split; [vm_compute; reflexivity|].
  split; [reflexivity|]. split; [reflexivity|].
  intros a Ha Heq. apply (f_equal model) in Heq.
  unfold buildRequest in Heq. cbn [model] in Heq. rewrite Ha in Heq.
  vm_compute in Heq. discriminate.
Qed.
End SampleRuns.

(** ** Substrings *)

Section Substrings.
Local Open Scope string_scope.

Lemma append_assoc (a b c : string) : (a ++ b) ++ c = a ++ (b ++ c).
Proof. induction a as [|x a IH]; simpl; [reflexivity | now rewrite IH]. Qed.

Lemma append_nil_r (a : string) : a ++ EmptyString = a.
Proof. induction a as [|x a IH]; simpl; [reflexivity | now rewrite IH]. Qed.

Lemma prefix_append (k b : string) : String.prefix k (k ++ b) = true.
Proof.
  induction k as [|x k IH]; simpl; [now destruct b|].
  destruct (ascii_dec x x); [exact IH | congruence].
Qed.

Lemma includes_at_start (k s : string) :
    String.prefix k s = true -> Str.includes k s = true.
Proof. intro H. destruct s; cbn [Str.includes]; now rewrite H. Qed.

Lemma includes_of_Contains (k s : string) : Contains k s -> Str.includes k s = true.
Proof.
  intros (a & b & ->). induction a as [|x a IH].
  - change (Str.includes k (k ++ b) = true). apply includes_at_start, prefix_append.
  - cbn [append Str.includes]. rewrite IH. now destruct (String.prefix k _).
Qed.

Lemma Contains_append_r (k s u : string) : Contains k s -> Contains k (s ++ u).
Proof.
  intros (a & b & ->). exists a, (b ++ u). now rewrite !append_assoc.
Qed.

Lemma Contains_append_l (k s u : string) : Contains k s -> Contains k (u ++ s).
Proof.
  intros (a & b & ->). exists (u ++ a), b. now rewrite !append_assoc.
Qed.

Lemma toLowerCase_append (a b : string) :
    Str.toLowerCase (a ++ b) = Str.toLowerCase a ++ Str.toLowerCase b.
Proof. induction a as [|x a IH]; simpl; [reflexivity | now rewrite IH]. Qed.

Lemma Contains_toLowerCase (k s : string) :
    Contains k s -> Contains (Str.toLowerCase k) (Str.toLowerCase s).
Proof.
  intros (a & b & ->). exists (Str.toLowerCase a), (Str.toLowerCase b).
  now rewrite !toLowerCase_append.
Qed.

Lemma Contains_join (k sep x : string) (l : list string) :
    In x l -> Contains k x -> Contains k (Str.join sep l).
Proof.
  intros Hin Hk. induction l as [|y l IH]; [contradiction|].
  destruct Hin as [->|Hin].
  - destruct l; [exact Hk|]. cbn [Str.join]. now apply Contains_append_r.
  - destruct l as [|z l]; [contradiction|]. cbn [Str.join].
    apply Contains_append_l, Contains_append_l. exact (IH Hin).
Qed.

Lemma trimStart_Contains (k s : string) :
    firstNotSpace k = true -> Contains k s -> Contains k (Str.trimStart s).
Proof.
  intros Hk (a & b & ->). induction a as [|x a IH].
  - destruct k as [|c k]; [discriminate|]. simpl in *.
    apply negb_true_iff in Hk. rewrite Hk. now exists EmptyString, b.
  - cbn [append Str.trimStart]. destruct (Str.isSpace x); [exact IH|].
    now exists (String x a), b.
Qed.

Lemma trimEnd_keeps_word (k b : string) :
    lastNotSpace k = true -> exists b', Str.trimEnd (k ++ b) = k ++ b'.
Proof.
  induction k as [|c k IH]; [discriminate|]. intro Hk.
  destruct k as [|d k].
  - simpl in *. apply negb_true_iff in Hk. rewrite Hk.
    destruct (Str.trimEnd b) as [|e r]; [now exists EmptyString | now exists (String e r)].
  - destruct (IH Hk) as [b' Hb']. cbn [append Str.trimEnd] in *.
    rewrite Hb'. now exists b'.
Qed.

Lemma trimEnd_Contains (k s : string) :
    lastNotSpace k = true -> Contains k s -> Contains k (Str.trimEnd s).
Proof.
  intros Hk (a & b & ->). induction a as [|x a IH].
  - destruct (trimEnd_keeps_word k b Hk) as [b' Hb']. cbn [append]. rewrite Hb'.
    now exists EmptyString, b'.
  - cbn [append Str.trimEnd]. destruct IH as (a' & b' & ->).
    destruct (a' ++ k ++ b') eqn:E.
    + destruct a'; destruct k; discriminate.
    + rewrite <- E. now exists (String x a'), b'.
Qed.

Lemma trim_Contains (k s : string) :
    firstNotSpace k = true -> lastNotSpace k = true ->
    Contains k s -> Contains k (Str.trim s).
Proof.
  intros Hf Hl H. unfold Str.trim. now apply trimEnd_Contains, trimStart_Contains.
Qed.

Lemma Contains_nonEmpty (k s : string) :
    Str.nonEmpty k = true -> Contains k s -> Str.nonEmpty s = true.
Proof.
  intros Hk (a & b & ->). destruct a; [|reflexivity]. now destruct k.
Qed.
End Substrings.

(** ** Background freeze *)

Section BackgroundFreeze.
Import GeminiService Composer App.
Local Open Scope list_scope.

Lemma composer_negative_block sel targetPrompt random :
    In ("[NEGATIVE PROMPT: " ++ Str.join ", " (strictNegativePrompts sel) ++ "]")%string
       (promptParts sel targetPrompt random).
Proof.
  unfold promptParts. rewrite !in_app_iff. do 5 right. left. now left.
Qed.

(** Whatever is selected and typed, the composed instruction contains
    the word "background": its negative-prompt block starts with
    "(changing background:1.5)". *)
Lemma composer_mentions_background sel targetPrompt random :
    Contains "background" (composedPrompt sel targetPrompt random).
Proof.
  assert (Hjoin : Contains "background" (Str.join ", " (promptParts sel targetPrompt random))).
  { apply (Contains_join _ _ _ _ (composer_negative_block sel targetPrompt random)).
    apply Contains_append_l, Contains_append_r.
    apply (Contains_join _ _ "(changing background:1.5)").
    - unfold strictNegativePrompts. now left.
    - now exists "(changing "%string, ":1.5)"%string. }
  unfold composedPrompt.
  rewrite (Contains_nonEmpty "background" _ eq_refl Hjoin). cbn [negb orb].
  pose proof (Contains_nonEmpty "background" _ eq_refl
                (trim_Contains "background" _ eq_refl eq_refl Hjoin)) as Hne.
  destruct (Str.trim (Str.join ", " (promptParts sel targetPrompt random)));
    [discriminate | exact Hjoin].
Qed.

(** A prompt that contains "background" passes for a request to change
    the background. *)
Lemma background_word_is_a_request (a : EditArgs) :
    Contains "background" (GeminiService.prompt a) ->
    hasBgChangeRequest (withAesthetics a) = true.
Proof.
  intro H.
  assert (Hw : Contains "background" (withAesthetics a)).
  { unfold withAesthetics.
    pose proof (trim_Contains "background" _ eq_refl eq_refl H) as Ht.
    destruct (isHighQuality (imageSize a)); [|exact Ht].
    destruct (negb _); [now apply Contains_append_r | exact Ht]. }
  pose proof (includes_of_Contains _ _ (Contains_toLowerCase _ _ Hw)) as Hi.
  change (Str.toLowerCase "background") with "background"%string in Hi.
  unfold hasBgChangeRequest, bgChangeKeywords. cbn [existsb]. now rewrite Hi.
Qed.

(** Hence step 2 of [editImage] never appends the background directive
    to an instruction that comes from the composer: without a mask it
    appends nothing. *)
Lemma composed_prompt_never_frozen (a : EditArgs) sel targetPrompt random :
    GeminiService.prompt a = composedPrompt sel targetPrompt random ->
    Str.truthy (GeminiService.maskImage a) = false ->
    finalPrompt a = withStructure a (withAesthetics a).
Proof.
  intros Hp Hm. unfold finalPrompt, withMaskInstructions. rewrite Hm.
  rewrite background_word_is_a_request; [reflexivity|].
  rewrite Hp. apply composer_mentions_background.
Qed.

(** C6, at the failing input.  With no mask and the free text
    "make the hair red", which contains no keyword of the list, the
    one request that leaves the orchestrator carries a prompt without
    the background-preservation directive: the composed instruction
    handed to [editImage] always ends with the composer's own
    negative-prompt block, and that block contains "background" and
    "location".  [editImage] given the free text itself does append
    the directive.  For "change the background to a beach" the
    directive is absent and the composer's block is present. *)
Theorem C6_directive_missing_without_keyword :
  App.maskImage loaded = None /\
  hasBgChangeRequest "make the hair red" = false /\
  (exists req,
     callsOf (snd (plainRun "make the hair red")) = [req] /\
     sentPrompt req
     = Some ("make the hair red, " ++ composerNegative ++ structureBalanced)%string /\
     hasBgChangeRequest ("make the hair red, " ++ composerNegative)%string = true) /\
  finalPrompt (mkArgs "c291cmNl" "image/png" "make the hair red" None None K1 R1_1
                      None 50 None)
  = ("make the hair red" ++ backgroundDirective ++ backgroundNegative
     ++ structureBalanced)%string /\
  (exists req,
     callsOf (snd (plainRun "change the background to a beach")) = [req] /\
     sentPrompt req
     = Some ("change the background to a beach, " ++ composerNegative
             ++ structureBalanced)%string).
Proof.
  split; [reflexivity|]. split; [reflexivity|]. split; [|split].
  - eexists. split; [vm_compute; reflexivity|]. split; vm_compute; reflexivity.
  - vm_compute; reflexivity.
  - eexists. split; [vm_compute; reflexivity|]. vm_compute; reflexivity.
Qed.

Lemma editImage_trace service (a : EditArgs) (tr : Trace) :
    exists rest, snd (editImage service a tr) = tr ++ Call (buildRequest a) :: rest.
Proof.
  unfold editImage. cbn [retryLoop maxRetries Nat.leb Nat.ltb].
  destruct (attemptOf (service _ _)) as [e1|r]; [|now exists []].
  destruct (isTransientError (messageOf e1)); cbn [andb]; [|now exists []].
  destruct (attemptOf (service _ _)) as [e2|r]; cbn [snd].
  - rewrite andb_false_r. exists [Sleep 2000; Call (buildRequest a)].
    now rewrite <- !app_assoc.
  - exists [Sleep 2000; Call (buildRequest a)]. now rewrite <- !app_assoc.
Qed.

Lemma upscalePass_trace service dateNow cfg targetPrompt fp aspectRatio styleRefs
        seed newImg s (tr : Trace) :
    exists rest,
      snd (upscalePass service dateNow cfg targetPrompt fp aspectRatio styleRefs seed
             newImg s tr) = tr ++ rest.
Proof.
  unfold upscalePass.
  match goal with |- context [editImage service ?a tr] =>
    destruct (editImage_trace service a tr) as [rest Hrest];
    destruct (editImage service a tr) as [[message|up] tr1]
  end; cbn [snd] in Hrest; subst tr1.
  - now eexists.
  - destruct (recordOf _ _ _ _ _); now eexists.
Qed.

(** Every generation that passes the two preconditions starts with the
    request built from [firstArgs], whose prompt is the composed
    instruction; without a mask that request carries no background
    directive, whatever the free text. *)
Lemma executeGeneration_first_request service t dateNow random cfg targetPrompt
        size aspectRatio osr osw seed (s : Session) (tr : Trace) (src : ImageSource) :
    sourceImage s = Some src -> hasApiKey cfg = true ->
    let a := firstArgs random cfg targetPrompt size aspectRatio osr osw seed s src in
    (exists rest,
       snd (executeGeneration service t dateNow random cfg targetPrompt size
              aspectRatio osr osw seed s tr) = tr ++ Call (buildRequest a) :: rest) /\
    sentPrompt (buildRequest a) = Some (finalPrompt a) /\
    (Str.truthy (App.maskImage s) = false ->
     finalPrompt a = withStructure a (withAesthetics a)).
Proof.
  intros Hsrc Hkey a. split; [|split].
  - unfold executeGeneration. rewrite Hsrc, Hkey. cbn [negb].
    fold (styleRefsOf cfg osr).
    change (editImage service _ tr) with (editImage service a tr).
    destruct (editImage_trace service a tr) as [rest Hrest].
    destruct (editImage service a tr) as [[message|result] tr1]; cbn [snd] in Hrest;
      subst tr1; [now exists rest|].
    destruct (recordOf _ _ _ _ _) as [newImg|]; [|now exists rest].
    destruct (ImageSize_eqb size K4); [|now exists rest].
    match goal with |- context [upscalePass ?x1 ?x2 ?x3 ?x4 ?x5 ?x6 ?x7 ?x8 ?x9 ?x10 ?x11] =>
      destruct (upscalePass_trace x1 x2 x3 x4 x5 x6 x7 x8 x9 x10 x11) as [more Hmore];
      destruct (upscalePass x1 x2 x3 x4 x5 x6 x7 x8 x9 x10 x11) as [s' tr']
    end.
    cbn [snd] in *. subst tr'. exists (rest ++ more).
    now rewrite <- app_assoc.
  - unfold sentPrompt, buildRequest. cbn [parts]. now rewrite last_snoc.
  - intro Hm. apply (composed_prompt_never_frozen a (selections cfg) targetPrompt random).
    + reflexivity.
    + unfold a, firstArgs. cbn [GeminiService.maskImage].
      unfold Str.orUndefined. now rewrite Hm.
Qed.
End BackgroundFreeze.

(** ** History under the operations of the session *)

Section Operations.
Import GeminiService Composer App.
Local Open Scope list_scope.

Variable service : nat -> GenRequest -> Outcome.
Variable t : I18n.
Variable dateNow : Trace -> Z.
Variable random : Q.
Variable cfg : Settings.

Lemma upscalePass_history targetPrompt finalPrompt aspectRatio styleRefs seed
      (newImg : ImageSource) (s : Session) (tr : Trace) (prev : list ImageSource) :
  generatedImageHistory s = prev ++ [newImg] ->
  exists r, generatedImageHistory
              (fst (upscalePass service dateNow cfg targetPrompt finalPrompt
                      aspectRatio styleRefs seed newImg s tr)) = prev ++ [r].
Proof.
  intro Hh. unfold upscalePass.
  destruct (editImage _ _ _) as [[message|up] tr1]; cbn.
  - now exists newImg.
  - destruct (recordOf _ _ _ _ _) as [upscaled|]; cbn.
    + exists upscaled. rewrite Hh. apply replaceLast_snoc.
    + now exists newImg.
Qed.

Lemma executeGeneration_history targetPrompt size aspectRatio osr osw seed s tr :
  generatedImageHistory s
  `prefix_of`
  generatedImageHistory
    (snd (fst (executeGeneration service t dateNow random cfg targetPrompt size
                 aspectRatio osr osw seed s tr))).
Proof.
  unfold executeGeneration.
  destruct (sourceImage s) as [src|]; [|reflexivity].
  destruct (hasApiKey cfg); cbn [negb]; [|reflexivity].
  destruct (editImage _ _ _) as [[message|result] tr1]; [reflexivity|].
  destruct (recordOf _ _ _ _ _) as [newImg|]; [|reflexivity].
  destruct (ImageSize_eqb size K4).
  - match goal with |- context [upscalePass ?a ?b ?c ?d ?e ?f ?g ?h ?i ?j ?k] =>
      destruct (upscalePass_history d e f g h i j k (generatedImageHistory s))
        as [r Hr]; [reflexivity|];
      destruct (upscalePass a b c d e f g h i j k) as [s' tr']
    end.
    cbn in *. rewrite Hr. now exists [r].
  - cbn. now exists [newImg].
Qed.

Lemma sceneLoop_history src rest : forall i s tr,
  generatedImageHistory s
  `prefix_of`
  generatedImageHistory (snd (fst (sceneLoop service dateNow cfg src rest i s tr))).
Proof.
  induction rest as [|[name promptPrefix] rest IH]; intros i s tr; cbn [sceneLoop].
  - reflexivity.
  - destruct (editImage _ _ _) as [[message|result] tr1]; [reflexivity|].
    etransitivity; [|apply IH].
    destruct (recordOf _ _ _ _ _) as [newImg|]; cbn; [|reflexivity].
    now exists [newImg].
Qed.

(** C9 (amended). Run to completion, every operation other than
    revert, deleting the result, and replacing or deleting the source
    image leaves the history it found as a prefix of the history it
    leaves: generation and the persona scenes append records, and
    selecting a record, branching from one, swapping, resetting to the
    original and changing the mask leave the history as it is. *)
Theorem C9_history_grows (a : Action) (s : Session) (tr : Trace) :
  shortens a = false ->
  generatedImageHistory s `prefix_of` generatedImageHistory (fst (step service t dateNow random cfg a s tr)) /\
  (forall img, generatedImageHistory (fst (step service t dateNow random cfg (Select img) s tr))
               = generatedImageHistory s) /\
  (forall img, generatedImageHistory (fst (step service t dateNow random cfg (BranchFromHistory img) s tr))
               = generatedImageHistory s).
Proof.
  intro Ha. split; [|split; reflexivity].
  destruct a as [targetPrompt size ratio osr osw sd| | | | | | | | | | |];
    try discriminate; cbn [step].
  - pose proof (executeGeneration_history targetPrompt size ratio osr osw sd s tr) as H.
    destruct (executeGeneration _ _ _ _ _ _ _ _ _ _ _ _ _) as [[o s'] tr']. exact H.
  - unfold handleGeneratePersonaScenes.
    destruct (sourceImage s) as [src|]; [|reflexivity].
    pose proof (sceneLoop_history src scenes 0
                  (setSceneProgress 0 (setIsGeneratingScenes true s)) tr) as H.
    destruct (sceneLoop _ _ _ _ _ _ _ _) as [[completed s'] tr'].
    destruct completed; exact H.
  - unfold handleSwapImages.
    destruct (sourceImage s), (currentGeneratedImage s); reflexivity.
  - reflexivity.
  - unfold handleResetToOriginal. destruct (originalImage s); reflexivity.
  - reflexivity.
  - reflexivity.
Qed.
End Operations.

Section OperationsExamples.
Import GeminiService Composer App.
Local Open Scope list_scope.

Lemma C9_history_grows_witness :
  generatedImageHistory
    (fst (step twoAnswers sampleI18n tick 0 sampleSettings
            (Select (shot "QQ==")) twoShots []))
  = [shot "QQ=="; shot "Qg=="] /\
  [shot "QQ=="; shot "Qg=="]
  `prefix_of`
  generatedImageHistory
    (fst (step twoAnswers sampleI18n tick 0 sampleSettings
            (Generate "make the hair red" K1 R1_1 None None None)
            (setSourceImage (Some (shot "c291cmNl")) twoShots) [])).
Proof.
  split.
  - exact (proj1 (proj2 (C9_history_grows twoAnswers sampleI18n tick 0 sampleSettings
                           SwapImages twoShots [] eq_refl)) (shot "QQ==")).
  - exact (proj1 (C9_history_grows twoAnswers sampleI18n tick 0 sampleSettings
                    (Generate "make the hair red" K1 R1_1 None None None)
                    (setSourceImage (Some (shot "c291cmNl")) twoShots) [] eq_refl)).
Defined.

(** C9, as stated, fails: deleting the result is not revert, and it
    drops the last record of the history; loading a new source image
    empties it; and the upscale pass of a generation replaces the
    record that generation had committed. *)
Lemma C9_counterexample :
  (generatedImageHistory baseCommitted = [shot "QUFB"] /\
   exists r, generatedImageHistory afterUpscale = [r] /\
             img_base64 r = "VVBT"%string /\ r <> shot "QUFB") /\
  DeleteResult <> Revert /\
  generatedImageHistory
    (fst (step twoAnswers sampleI18n tick 0 sampleSettings DeleteResult twoShots []))
  = [shot "QQ=="] /\
  ~ (generatedImageHistory twoShots
     `prefix_of`
     generatedImageHistory
       (fst (step twoAnswers sampleI18n tick 0 sampleSettings DeleteResult twoShots []))) /\
  generatedImageHistory
    (fst (step twoAnswers sampleI18n tick 0 sampleSettings
            (FileInput (shot "bmV3")) twoShots []))
  = [].
Proof.
  split.
  { split; [reflexivity|]. eexists. split; [vm_compute; reflexivity|].
    split; [reflexivity | discriminate]. }
  split; [discriminate|]. split; [reflexivity|]. split; [|reflexivity].
  intros [k Hk]. cbn in Hk. discriminate.
Qed.
End OperationsExamples.

(** ** Stroke recorder *)

Section StrokeRecorder.
Import Canvas ImagePanel.
Local Open Scope Q_scope.

Variable toDataURL : Ctx -> string.
Variable offscreen2d : bool.

Lemma lookup_last_two {A} (l : list A) :
  (2 <= length l)%nat ->
  exists a b, l !! (length l - 2)%nat = Some a /\ l !! (length l - 1)%nat = Some b.
Proof.
  intro H.
  destruct (lookup_lt_is_Some_2 l (length l - 2)%nat) as [a Ha]; [lia|].
  destruct (lookup_lt_is_Some_2 l (length l - 1)%nat) as [b Hb]; [lia|].
  now exists a, b.
Qed.

(** What [draw] does while a stroke is under way. *)
Lemma draw_recording clientX clientY s :
  isDrawing s = true -> currentPath s <> [] ->
  exists s',
    draw clientX clientY s = Some s' /\
    isDrawing s' = true /\ isMasking s' = isMasking s /\
    paths s' = paths s /\ imgRef s' = imgRef s /\
    currentPath s'
    = (currentPath s
       ++ match getNormalizedPoint (imgRef s) clientX clientY with
          | Some p => [p]
          | None => []
          end)%list.
Proof.
  intros Hd Hne. unfold draw. rewrite Hd. cbn [negb].
  destruct (getNormalizedPoint (imgRef s) clientX clientY) as [p|].
  - destruct (overlay s) as [ctx|], (imgRef s) as [img|] eqn:Hi;
      try (eexists; repeat split; cbn; now rewrite ?Hd, ?Hi).
    assert (Hlen : (2 <= length (currentPath s ++ [p]))%nat).
    { rewrite length_app. destruct (currentPath s); [congruence | simpl; lia]. }
    destruct (Nat.ltb_spec (length (currentPath s ++ [p])) 2); [lia|].
    destruct (lookup_last_two _ Hlen) as (a & b & -> & ->).
    eexists; repeat split; cbn; now rewrite ?Hd, ?Hi.
  - exists s. rewrite app_nil_r. now repeat split.
Qed.

Lemma onPointer_wellStarted e s :
  wellStarted s ->
  exists s' m, onPointer toDataURL offscreen2d e s = Some (s', m) /\ wellStarted s'.
Proof.
  intro Hs. destruct e as [cx cy|cx cy| |]; cbn [onPointer].
  - eexists _, _. split; [reflexivity|]. unfold startDrawing.
    destruct (getNormalizedPoint _ _ _); [|exact Hs]. now intros _.
  - destruct (isDrawing s) eqn:Hd.
    + destruct (draw_recording cx cy s Hd (Hs Hd)) as (s' & -> & Hd' & _ & _ & _ & Hc).
      eexists _, _. split; [reflexivity|]. intros _. rewrite Hc.
      intro E. apply app_eq_nil in E. destruct E as [E _]. exact (Hs Hd E).
    + unfold draw. rewrite Hd. eexists _, _. split; [reflexivity | exact Hs].
  - exists (fst (stopDrawing toDataURL offscreen2d s)),
           (snd (stopDrawing toDataURL offscreen2d s)).
    split; [now destruct (stopDrawing toDataURL offscreen2d s)|]. unfold stopDrawing.
    destruct (isDrawing s) eqn:Hd; cbn [negb fst]; [|exact Hs].
    destruct (0 <? _)%nat; cbn; discriminate.
  - exists (fst (stopDrawing toDataURL offscreen2d s)),
           (snd (stopDrawing toDataURL offscreen2d s)).
    split; [now destruct (stopDrawing toDataURL offscreen2d s)|]. unfold stopDrawing.
    destruct (isDrawing s) eqn:Hd; cbn [negb fst]; [|exact Hs].
    destruct (0 <? _)%nat; cbn; discriminate.
Qed.

(** X1. From a state in which a stroke under way has its first point
    (as after mounting, when no stroke is under way), no sequence of
    pointer events makes a handler raise: every event is handled, and
    the state reached is again of that kind. *)
Theorem pointer_events_never_raise (es : list PointerEvent) (s : Panel) :
  wellStarted s ->
  exists s' masks,
    onPointers toDataURL offscreen2d es s = Some (s', masks) /\ wellStarted s'.
Proof.
  revert s. induction es as [|e es IH]; intros s Hs; cbn [onPointers].
  - now exists s, [].
  - destruct (onPointer_wellStarted e s Hs) as (s1 & m & -> & Hs1).
    destruct (IH s1 Hs1) as (s2 & ms & -> & Hs2).
    eexists _, _. split; [reflexivity | exact Hs2].
Qed.

(** X3. A second [stopDrawing] (the pointer leaving the canvas after
    the button was released) changes nothing and calls [onMaskChange]
    no more. *)
Theorem stopDrawing_twice (s : Panel) :
  stopDrawing toDataURL offscreen2d (fst (stopDrawing toDataURL offscreen2d s))
  = (fst (stopDrawing toDataURL offscreen2d s), None).
Proof.
  unfold stopDrawing at 2 3.
  destruct (isDrawing s) eqn:Hd; cbn [negb fst].
  - destruct (0 <? length (currentPath (setDrawing false (currentPath s) s)))%nat;
      reflexivity.
  - unfold stopDrawing. now rewrite Hd.
Qed.
End StrokeRecorder.

Section RecordedPoints.
Import Canvas ImagePanel.
Local Open Scope Q_scope.

Variable toDataURL : Ctx -> string.
Variable offscreen2d : bool.

Lemma getNormalizedPoint_unit img clientX clientY p :
  displayed img ->
  getNormalizedPoint (Some img) clientX clientY = Some p -> unitPoint p.
Proof.
  intros Hd. destruct (layout_letterbox img Hd) as (Hrw & Hrh & _).
  unfold getNormalizedPoint. cbv zeta. set (l := layout img) in *.
  destruct (Qlt_bool (clientX - rectLeft img - left l) 0) eqn:Ex1; [discriminate|].
  destruct (Qlt_bool (renderWidth l) (clientX - rectLeft img - left l)) eqn:Ex2;
    [discriminate|].
  destruct (Qlt_bool (clientY - rectTop img - top l) 0) eqn:Ey1; [discriminate|].
  destruct (Qlt_bool (renderHeight l) (clientY - rectTop img - top l)) eqn:Ey2;
    [discriminate|].
  apply Qlt_bool_false in Ex1, Ex2, Ey1, Ey2. cbn [orb]. intros [= <-].
  unfold unitPoint. cbn [x y]. repeat split.
  - apply Qle_shift_div_l; lra.
  - apply Qle_shift_div_r; lra.
  - apply Qle_shift_div_l; lra.
  - apply Qle_shift_div_r; lra.
Qed.

(** What a [draw] that returns may have changed. *)
Lemma draw_changes clientX clientY s s' :
  draw clientX clientY s = Some s' ->
  imgRef s' = imgRef s /\ paths s' = paths s /\ isDrawing s' = isDrawing s /\
  (currentPath s' = currentPath s \/
   exists p, getNormalizedPoint (imgRef s) clientX clientY = Some p /\
             currentPath s' = (currentPath s ++ [p])%list).
Proof.
  unfold draw. destruct (isDrawing s) eqn:Hd; cbn [negb].
  - destruct (getNormalizedPoint (imgRef s) clientX clientY) as [p|];
      [|intros [= <-]; repeat (split; [now rewrite ?Hd|]); now left].
    destruct (overlay s) as [ctx|], (imgRef s) as [img|] eqn:Hi;
      try (intros [= <-]; cbn; rewrite ?Hd, ?Hi;
           repeat (split; [reflexivity|]); right; now exists p).
    destruct (length (currentPath s ++ [p]) <? 2)%nat; [discriminate|].
    destruct (_ !! _) as [p1|]; [|discriminate].
    destruct (_ !! _) as [p2|]; [|discriminate].
    intros [= <-]; cbn; rewrite ?Hd, ?Hi;
      repeat (split; [reflexivity|]); right; now exists p.
  - intros [= <-]. repeat (split; [now rewrite ?Hd|]). now left.
Qed.

Lemma onPointer_normalized e s s' m :
  (forall img, imgRef s = Some img -> displayed img) ->
  normalizedPanel s ->
  onPointer toDataURL offscreen2d e s = Some (s', m) ->
  imgRef s' = imgRef s /\ normalizedPanel s'.
Proof.
  intros Himg [Hcur Hpaths]. destruct e as [cx cy|cx cy| |]; cbn [onPointer].
  - intros [= <- _]. unfold startDrawing.
    destruct (getNormalizedPoint (imgRef s) cx cy) as [p|] eqn:Hp.
    + split; [reflexivity|]. split; cbn; [|exact Hpaths].
      constructor; [|constructor].
      destruct (imgRef s) as [img|] eqn:Hi; [|discriminate].
      exact (getNormalizedPoint_unit img cx cy p (Himg img eq_refl) Hp).
    + split; [reflexivity | now split].
  - destruct (draw cx cy s) as [s1|] eqn:Hdraw; [|discriminate]. intros [= <- _].
    destruct (draw_changes cx cy s s1 Hdraw) as (Hi & Hp & _ & Hc).
    split; [exact Hi|]. split; [|now rewrite Hp].
    destruct Hc as [->|(p & Hnp & ->)]; [exact Hcur|].
    apply Forall_app. split; [exact Hcur|]. constructor; [|constructor].
    destruct (imgRef s) as [img|] eqn:Hi'; [|discriminate].
    exact (getNormalizedPoint_unit img cx cy p (Himg img eq_refl) Hnp).
  - unfold stopDrawing. destruct (isDrawing s); cbn [negb].
    + destruct (0 <? _)%nat; intros [= <- _]; cbn; (split; [reflexivity|]).
      * split; [constructor|]. apply Forall_app. split; [exact Hpaths|].
        constructor; [exact Hcur | constructor].
      * split; [constructor | exact Hpaths].
    + intros [= <- _]. split; [reflexivity | now split].
  - unfold stopDrawing. destruct (isDrawing s); cbn [negb].
    + destruct (0 <? _)%nat; intros [= <- _]; cbn; (split; [reflexivity|]).
      * split; [constructor|]. apply Forall_app. split; [exact Hpaths|].
        constructor; [exact Hcur | constructor].
      * split; [constructor | exact Hpaths].
    + intros [= <- _]. split; [reflexivity | now split].
Qed.

(** X2. Over a displayed image, the pointer handlers record only points
    of the unit square: if every point of the stroke under way and of
    the finished paths is one, so is every point after any sequence of
    pointer events. *)
Theorem recorded_points_normalized (es : list PointerEvent) (s s' : Panel)
  (masks : list (option string)) :
  (forall img, imgRef s = Some img -> displayed img) ->
  normalizedPanel s ->
  onPointers toDataURL offscreen2d es s = Some (s', masks) ->
  normalizedPanel s'.
Proof.
  revert s masks. induction es as [|e es IH]; intros s masks Himg Hs; cbn [onPointers].
  - now intros [= <- _].
  - destruct (onPointer toDataURL offscreen2d e s) as [[s1 m]|] eqn:He; [|discriminate].
    destruct (onPointer_normalized e s s1 m Himg Hs He) as [Hi Hs1].
    destruct (onPointers toDataURL offscreen2d es s1) as [[s2 ms]|] eqn:Hes;
      [|discriminate].
    intros [= <- _]. apply (IH s1 ms); [|exact Hs1|exact Hes].
    intros img. rewrite Hi. apply Himg.
Qed.

Lemma accepted_cons imgRef clientX clientY (moves : list (Q * Q)) :
  accepted imgRef ((clientX, clientY) :: moves)
  = match getNormalizedPoint imgRef clientX clientY with
    | Some p => p :: accepted imgRef moves
    | None => accepted imgRef moves
    end.
Proof. reflexivity. Qed.

(** The moves of a stroke under way. *)
Lemma moves_recorded img (moves : list (Q * Q)) (rest : list PointerEvent) :
  forall s,
    isDrawing s = true -> currentPath s <> [] -> imgRef s = Some img ->
    exists s1,
      onPointers toDataURL offscreen2d
        (map (fun xy => MouseMove (fst xy) (snd xy)) moves ++ rest)%list s
      = onPointers toDataURL offscreen2d rest s1 /\
      isDrawing s1 = true /\ paths s1 = paths s /\ imgRef s1 = Some img /\
      isMasking s1 = isMasking s /\
      currentPath s1 = (currentPath s ++ accepted (Some img) moves)%list.
Proof.
  induction moves as [|[cx cy] moves IH]; intros s Hd Hne Hi.
  - exists s. cbn. rewrite app_nil_r. now repeat split.
  - destruct (draw_recording cx cy s Hd Hne) as (s1 & Hdraw & Hd1 & Hm1 & Hp1 & Hi1 & Hc1).
    destruct (IH s1) as (s2 & Hrun & Hd2 & Hp2 & Hi2 & Hm2 & Hc2).
    + exact Hd1.
    + rewrite Hc1. intro E. apply app_eq_nil in E. now destruct E.
    + now rewrite Hi1.
    + exists s2. split.
      * cbn [map app onPointers onPointer fst snd]. rewrite Hdraw.
        rewrite Hrun. now destruct (onPointers toDataURL offscreen2d rest s2) as [[? ?]|].
      * repeat split; try congruence.
        rewrite Hc2, Hc1, Hi, accepted_cons.
        destruct (getNormalizedPoint (Some img) cx cy); now rewrite <- app_assoc.
Qed.

(** X4. A press on the image, any moves, and a release add exactly one
    path to the set: the point of the press followed, in order, by the
    points of the moves that fell on the image (the others are dropped);
    the mask is exported once, from the new set, and the recorder is
    idle again. *)
Theorem stroke_records_accepted_points (s : Panel) (img : Img) (clientX clientY : Q)
  (p0 : Point) (moves : list (Q * Q)) :
  imgRef s = Some img ->
  getNormalizedPoint (Some img) clientX clientY = Some p0 ->
  let newPaths :=
    (paths s ++ [mkPath (p0 :: accepted (Some img) moves) (5 # 100)])%list in
  exists s',
    onPointers toDataURL offscreen2d
      (MouseDown clientX clientY
       :: map (fun xy => MouseMove (fst xy) (snd xy)) moves ++ [MouseUp])%list s
    = Some (s', match exportMask toDataURL offscreen2d (Some img) newPaths with
                | Some v => [v]
                | None => []
                end) /\
    paths s' = newPaths /\ isDrawing s' = false /\ currentPath s' = [].
Proof.
  intros Hi Hp newPaths. cbn [onPointers onPointer].
  unfold startDrawing. rewrite Hi, Hp.
  destruct (moves_recorded img moves [MouseUp] (setDrawing true [p0] s))
    as (s1 & Hrun & Hd1 & Hp1 & Hi1 & _ & Hc1); [reflexivity | discriminate | exact Hi|].
  rewrite Hrun. cbn [onPointers onPointer]. unfold stopDrawing.
  rewrite Hd1. cbn [negb setDrawing currentPath paths imgRef].
  rewrite Hc1, Hp1, Hi1. cbn [setDrawing currentPath paths app length Nat.ltb Nat.leb].
  eexists. split; [|split; [|split]].
  - fold newPaths. rewrite app_nil_r. reflexivity.
  - reflexivity.
  - reflexivity.
  - reflexivity.
Qed.
End RecordedPoints.

Section StrokeRecorderExamples.
Import Canvas ImagePanel.
Local Open Scope Q_scope.

Lemma pointer_events_never_raise_witness :
  wellStarted maskingPanel /\
  exists s' masks,
    onPointers pngStub true sampleDrag maskingPanel = Some (s', masks) /\
    wellStarted s'.
Proof.
  assert (H : wellStarted maskingPanel) by (intro E; discriminate E).
  split; [exact H|].
  exact (pointer_events_never_raise pngStub true sampleDrag maskingPanel H).
Defined.

Lemma recorded_points_normalized_witness :
  exists s' masks,
    onPointers pngStub true sampleDrag maskingPanel = Some (s', masks) /\
    normalizedPanel s'.
Proof.
  destruct (onPointers pngStub true sampleDrag maskingPanel) as [[s' masks]|] eqn:E;
    [|vm_compute in E; discriminate E].
  exists s', masks. split; [reflexivity|].
  apply (recorded_points_normalized pngStub true sampleDrag maskingPanel s' masks).
  - intros img [= <-]. repeat split; reflexivity.
  - split; constructor.
  - exact E.
Defined.

Lemma stroke_records_accepted_points_witness :
  exists s' p0 p1 p2,
    onPointers pngStub true
      [MouseDown (40 # 1) (60 # 1); MouseMove (50 # 1) (70 # 1);
       MouseMove (50 # 1) (200 # 1); MouseMove (60 # 1) (80 # 1); MouseUp]
      maskingPanel
    = Some (s', [Some "iVBORw0KGgo="%string]) /\
    paths s' = [mkPath [p0; p1; p2] (5 # 100)].
Proof.
  edestruct (stroke_records_accepted_points pngStub true maskingPanel wideImg
               (40 # 1) (60 # 1) _
               [(50 # 1, 70 # 1); (50 # 1, 200 # 1); (60 # 1, 80 # 1)]
               eq_refl eq_refl) as (s' & Hrun & Hpaths & _).
  exists s'. eexists _, _, _. split; [exact Hrun | exact Hpaths].
Defined.
End StrokeRecorderExamples.

(** ** Overlay redraw and the bounds of the mask *)

Section Overlay.
Import Canvas ImagePanel.
Local Open Scope Q_scope.

Lemma strokeOverlayPath_painted img c p :
  overlayStyled img c ->
  overlayStyled img (strokeOverlayPath (layout img) c p) /\
  cwidth (strokeOverlayPath (layout img) c p) = cwidth c /\
  cheight (strokeOverlayPath (layout img) c p) = cheight c /\
  painted (strokeOverlayPath (layout img) c p)
  = (painted c ++ (if strokable p then [overlayStroke img p] else []))%list.
Proof.
  intros (Hs & Hc & Hj & Hl & Ha).
  unfold strokeOverlayPath, strokable, overlayStroke.
  destruct (points p) as [|p0 rest] eqn:Hp.
  - simpl. rewrite app_nil_r. repeat split; assumption.
  - destruct rest as [|p1 rest].
    + simpl. rewrite app_nil_r. repeat split; assumption.
    + change ((length (p0 :: p1 :: rest) <? 2)%nat) with false.
      change ((2 <=? length (p0 :: p1 :: rest))%nat) with true.
      cbv iota. rewrite (stroke_polyline (toCanvas (layout img))).
      unfold overlayStyled. simpl.
      rewrite Hs, Hc, Hj, Hl, Ha. repeat split; reflexivity.
Qed.

Lemma fold_strokeOverlayPath img ps : forall c,
  overlayStyled img c ->
  cwidth (fold_left (strokeOverlayPath (layout img)) ps c) = cwidth c /\
  cheight (fold_left (strokeOverlayPath (layout img)) ps c) = cheight c /\
  painted (fold_left (strokeOverlayPath (layout img)) ps c)
  = (painted c ++ map (overlayStroke img) (List.filter strokable ps))%list.
Proof.
  induction ps as [|p ps IH]; intros c Hc; simpl.
  - rewrite app_nil_r. repeat split.
  - destruct (strokeOverlayPath_painted img c p Hc) as (Hc' & Hw & Hh & Hp).
    destruct (IH _ Hc') as (Hw' & Hh' & Hps).
    rewrite Hw', Hh', Hps, Hw, Hh, Hp. repeat split.
    destruct (strokable p); simpl.
    + now rewrite <- app_assoc.
    + now rewrite app_nil_r.
Qed.

(** X5. With canvas and image in place, [adjustCanvas] leaves an
    overlay of the size of the element on which, after one clear, every
    path of two points or more is stroked once, in order, through the
    same mapping, colour, width (5% of the rendered width) and opacity
    as the live segments of [draw]; shorter paths leave nothing, and
    the recorded paths are not touched. *)
Theorem adjustCanvas_redraws_paths (s : Panel) (img : Img) (old : Ctx) :
  overlay s = Some old -> imgRef s = Some img ->
  exists c,
    overlay (adjustCanvas s) = Some c /\
    cwidth c = width img /\ cheight c = height img /\
    painted c
    = ClearRect 0 0 (inject_Z (width img)) (inject_Z (height img))
      :: map (overlayStroke img) (List.filter strokable (paths s)) /\
    paths (adjustCanvas s) = paths s /\
    currentPath (adjustCanvas s) = currentPath s /\
    isDrawing (adjustCanvas s) = isDrawing s.
Proof.
  intros Ho Hi. unfold adjustCanvas. rewrite Ho, Hi.
  destruct (paths s) as [|p ps] eqn:Hp.
  - eexists. cbn. rewrite Hp. repeat split.
  - change (0 <? length (p :: ps))%nat with true. cbv iota.
    match goal with |- context [fold_left _ _ ?c0] =>
      destruct (fold_strokeOverlayPath img (p :: ps) c0) as (Hw & Hh & Hpaint)
    end.
    { repeat split. }
    eexists. cbn [overlay setOverlay paths currentPath isDrawing].
    split; [reflexivity|]. rewrite Hw, Hh, Hpaint, Hp. repeat split.
Qed.

Lemma adjustCanvas_redraws_paths_witness :
  exists c,
    overlay (adjustCanvas twoPathPanel) = Some c /\
    cwidth c = 100%Z /\
    painted c = [ClearRect 0 0 (100 # 1) (100 # 1); overlayStroke wideImg diagonal].
Proof.
  destruct (adjustCanvas_redraws_paths twoPathPanel wideImg (create 300 150)
              eq_refl eq_refl) as (c & Hc & Hw & _ & Hp & _).
  exists c. repeat split; assumption.
Defined.

(** X6. When the recorded points are points of the unit square, every
    vertex of every stroke of the mask lies on the bitmap of the
    raster. *)
Theorem mask_strokes_on_bitmap (img : Img) (currentPaths : list Path) :
  (0 <= naturalWidth img)%Z -> (0 <= naturalHeight img)%Z ->
  Forall (fun q => Forall unitPoint (points q)) currentPaths ->
  Forall (fun q => Forall (fun pt => onBitmap (rasterize img currentPaths) pt = true)
                          (scaled img q))
         currentPaths.
Proof.
  intros Hw Hh Hall.
  destruct (rasterize_spec img currentPaths) as (Hcw & Hch & _).
  assert (HW : 0 <= inject_Z (naturalWidth img)) by (unfold Qle; simpl; lia).
  assert (HH : 0 <= inject_Z (naturalHeight img)) by (unfold Qle; simpl; lia).
  eapply Forall_impl; [exact Hall|]. intros q Hq. unfold scaled.
  apply Forall_map. eapply Forall_impl; [exact Hq|].
  intros pt [[Hx0 Hx1] [Hy0 Hy1]]. unfold onBitmap, inRect. rewrite Hcw, Hch.
  cbn [fst snd].
  assert (Hxw : x pt * inject_Z (naturalWidth img) <= inject_Z (naturalWidth img)).
  { rewrite <- (Qmult_1_l (inject_Z (naturalWidth img))) at 2.
    apply Qmult_le_compat_r; assumption. }
  assert (Hyh : y pt * inject_Z (naturalHeight img) <= inject_Z (naturalHeight img)).
  { rewrite <- (Qmult_1_l (inject_Z (naturalHeight img))) at 2.
    apply Qmult_le_compat_r; assumption. }
  assert (Hx : 0 <= x pt * inject_Z (naturalWidth img))
    by (apply Qmult_le_0_compat; assumption).
  assert (Hy : 0 <= y pt * inject_Z (naturalHeight img))
    by (apply Qmult_le_0_compat; assumption).
  rewrite !andb_true_iff, !Qle_bool_iff. repeat split; lra.
Qed.

Lemma mask_strokes_on_bitmap_witness :
  Forall (fun q => Forall (fun pt => onBitmap (rasterize wideImg [dot; diagonal]) pt = true)
                          (scaled wideImg q))
         [dot; diagonal].
Proof.
  apply (mask_strokes_on_bitmap wideImg [dot; diagonal]).
  - simpl. lia.
  - simpl. lia.
  - repeat constructor; vm_compute; discriminate.
Defined.
End Overlay.

(** ** Downloads, file reading, toasts and the comparison slider *)

Section SmallComponents.
Import Canvas ImagePanel.
Local Open Scope Q_scope.

(** X7. [handleSplitAndSave] cuts three bands named front, side and
    back that tile the width of the image: the first starts at 0, each
    next one starts where the previous ends, the last ends at the full
    width, and all span the full height.  Each band is drawn on a
    canvas whose width is the whole part of a third of the width. *)
Theorem split_bands_tile_the_image (url : string) (w h : Z) (now : nat -> Z) :
  exists b0 b1 b2,
    handleSplitAndSave (Some url) w h now true = [b0; b1; b2] /\
    (sx b0 == 0 /\ sx b1 == sx b0 + sWidth b0 /\ sx b2 == sx b1 + sWidth b1 /\
     sx b2 + sWidth b2 == inject_Z w) /\
    Forall (fun b => sy b = 0 /\ sHeight b = inject_Z h /\ canvasHeight b = h /\
                     canvasWidth b = (w / 3)%Z /\
                     inject_Z (canvasWidth b) <= sWidth b /\
                     sWidth b < inject_Z (canvasWidth b) + 1 /\
                     dWidth b = sWidth b /\ dHeight b = sHeight b)
           [b0; b1; b2] /\
    map bandName [b0; b1; b2]
    = [("character_front_" ++ Str.ofNumber (now 0%nat) ++ ".png")%string;
       ("character_side_" ++ Str.ofNumber (now 1%nat) ++ ".png")%string;
       ("character_back_" ++ Str.ofNumber (now 2%nat) ++ ".png")%string].
Proof.
  eexists _, _, _. split; [reflexivity|]. cbn [sx sWidth].
  split; [repeat split; field|].
  assert (Hfl : Qfloor (inject_Z w / 3) = (w / 3)%Z).
  { change 3 with (inject_Z 3). now rewrite <- Zdiv_Qdiv. }
  assert (Hle : inject_Z (Qfloor (inject_Z w / 3)) <= inject_Z w / 3)
    by apply Qfloor_le.
  assert (Hlt : inject_Z w / 3 < inject_Z (Qfloor (inject_Z w / 3)) + 1).
  { pose proof (Qlt_floor (inject_Z w / 3)) as H. rewrite inject_Z_plus in H. exact H. }
  split; [|reflexivity].
  repeat constructor; cbn [sy sHeight canvasHeight canvasWidth sWidth dWidth dHeight];
    assumption.
Qed.

(** Without an image URL, or without a 2D context, nothing is saved. *)
Lemma split_without_image (w h : Z) (now : nat -> Z) (url : option string) :
  handleSplitAndSave None w h now true = [] /\
  handleSplitAndSave url w h now false = [].
Proof. split; [reflexivity | now destruct url]. Qed.
End SmallComponents.

Section FileNames.
Local Open Scope string_scope.

Lemma lower_is_not_upper (c : ascii) : isUpper (Str.lowerAscii c) = false.
Proof. destruct c as [[] [] [] [] [] [] [] []]; reflexivity. Qed.

Lemma lower_keeps_space (c : ascii) : Str.isSpace (Str.lowerAscii c) = Str.isSpace c.
Proof. destruct c as [[] [] [] [] [] [] [] []]; reflexivity. Qed.

Lemma replaceRuns_clean (test : ascii -> bool) (s : string) :
  test "_"%char = true -> allChars test s = true ->
  forall inRun, allChars test (Str.replaceRuns inRun s) = true.
Proof.
  intros Hu. induction s as [|c r IH]; intros Hs inRun; [reflexivity|].
  cbn [allChars] in Hs. apply andb_true_iff in Hs. destruct Hs as [Hc Hr].
  cbn [Str.replaceRuns]. destruct (Str.isSpace c).
  - destruct inRun; cbn [allChars]; rewrite ?Hu; now apply IH.
  - cbn [allChars]. rewrite Hc. now apply IH.
Qed.

Lemma replaceRuns_no_space (s : string) : forall inRun,
  allChars (fun c => negb (Str.isSpace c)) (Str.replaceRuns inRun s) = true.
Proof.
  induction s as [|c r IH]; intro inRun; [reflexivity|].
  cbn [Str.replaceRuns]. destruct (Str.isSpace c) eqn:E.
  - destruct inRun; cbn [allChars]; now rewrite ?IH.
  - cbn [allChars]. now rewrite E, IH.
Qed.

Lemma toLowerCase_no_upper (s : string) :
  allChars (fun c => negb (isUpper c)) (Str.toLowerCase s) = true.
Proof.
  induction s as [|c r IH]; [reflexivity|].
  cbn [Str.toLowerCase allChars]. now rewrite lower_is_not_upper, IH.
Qed.

(** X8. Whatever the title, the name of a downloaded file is a stem
    with no white space and no capital letter, followed by an
    underscore, the time stamp and ".png"; a title without white space
    is only put in lower case. *)
Theorem download_name_is_clean (title : string) (now : Z) :
  exists stem,
    ImagePanel.downloadName title now = stem ++ "_" ++ Str.ofNumber now ++ ".png" /\
    allChars (fun c => negb (Str.isSpace c)) stem = true /\
    allChars (fun c => negb (isUpper c)) stem = true /\
    (allChars (fun c => negb (Str.isSpace c)) title = true ->
     stem = Str.toLowerCase title).
Proof.
  exists (Str.replaceSpaces (Str.toLowerCase title)). split; [reflexivity|].
  split; [apply replaceRuns_no_space|]. split.
  - apply replaceRuns_clean; [reflexivity | apply toLowerCase_no_upper].
  - unfold Str.replaceSpaces. generalize false.
    induction title as [|c r IH]; intros b Ht; [reflexivity|].
    cbn [allChars] in Ht. apply andb_true_iff in Ht. destruct Ht as [Hc Hr].
    cbn [Str.toLowerCase Str.replaceRuns]. rewrite lower_keeps_space.
    apply negb_true_iff in Hc. rewrite Hc. f_equal. now apply IH.
Qed.

Lemma download_name_is_clean_witness :
  ImagePanel.downloadName "Generated  Image" 1730561234567
  = "generated_image_1730561234567.png" /\
  ImagePanel.downloadName "Source" 5 = "source_5.png".
Proof.
  split; [reflexivity|].
  destruct (download_name_is_clean "Source" 5) as (stem & Hn & _ & _ & Hs).
  rewrite Hn, (Hs eq_refl). reflexivity.
Defined.

Lemma includes_char_app (sep : ascii) (a b : string) :
  Str.includes (String sep EmptyString) (a ++ b)
  = Str.includes (String sep EmptyString) a || Str.includes (String sep EmptyString) b.
Proof.
  induction a as [|c a IH]; [now destruct b|].
  cbn [append Str.includes String.prefix]. rewrite IH.
  assert (Hnil : forall s, String.prefix EmptyString s = true) by (intros []; reflexivity).
  destruct (ascii_dec sep c); [|reflexivity].
  now rewrite !Hnil.
Qed.

Lemma split_at_sep (sep : ascii) (a b : string) :
  free sep a -> free sep b ->
  Str.split sep (a ++ String sep b) = [a; b].
Proof.
  unfold free. intros Ha Hb. induction a as [|c a IH].
  - cbn [append Str.split]. rewrite Ascii.eqb_refl. now rewrite (split_no_sep sep b Hb).
  - cbn [Str.includes String.prefix] in Ha.
    destruct (ascii_dec sep c) as [->|Hne]; [now destruct a|].
    cbn [append Str.split]. rewrite (IH Ha).
    destruct (Ascii.eqb_spec c sep) as [->|_]; [congruence | reflexivity].
Qed.

(** X9. [fileToImageSource] keeps the data URL it read as [url] and
    the type of the file as [mimeType], and takes as [base64] the
    payload of the URL, that is the text after its comma, when neither
    the media type nor the payload contains a comma; a failed read is
    rejected with a fixed message.  In particular the image URL that
    the service layer builds for a result decodes to the result's own
    base64 data. *)
Theorem fileToImageSource_reads_payload (mime payload fileType : string) :
  free ","%char mime -> free ","%char payload ->
  App.fileToImageSource (Some (dataUrlOf mime payload)) fileType
  = inr (App.mkLoaded (dataUrlOf mime payload) (Some payload) fileType) /\
  dataUrl (GeminiService.mkInline payload mime) = dataUrlOf mime payload /\
  App.fileToImageSource None fileType = inl "Failed to read image file".
Proof.
  intros Hm Hp. split; [|split; reflexivity].
  unfold App.fileToImageSource, dataUrlOf. f_equal. f_equal.
  change ("data:" ++ mime ++ ";base64," ++ payload)
    with ("data:" ++ (mime ++ ";base64" ++ String ","%char payload)).
  replace ("data:" ++ mime ++ ";base64" ++ String ","%char payload)
    with (("data:" ++ mime ++ ";base64") ++ String ","%char payload).
  - rewrite split_at_sep; [reflexivity| |exact Hp].
    unfold free. change ("data:" ++ mime ++ ";base64") with ("data:" ++ (mime ++ ";base64")).
    rewrite !includes_char_app. unfold free in Hm. rewrite Hm. reflexivity.
  - change ("data:" ++ mime ++ ";base64") with ("data:" ++ (mime ++ ";base64")).
    rewrite !append_assoc. reflexivity.
Qed.

Lemma fileToImageSource_reads_payload_witness :
  App.fileToImageSource (Some "data:image/png;base64,iVBORw0KGgo=") "image/png"
  = inr (App.mkLoaded "data:image/png;base64,iVBORw0KGgo=" (Some "iVBORw0KGgo=")
                      "image/png").
Proof.
  exact (proj1 (fileToImageSource_reads_payload "image/png" "iVBORw0KGgo=" "image/png"
                  eq_refl eq_refl)).
Defined.
End FileNames.

Section Toasts.
Import ToastContext.

(** X10. When the id of a toast is new as the toast is shown, showing
    it and letting its timer fire gives back the list of toasts as it
    was, and no toast with that id is left. *)
Theorem toast_timer_removes_its_toast (newId message : string)
  (type : option App.ToastType) (toasts : list Toast) :
  Forall (fun t => id t <> newId) toasts ->
  dismiss newId (showToast newId message type toasts) = toasts /\
  Forall (fun t => id t <> newId) (dismiss newId (showToast newId message type toasts)).
Proof.
  intro Hfresh.
  assert (H : dismiss newId (showToast newId message type toasts) = toasts).
  { unfold dismiss, showToast. rewrite List.filter_app. cbn [List.filter id].
    rewrite String.eqb_refl. cbn [negb]. rewrite app_nil_r.
    induction Hfresh as [|t ts Ht _ IH]; [reflexivity|].
    cbn [List.filter]. apply String.eqb_neq in Ht. rewrite Ht. cbn [negb].
    now rewrite IH. }
  split; [exact H | now rewrite H].
Qed.

Lemma toast_timer_removes_its_toast_witness :
  dismiss "k3j9x"
    (showToast "k3j9x" "Saved" (Some App.success)
       [mkToast "a81bz" "Generating" App.info])
  = [mkToast "a81bz" "Generating" App.info].
Proof.
  apply (toast_timer_removes_its_toast "k3j9x" "Saved" (Some App.success)).
  repeat constructor. discriminate.
Defined.
End Toasts.

Section Slider.
Import Canvas CompareSlider.
Local Open Scope Q_scope.

(** X11. For a container of positive width, [handleMove] sets a
    position between 0 and 100: the exact percentage of the pointer
    across the container while the pointer is over it, 0 to its left
    and 100 to its right.  Without a container the position is kept. *)
Theorem slider_position_clamped (rectLeft rectWidth clientX position : Q) :
  0 < rectWidth ->
  let p := handleMove (Some (rectLeft, rectWidth)) clientX position in
  0 <= p <= 100 /\
  (rectLeft <= clientX <= rectLeft + rectWidth ->
   p == (clientX - rectLeft) / rectWidth * 100) /\
  (clientX <= rectLeft -> p == 0) /\
  (rectLeft + rectWidth <= clientX -> p == 100) /\
  handleMove None clientX position = position.
Proof.
  intros Hw p. unfold p, handleMove, jsMax, jsMin.
  set (u := (clientX - rectLeft) / rectWidth).
  assert (Hu0 : rectLeft <= clientX -> 0 <= u)
    by (intro; apply Qle_shift_div_l; lra).
  assert (Hu0' : clientX <= rectLeft -> u <= 0).
  { intro. apply Qle_shift_div_r; lra. }
  assert (Hu1 : clientX <= rectLeft + rectWidth -> u <= 1)
    by (intro; apply Qle_shift_div_r; lra).
  assert (Hu1' : rectLeft + rectWidth <= clientX -> 1 <= u)
    by (intro; apply Qle_shift_div_l; lra).
  assert (E0 : Qlt_bool 0 100 = true) by reflexivity.
  destruct (Qlt_bool (u * 100) 100) eqn:E1;
    [apply Qlt_bool_iff in E1 | apply Qlt_bool_false in E1; rewrite E0];
    [destruct (Qlt_bool 0 (u * 100)) eqn:E2;
       [apply Qlt_bool_iff in E2 | apply Qlt_bool_false in E2]|];
    repeat split; intros;
    repeat match goal with H : _ /\ _ |- _ => destruct H end;
    try (assert (0 <= u) by (apply Hu0; lra));
    try (assert (u <= 0) by (apply Hu0'; lra));
    try (assert (u <= 1) by (apply Hu1; lra));
    try (assert (1 <= u) by (apply Hu1'; lra));
    lra.
Qed.

Lemma slider_position_clamped_witness :
  handleMove (Some (10 # 1, 200 # 1)) (60 # 1) (50 # 1) == 25 # 1 /\
  handleMove (Some (10 # 1, 200 # 1)) (500 # 1) (50 # 1) == 100 # 1.
Proof.
  assert (Hw : 0 < 200 # 1) by reflexivity.
  split.
  - destruct (slider_position_clamped (10 # 1) (200 # 1) (60 # 1) (50 # 1) Hw)
      as (_ & H & _).
    rewrite H; [reflexivity | split; vm_compute; discriminate].
  - destruct (slider_position_clamped (10 # 1) (200 # 1) (500 # 1) (50 # 1) Hw)
      as (_ & _ & _ & H & _).
    apply H. vm_compute; discriminate.
Defined.
End Slider.

(** ** Service layer: the request *)

Section Request.
Import GeminiService.
Local Open Scope list_scope.

Lemma nonEmpty_append_r (a b : string) :
  Str.nonEmpty b = true -> Str.nonEmpty (a ++ b)%string = true.
Proof. intro H. destruct a; [exact H | reflexivity]. Qed.

(** X12. The parts of a request are, in this order: the source image,
    the mask as PNG when one is given, the assets, the style
    references, and last the prompt, the only text part.  A given mask
    is the second part exactly when the prompt carries the note about
    "the second image"; without a mask the source is followed by the
    assets at once. *)
Theorem request_parts_layout (a : EditArgs) :
  let ps := parts (buildRequest a) in
  ps !! 0%nat = Some (InlinePart (mkInline (base64ImageData a) (mimeType a))) /\
  last ps = Some (TextPart (finalPrompt a)) /\
  (forall i txt, ps !! i = Some (TextPart txt) -> i = (length ps - 1)%nat) /\
  (Str.truthy (maskImage a) = true ->
   exists m,
     maskImage a = Some m /\
     ps = InlinePart (mkInline (base64ImageData a) (mimeType a))
          :: InlinePart (mkInline m "image/png")
          :: refParts (assets a) ++ refParts (styleReferences a)
          ++ [TextPart (finalPrompt a)] /\
     finalPrompt a = withStructure a (withAesthetics a ++ maskNote)%string) /\
  (Str.truthy (maskImage a) = false ->
   ps = InlinePart (mkInline (base64ImageData a) (mimeType a))
        :: refParts (assets a) ++ refParts (styleReferences a)
        ++ [TextPart (finalPrompt a)]).
Proof.
  intro ps. unfold ps, buildRequest. cbn [parts].
  assert (Hrefs : forall refs i txt, refParts refs !! i <> Some (TextPart txt)).
  { intros [l|] i txt; cbn [refParts]; [|now rewrite lookup_nil].
    rewrite list_lookup_fmap. now destruct (l !! i). }
  assert (Himg : forall i txt, imageParts a !! i <> Some (TextPart txt)).
  { intros i txt. unfold imageParts.
    destruct i as [|i]; [discriminate|]. cbn [app lookup list_lookup].
    destruct (Str.truthy (maskImage a)), (maskImage a) as [m|]; cbn [app];
      try (destruct i as [|i]; [discriminate|]; cbn [lookup list_lookup]);
      intro H; apply lookup_app_Some in H;
      destruct H as [H|[_ H]]; now apply Hrefs in H. }
  split; [reflexivity|]. split; [apply last_snoc|]. split.
  - intros i txt H. apply lookup_app_Some in H. destruct H as [H|[Hle H]].
    + now apply Himg in H.
    + rewrite length_app. cbn [length].
      destruct (i - length (imageParts a))%nat as [|k] eqn:E; [lia|].
      now rewrite lookup_cons, lookup_nil in H.
  - unfold imageParts, finalPrompt, withMaskInstructions. split.
    + intro Hm. rewrite Hm. destruct (maskImage a) as [m|]; [|discriminate].
      exists m. split; [reflexivity|]. split; [|reflexivity].
      cbn [app]. now rewrite <- !app_assoc.
    + intro Hm. rewrite Hm. cbn [app]. now rewrite <- !app_assoc.
Qed.

Lemma request_parts_layout_witness :
  parts (buildRequest fullArgs)
  = [InlinePart (mkInline "c291cmNl" "image/jpeg");
     InlinePart (mkInline "bWFzaw==" "image/png");
     InlinePart (mkInline "YXNzZXQx" "image/png");
     InlinePart (mkInline "YXNzZXQy" "image/webp");
     InlinePart (mkInline "c3R5bGU=" "image/png");
     TextPart (finalPrompt fullArgs)] /\
  parts (buildRequest plainArgs)
  = [InlinePart (mkInline "c291cmNl" "image/png"); TextPart (finalPrompt plainArgs)].
Proof.
  split.
  - destruct (request_parts_layout fullArgs) as (_ & _ & _ & H & _).
    destruct (H eq_refl) as (m & Hm & Hps & _). injection Hm as <-. exact Hps.
  - destruct (request_parts_layout plainArgs) as (_ & _ & _ & _ & H).
    exact (H eq_refl).
Defined.

(** X13. The prompt of a request ends with exactly one structure
    instruction, chosen by the weight alone: the one that frees the
    pose below 30, the strict one above 70, the balanced one from 30 to
    70, both ends included; so the prompt sent is never empty, whatever
    the text given. *)
Theorem prompt_ends_with_structure_instruction (a : EditArgs) :
  let body := withMaskInstructions a (withAesthetics a) in
  finalPrompt a
  = (body ++ (if (structureWeight a <? 30)%Z then structureLow
              else if (70 <? structureWeight a)%Z then structureHigh
              else structureBalanced))%string /\
  ((30 <= structureWeight a <= 70)%Z -> finalPrompt a = (body ++ structureBalanced)%string) /\
  Str.nonEmpty (finalPrompt a) = true.
Proof.
  intro body. unfold finalPrompt, withStructure. fold body.
  split; [|split].
  - destruct (structureWeight a <? 30)%Z; [reflexivity|].
    now destruct (70 <? structureWeight a)%Z.
  - intros [H1 H2].
    destruct (Z.ltb_spec (structureWeight a) 30); [lia|].
    destruct (Z.ltb_spec 70 (structureWeight a)); [lia | reflexivity].
  - destruct (structureWeight a <? 30)%Z; [now apply nonEmpty_append_r|].
    destruct (70 <? structureWeight a)%Z; now apply nonEmpty_append_r.
Qed.

Lemma prompt_ends_with_structure_instruction_witness :
  finalPrompt (mkArgs "c291cmNl" "image/png" EmptyString None None K1 R1_1
                      (Some "bWFzaw=="%string) 70 None)
  = (maskNote ++ structureBalanced)%string.
Proof.
  destruct (prompt_ends_with_structure_instruction
              (mkArgs "c291cmNl" "image/png" EmptyString None None K1 R1_1
                      (Some "bWFzaw=="%string) 70 None)) as (_ & H & _).
  rewrite H; [reflexivity | cbn; lia].
Defined.

(** X14. In the 2K and 4K modes the prompt always mentions
    "hyper-realistic" once the aesthetics step is done: the token list
    is appended unless the trimmed text mentions it already, in any
    letter case, and then the text is only trimmed; in the 1K mode the
    text is only trimmed. *)
Theorem high_quality_prompt_is_hyper_realistic (a : EditArgs) :
  (isHighQuality (imageSize a) = true ->
   Str.includes "hyper-realistic" (Str.toLowerCase (withAesthetics a)) = true /\
   (Str.includes "hyper-realistic" (Str.toLowerCase (Str.trim (prompt a))) = true ->
    withAesthetics a = Str.trim (prompt a)) /\
   (Str.includes "hyper-realistic" (Str.toLowerCase (Str.trim (prompt a))) = false ->
    withAesthetics a = (Str.trim (prompt a) ++ ", " ++ FLUX_AESTHETIC_TOKENS)%string)) /\
  (isHighQuality (imageSize a) = false -> withAesthetics a = Str.trim (prompt a)).
Proof.
  unfold withAesthetics. split.
  - intros ->.
    destruct (Str.includes "hyper-realistic" (Str.toLowerCase (Str.trim (prompt a))))
      eqn:E; cbn [negb].
    + now repeat split.
    + split; [|split; [discriminate | reflexivity]].
      rewrite !toLowerCase_append. apply includes_of_Contains.
      apply Contains_append_l, Contains_append_l.
      exists EmptyString.
      exists (Str.toLowerCase " photography, 8k resolution, incredible details, highly detailed texture, 35mm film grain, masterpiece, sharp focus, professional lighting, cinematic color grading, depth of field, ray tracing, authentic look, unreal engine 5 render").
      vm_compute. reflexivity.
  - now intros ->.
Qed.

Lemma high_quality_prompt_is_hyper_realistic_witness :
  withAesthetics fullArgs = ("Make the hat red, " ++ FLUX_AESTHETIC_TOKENS)%string /\
  withAesthetics plainArgs = "make the hat red"%string.
Proof.
  split.
  - destruct (high_quality_prompt_is_hyper_realistic fullArgs) as [H _].
    destruct (H eq_refl) as (_ & _ & H'). rewrite (H' eq_refl). reflexivity.
  - destruct (high_quality_prompt_is_hyper_realistic plainArgs) as [_ H].
    rewrite (H eq_refl). reflexivity.
Defined.

(** X15. Whatever the remote model does, one [editImage] sends the same
    request once or twice: the trace gains either one call, or a call,
    one wait of 2000 ms and a second call, and nothing else. *)
Theorem editImage_calls_at_most_twice (service : nat -> GenRequest -> Outcome)
  (a : EditArgs) (tr : Trace) :
  snd (editImage service a tr) = tr ++ [Call (buildRequest a)] \/
  snd (editImage service a tr)
  = tr ++ [Call (buildRequest a); Sleep 2000; Call (buildRequest a)].
Proof.
  unfold editImage. cbn [retryLoop maxRetries Nat.leb Nat.ltb].
  destruct (attemptOf (service _ _)) as [e1|r]; [|now left].
  destruct (isTransientError (messageOf e1)); cbn [andb]; [|now left].
  right. destruct (attemptOf (service _ _)) as [e2|r]; cbn [snd].
  - rewrite andb_false_r. cbn [snd]. now rewrite <- !app_assoc.
  - now rewrite <- !app_assoc.
Qed.
End Request.

(** ** Outcomes of a generation *)

Section Outcomes.
Import GeminiService Composer App.
Local Open Scope list_scope.

Lemma waited_app (t1 t2 : Trace) : waited (t1 ++ t2) = (waited t1 + waited t2)%Z.
Proof.
  induction t1 as [|[req|ms] t1 IH]; cbn [app waited fold_right]; [reflexivity| |];
    fold (waited (t1 ++ t2)); fold (waited t1); rewrite IH; lia.
Qed.

(** What one [editImage] adds to the trace. *)
Lemma editImage_added service (a : EditArgs) (tr : Trace) :
  exists more,
    snd (editImage service a tr) = tr ++ more /\
    (callsOf more = [buildRequest a] /\ waited more = 0%Z \/
     callsOf more = [buildRequest a; buildRequest a] /\ waited more = 2000%Z).
Proof.
  unfold editImage. cbn [retryLoop maxRetries Nat.leb Nat.ltb].
  destruct (attemptOf (service _ _)) as [e1|r];
    [|exists [Call (buildRequest a)]; now split; [|left]].
  destruct (isTransientError (messageOf e1)); cbn [andb];
    [|exists [Call (buildRequest a)]; now split; [|left]].
  exists [Call (buildRequest a); Sleep 2000; Call (buildRequest a)].
  split; [|now right].
  destruct (attemptOf (service _ _)) as [e2|r]; cbn [snd].
  - rewrite andb_false_r. cbn [snd]. now rewrite <- !app_assoc.
  - now rewrite <- !app_assoc.
Qed.

Variable service : nat -> GenRequest -> Outcome.
Variable t : I18n.
Variable dateNow : Trace -> Z.
Variable random : Q.
Variable cfg : Settings.

(** The first call of a generation that passes the two preconditions. *)
Lemma executeGeneration_started targetPrompt size aspectRatio osr osw seed s tr src :
  sourceImage s = Some src -> hasApiKey cfg = true ->
  executeGeneration service t dateNow random cfg targetPrompt size aspectRatio
                    osr osw seed s tr
  = let s0 := setError None (setIsUpscaling false (setIsGenerating true s)) in
    match editImage service
            (firstArgs random cfg targetPrompt size aspectRatio osr osw seed s src) tr with
    | (inr result, tr1) =>
        match recordOf dateNow result (firstPromptText random cfg targetPrompt) tr1
                (isAngle (selectedAngle (selections cfg)) sheet) with
        | Some newImg =>
            if ImageSize_eqb size K4 then
              let '(s', tr') := upscalePass service dateNow cfg targetPrompt
                                  (composedPrompt (selections cfg) targetPrompt random)
                                  aspectRatio (styleRefsOf cfg osr) seed newImg
                                  (committed newImg s) tr1 in
              (Some newImg, s', tr')
            else (Some newImg, committed newImg s, tr1)
        | None => (None, setIsGenerating false s0, tr1)
        end
    | (inl message, tr1) => (None, onGenerationError t message s0, tr1)
    end.
Proof.
  intros Hsrc Hkey. unfold executeGeneration. rewrite Hsrc, Hkey. reflexivity.
Qed.

(** X16. A generation asked for without a source image, or without an
    API key, stops before anything else: no remote call is made, the
    history, the current record and the progress flags stay as they
    are, the error state is set and one error notice is shown.  The
    missing source is reported first; the missing key opens the key
    dialog as well. *)
Theorem generation_preconditions_fail_fast targetPrompt size aspectRatio osr osw seed
  (s : Session) (tr : Trace) :
  sourceImage s = None \/ hasApiKey cfg = false ->
  exists s' notice,
    executeGeneration service t dateNow random cfg targetPrompt size aspectRatio
                      osr osw seed s tr = (None, s', tr) /\
    generatedImageHistory s' = generatedImageHistory s /\
    currentGeneratedImage s' = currentGeneratedImage s /\
    isGenerating s' = isGenerating s /\ isUpscaling s' = isUpscaling s /\
    toasts s' = toasts s ++ [(notice, error)] /\
    errorState s'
    = Some (match sourceImage s with
            | Some _ => "API Key Required"
            | None => "Upload a source image."
            end)%string /\
    isKeyModalOpen s'
    = match sourceImage s with Some _ => true | None => isKeyModalOpen s end.
Proof.
  intro H. unfold executeGeneration.
  destruct (sourceImage s) as [src|].
  - destruct H as [H|H]; [discriminate|]. rewrite H. cbn [negb].
    eexists _, _. repeat split.
  - eexists _, _. repeat split.
Qed.

(** X17. When the first call of a generation fails, nothing of the
    images changes: the history, the current record, the source and
    the mask stay as they are, no further call is made (also for the
    ultra tier), both progress flags are down, the error state holds
    the busy text, the message or "Unknown error", and one error
    notice is shown, the busy text or else the generic failure text. *)
Theorem failed_generation_keeps_images targetPrompt size aspectRatio osr osw seed
  (s : Session) (tr : Trace) (src : ImageSource) (message : string) (tr1 : Trace) :
  sourceImage s = Some src -> hasApiKey cfg = true ->
  editImage service (firstArgs random cfg targetPrompt size aspectRatio osr osw seed s src) tr
    = (inl message, tr1) ->
  exists s' shown notice,
    executeGeneration service t dateNow random cfg targetPrompt size aspectRatio
                      osr osw seed s tr = (None, s', tr1) /\
    generatedImageHistory s' = generatedImageHistory s /\
    currentGeneratedImage s' = currentGeneratedImage s /\
    sourceImage s' = sourceImage s /\ App.maskImage s' = App.maskImage s /\
    isGenerating s' = false /\ isUpscaling s' = false /\
    errorState s' = Some shown /\
    (shown = serverBusy t \/ shown = message \/ shown = "Unknown error"%string) /\
    toasts s' = toasts s ++ [(notice, error)] /\
    (shown = serverBusy t -> notice = serverBusy t) /\
    (shown <> serverBusy t -> notice = genError t).
Proof.
  intros Hsrc Hkey Hcall.
  rewrite (executeGeneration_started _ _ _ _ _ _ _ _ _ Hsrc Hkey). cbv zeta.
  rewrite Hcall. unfold onGenerationError.
  set (m0 := if Str.nonEmpty message then message else "Unknown error"%string).
  set (shown := if _ : bool then serverBusy t else m0).
  exists (showToast (if String.eqb shown (serverBusy t) then shown else genError t) error
            (setError (Some shown)
               (setIsUpscaling false (setIsGenerating false
                  (setError None (setIsUpscaling false (setIsGenerating true s))))))),
         shown, (if String.eqb shown (serverBusy t) then shown else genError t).
  split; [reflexivity|]. do 7 (split; [reflexivity|]).
  split; [|split; [reflexivity|]].
  - unfold shown. destruct (_ || _ || _); [now left|right].
    unfold m0. destruct (Str.nonEmpty message); [now left | now right].
  - destruct (String.eqb_spec shown (serverBusy t)) as [E|E]; split; intro E';
      congruence.
Qed.

(** X18. When the remote model is overloaded at both attempts of the
    first call (two failures whose messages are transient, the second
    one matching no credential pattern), the generation makes exactly
    those two calls, 2 s apart, also for the ultra tier, and ends with
    the busy text of the language table as error state and as error
    notice. *)
Theorem persistent_overload_reported_busy targetPrompt size aspectRatio osr osw seed
  (s : Session) (tr : Trace) (src : ImageSource) (m1 m2 : string) :
  sourceImage s = Some src -> hasApiKey cfg = true ->
  let req :=
    buildRequest (firstArgs random cfg targetPrompt size aspectRatio osr osw seed s src) in
  service (length (callsOf tr)) req = Throws (ErrorObj m1) ->
  service (S (length (callsOf tr))) req = Throws (ErrorObj m2) ->
  isTransientError m1 = true -> isTransientError m2 = true -> isKeyError m2 = false ->
  exists s',
    executeGeneration service t dateNow random cfg targetPrompt size aspectRatio
                      osr osw seed s tr
    = (None, s', tr ++ [Call req; Sleep 2000; Call req]) /\
    errorState s' = Some (serverBusy t) /\
    toasts s' = toasts s ++ [(serverBusy t, error)].
Proof.
  intros Hsrc Hkey req H1 H2 Ht1 Ht2 Hk2.
  rewrite (executeGeneration_started _ _ _ _ _ _ _ _ _ Hsrc Hkey). cbv zeta.
  rewrite (editImage_retry_fails service _ tr (ErrorObj m1) (ErrorObj m2) H1 Ht1 H2).
  rewrite (surface_busy m2 Ht2 Hk2).
  unfold onGenerationError. cbn [Str.nonEmpty String.eqb Ascii.eqb Bool.eqb orb].
  rewrite String.eqb_refl.
  eexists. repeat split.
Qed.

(** X19. An answer without an image (words only, or no candidate), its
    segments read without failure, ends the generation without any
    feedback: it returns nothing, the error state is empty, no notice
    is shown, the history and the current record stay as they are and
    both progress flags are down; no upscale call follows. *)
Theorem imageless_answer_is_silent targetPrompt size aspectRatio osr osw seed
  (s : Session) (tr : Trace) (src : ImageSource) (resp : Response)
  (segs : list RespPart) :
  sourceImage s = Some src -> hasApiKey cfg = true ->
  let req :=
    buildRequest (firstArgs random cfg targetPrompt size aspectRatio osr osw seed s src) in
  service (length (callsOf tr)) req = Returns resp ->
  scanned resp = inr segs ->
  hasImage (parseResponse resp) = false ->
  exists s',
    executeGeneration service t dateNow random cfg targetPrompt size aspectRatio
                      osr osw seed s tr = (None, s', tr ++ [Call req]) /\
    errorState s' = None /\ toasts s' = toasts s /\
    generatedImageHistory s' = generatedImageHistory s /\
    currentGeneratedImage s' = currentGeneratedImage s /\
    isGenerating s' = false /\ isUpscaling s' = false.
Proof.
  intros Hsrc Hkey req H1 Hs Himg.
  rewrite (executeGeneration_started _ _ _ _ _ _ _ _ _ Hsrc Hkey). cbv zeta.
  rewrite (editImage_returns service _ tr resp segs H1 Hs).
  unfold recordOf. rewrite Himg.
  eexists. repeat split.
Qed.

(** An answer that cannot be read (its first candidate has no content,
    or no list of parts) has no image either, and is not silent: the
    [TypeError] of the scan is caught and the error state is set. *)
Lemma unreadable_answer_is_reported targetPrompt size aspectRatio osr osw seed
  (s : Session) (tr : Trace) (src : ImageSource) (resp : Response) (e : Thrown) :
  sourceImage s = Some src -> hasApiKey cfg = true ->
  let req :=
    buildRequest (firstArgs random cfg targetPrompt size aspectRatio osr osw seed s src) in
  service (length (callsOf tr)) req = Returns resp ->
  scanned resp = inl e ->
  hasImage (parseResponse resp) = false /\
  exists s' shown,
    executeGeneration service t dateNow random cfg targetPrompt size aspectRatio
                      osr osw seed s tr = (None, s', tr ++ [Call req]) /\
    errorState s' = Some shown.
Proof.
  intros Hsrc Hkey req H1 Hs. split.
  - now rewrite (unreadable_parses_empty resp e Hs).
  - rewrite (executeGeneration_started _ _ _ _ _ _ _ _ _ Hsrc Hkey). cbv zeta.
    rewrite (editImage_unreadable service _ tr resp e H1 Hs).
    unfold onGenerationError. eexists _, _. split; reflexivity.
Qed.

Lemma upscalePass_outcome targetPrompt fp aspectRatio styleRefs seed
      (newImg : ImageSource) (s : Session) (tr : Trace) (prev : list ImageSource) :
  generatedImageHistory s = prev ++ [newImg] ->
  currentGeneratedImage s = Some newImg ->
  let s' := fst (upscalePass service dateNow cfg targetPrompt fp aspectRatio
                   styleRefs seed newImg s tr) in
  (exists final, generatedImageHistory s' = prev ++ [final] /\
                 currentGeneratedImage s' = Some final) /\
  sourceImage s' = sourceImage s /\ originalImage s' = originalImage s /\
  App.maskImage s' = App.maskImage s /\ errorState s' = errorState s /\
  isGenerating s' = isGenerating s /\ isUpscaling s' = false.
Proof.
  intros Hh Hc. unfold upscalePass.
  destruct (editImage _ _ _) as [[message|up] tr1]; cbn.
  - split; [now exists newImg|]. now repeat split.
  - destruct (recordOf _ _ _ _ _) as [upscaled|]; cbn.
    + split; [|now repeat split].
      exists upscaled. rewrite Hh. split; [apply replaceLast_snoc | reflexivity].
    + split; [now exists newImg|]. now repeat split.
Qed.

(** X20. The two outcomes of a generation.  It never touches the
    source image, the original or the mask.  When it returns nothing,
    the history and the current record are as before.  When it returns
    a record, the history has grown by exactly one record, which is
    current, no error is set and both progress flags are down; below
    the ultra tier that record is the one returned, while for the
    ultra tier the record kept may be the upscaled one and the one
    returned is still the first. *)
Theorem generation_outcome targetPrompt size aspectRatio osr osw seed
  (s : Session) (tr : Trace) :
  let '(o, s', _) :=
    executeGeneration service t dateNow random cfg targetPrompt size aspectRatio
                      osr osw seed s tr in
  sourceImage s' = sourceImage s /\ originalImage s' = originalImage s /\
  App.maskImage s' = App.maskImage s /\
  match o with
  | None =>
      generatedImageHistory s' = generatedImageHistory s /\
      currentGeneratedImage s' = currentGeneratedImage s
  | Some newImg =>
      exists final,
        generatedImageHistory s' = generatedImageHistory s ++ [final] /\
        currentGeneratedImage s' = Some final /\
        (if ImageSize_eqb size K4 then True else final = newImg) /\
        errorState s' = None /\ isGenerating s' = false /\ isUpscaling s' = false
  end.
Proof.
  unfold executeGeneration.
  destruct (sourceImage s) as [src|] eqn:Hsrc; [|now cbn; rewrite Hsrc].
  destruct (hasApiKey cfg); cbn [negb]; [|now cbn; rewrite Hsrc].
  destruct (editImage _ _ _) as [[message|result] tr1]; [now cbn; rewrite Hsrc|].
  destruct (recordOf _ _ _ _ _) as [newImg|]; [|now cbn; rewrite Hsrc].
  destruct (ImageSize_eqb size K4).
  - match goal with |- context [upscalePass ?a ?b ?c ?d ?e ?f ?g ?h ?i ?j ?k] =>
      destruct (upscalePass_outcome d e f g h i j k (generatedImageHistory s)
                  eq_refl eq_refl)
        as ((final & Hh & Hc) & H1 & H2 & H3 & H4 & H5 & H6);
      destruct (upscalePass a b c d e f g h i j k) as [s' tr']
    end.
    cbn [fst] in *. cbn in H1, H2, H3, H4, H5.
    rewrite H1, H2, H3. repeat split; try assumption.
    exists final. repeat split; assumption.
  - cbn. rewrite Hsrc. repeat split. now exists newImg.
Qed.

Lemma upscalePass_added targetPrompt fp aspectRatio styleRefs seed
      (newImg : ImageSource) (s : Session) (tr : Trace) :
  exists more,
    snd (upscalePass service dateNow cfg targetPrompt fp aspectRatio styleRefs seed
           newImg s tr) = tr ++ more /\
    (1 <= length (callsOf more) <= 2)%nat /\ (0 <= waited more <= 2000)%Z.
Proof.
  unfold upscalePass.
  match goal with |- context [editImage service ?a tr] =>
    destruct (editImage_added service a tr) as (more & Hmore & Hshape);
    destruct (editImage service a tr) as [[message|up] tr1]
  end; cbn [snd] in Hmore; subst tr1;
    (exists more; split;
     [try destruct (recordOf _ _ _ _ _); reflexivity
     | destruct Hshape as [[-> ->]|[-> ->]]; cbn [length]; lia]).
Qed.

(** X21. The remote calls of one generation.  Its trace extends the
    trace it found; it makes no call exactly when the source image or
    the API key is missing, and otherwise at most two calls, four for
    the ultra tier, and waits at most 2 s, 4 s for the ultra tier. *)
Theorem generation_call_budget targetPrompt size aspectRatio osr osw seed
  (s : Session) (tr : Trace) :
  exists more,
    snd (executeGeneration service t dateNow random cfg targetPrompt size aspectRatio
           osr osw seed s tr) = tr ++ more /\
    (length (callsOf more) <= callBudget size)%nat /\
    (0 <= waited more <= 1000 * Z.of_nat (callBudget size))%Z /\
    (length (callsOf more) = 0%nat <-> sourceImage s = None \/ hasApiKey cfg = false).
Proof.
  assert (Hb : (2 <= callBudget size)%nat)
    by (unfold callBudget; destruct (ImageSize_eqb size K4); lia).
  unfold executeGeneration.
  destruct (sourceImage s) as [src|].
  2:{ exists []. rewrite app_nil_r. cbn. repeat split; try lia; try (now left). }
  destruct (hasApiKey cfg); cbn [negb].
  2:{ exists []. rewrite app_nil_r. cbn. repeat split; try lia; try (now right). }
  match goal with |- context [editImage service ?a tr] =>
    destruct (editImage_added service a tr) as (more & Hmore & Hshape);
    destruct (editImage service a tr) as [[message|result] tr1]
  end; cbn [snd] in Hmore; subst tr1.
  - exists more. split; [reflexivity|].
    destruct Hshape as [[-> ->]|[-> ->]]; cbn [length];
      repeat split; try lia; intros [H|H]; discriminate.
  - destruct (recordOf _ _ _ _ _) as [newImg|].
    2:{ exists more. split; [reflexivity|].
        destruct Hshape as [[-> ->]|[-> ->]]; cbn [length];
          repeat split; try lia; intros [H|H]; discriminate. }
    unfold callBudget in *. destruct (ImageSize_eqb size K4).
    + match goal with |- context [upscalePass ?a ?b ?c ?d ?e ?f ?g ?h ?i ?j ?k] =>
        destruct (upscalePass_added d e f g h i j k) as (more2 & Hmore2 & Hc2 & Hw2);
        destruct (upscalePass a b c d e f g h i j k) as [s' tr']
      end.
      cbn [snd] in *. subst tr'. exists (more ++ more2).
      rewrite app_assoc, callsOf_app, length_app, waited_app.
      split; [reflexivity|].
      destruct Hshape as [[-> ->]|[-> ->]]; cbn [length];
        repeat split; try lia; intros [H|H]; discriminate.
    + exists more. split; [reflexivity|].
      destruct Hshape as [[-> ->]|[-> ->]]; cbn [length];
        repeat split; try lia; intros [H|H]; discriminate.
Qed.
End Outcomes.

Section OutcomeRuns.
Import GeminiService Composer App.
Local Open Scope list_scope.

Lemma generation_preconditions_fail_fast_witness :
  exists s',
    executeGeneration twoAnswers sampleI18n tick 0 sampleSettings "make the hair red"%string
                      K4 R1_1 None None None emptySession [] = (None, s', []) /\
    errorState s' = Some "Upload a source image."%string /\
    isKeyModalOpen s' = false.
Proof.
  destruct (generation_preconditions_fail_fast twoAnswers sampleI18n tick 0
              sampleSettings "make the hair red"%string K4 R1_1 None None None
              emptySession [] (or_introl eq_refl))
    as (s' & notice & Hrun & _ & _ & _ & _ & _ & He & Hk).
  exists s'. repeat split; assumption.
Defined.

Lemma failed_generation_keeps_images_witness :
  exists s' tr1,
    executeGeneration (alwaysThrows (ErrorObj "400 Bad Request")) sampleI18n tick 0
                      sampleSettings "make the hair red"%string K4 R1_1 None None None
                      midSession [] = (None, s', tr1) /\
    generatedImageHistory s' = [shot "QQ=="] /\
    App.maskImage s' = Some "bWFzaw=="%string /\
    errorState s' = Some "400 Bad Request"%string /\
    toasts s' = [("Generation failed."%string, error)].
Proof.
  edestruct (failed_generation_keeps_images
               (alwaysThrows (ErrorObj "400 Bad Request")) sampleI18n tick 0
               sampleSettings "make the hair red"%string K4 R1_1 None None None
               midSession [] (shot "c291cmNl") "400 Bad Request"%string)
    as (s' & shown & notice & Hrun & Hh & _ & _ & Hm & _).
  - reflexivity.
  - reflexivity.
  - vm_compute. reflexivity.
  - exists s'. eexists. split; [exact Hrun|].
    split; [exact Hh|]. split; [exact Hm|].
    vm_compute in Hrun. injection Hrun as <-. split; reflexivity.
Defined.

Lemma persistent_overload_reported_busy_witness :
  exists s' req,
    ultraRun (alwaysThrows overloaded) = (None, s', [Call req; Sleep 2000; Call req]) /\
    errorState s' = Some "The server is busy."%string /\
    toasts s' = [("The server is busy."%string, error)].
Proof.
  edestruct (persistent_overload_reported_busy (alwaysThrows overloaded) sampleI18n
               tick 0 sampleSettings "make the hair red"%string K4 R1_1 None None None
               loaded [] (shot "c291cmNl")
               "503 Service Unavailable: Overloaded"%string
               "503 Service Unavailable: Overloaded"%string
               eq_refl eq_refl eq_refl eq_refl eq_refl eq_refl eq_refl)
    as (s' & Hrun & He & Ht).
  exists s'. eexists. split; [exact Hrun|]. split; assumption.
Defined.

Lemma imageless_answer_is_silent_witness :
  (exists s' req,
     ultraRun textOnly = (None, s', [Call req]) /\
     errorState s' = None /\ toasts s' = [] /\ generatedImageHistory s' = []) /\
  (exists s' req,
     ultraRun noCandidates = (None, s', [Call req]) /\
     errorState s' = None /\ toasts s' = [] /\ generatedImageHistory s' = []).
Proof.
  split.
  - edestruct (imageless_answer_is_silent textOnly sampleI18n tick 0 sampleSettings
                 "make the hair red"%string K4 R1_1 None None None loaded []
                 (shot "c291cmNl") (respOf [textSeg "I cannot edit this image."])
                 [textSeg "I cannot edit this image."]
                 eq_refl eq_refl eq_refl eq_refl eq_refl)
      as (s' & Hrun & He & Ht & Hh & _).
    exists s'. eexists. split; [exact Hrun|]. repeat split; assumption.
  - edestruct (imageless_answer_is_silent noCandidates sampleI18n tick 0 sampleSettings
                 "make the hair red"%string K4 R1_1 None None None loaded []
                 (shot "c291cmNl") (mkResponse None) []
                 eq_refl eq_refl eq_refl eq_refl eq_refl)
      as (s' & Hrun & He & Ht & Hh & _).
    exists s'. eexists. split; [exact Hrun|]. repeat split; assumption.
Defined.

Lemma generation_call_budget_witness :
  exists more,
    snd (ultraRun twoAnswers) = more /\ length (callsOf more) = 2%nat /\
    (length (callsOf more) <= 4)%nat /\ (waited more <= 4000)%Z.
Proof.
  destruct (generation_call_budget twoAnswers sampleI18n tick 0 sampleSettings
              "make the hair red"%string K4 R1_1 None None None loaded [])
    as (more & Hmore & Hc & Hw & _).
  exists more. split; [exact Hmore|].
  split; [|split; [exact Hc | apply Hw]].
  change (snd (ultraRun twoAnswers) = [] ++ more) in Hmore. cbn [app] in Hmore.
  rewrite <- Hmore. vm_compute. reflexivity.
Defined.
End OutcomeRuns.

(** ** The persona batch and the handlers of the source image *)

Section Batch.
Import GeminiService Composer App.
Local Open Scope list_scope.

Variable service : nat -> GenRequest -> Outcome.
Variable t : I18n.
Variable dateNow : Trace -> Z.
Variable random : Q.
Variable cfg : Settings.

Lemma currentAfter_app (a b : list ImageSource) (before : option ImageSource) :
  currentAfter (a ++ b) before = currentAfter b (currentAfter a before).
Proof.
  unfold currentAfter. destruct b as [|x b] using rev_ind.
  - rewrite app_nil_r. reflexivity.
  - rewrite app_assoc, !last_snoc. reflexivity.
Qed.

(** The scene loop from any scene on. *)
Lemma sceneLoop_outcome (src : ImageSource) (rest : list (string * string)) :
  forall (i : nat) (s : Session) (tr : Trace),
    let '(_, s', tr') := sceneLoop service dateNow cfg src rest i s tr in
    (sourceImage s' = sourceImage s /\ originalImage s' = originalImage s /\
     App.maskImage s' = App.maskImage s /\ errorState s' = errorState s /\
     isGenerating s' = isGenerating s /\ isUpscaling s' = isUpscaling s) /\
    (exists added,
       generatedImageHistory s' = generatedImageHistory s ++ added /\
       (length added <= length rest)%nat /\
       currentGeneratedImage s' = currentAfter added (currentGeneratedImage s)) /\
    (exists more,
       tr' = tr ++ more /\ (length (callsOf more) <= 2 * length rest)%nat /\
       Forall (sceneCall src) (callsOf more)).
Proof.
  induction rest as [|[name promptPrefix] rest IH]; intros i s tr; cbn [sceneLoop].
  - split; [now repeat split|]. split.
    + exists []. rewrite app_nil_r. now repeat split.
    + exists []. rewrite app_nil_r. repeat split; [cbn; lia | constructor].
  - match goal with |- context [editImage service ?a ?tr0] =>
      assert (Hcall : sceneCall src (buildRequest a))
        by (exists a; now repeat split);
      destruct (editImage_added service a tr0) as (more & Hmore & Hshape);
      destruct (editImage service a tr0) as [[message|result] tr1]
    end; cbn [snd] in Hmore; subst tr1.
    + split; [now repeat split|]. split.
      * exists []. rewrite app_nil_r. repeat split. cbn; lia.
      * exists more. split; [reflexivity|].
        destruct Hshape as [[-> _]|[-> _]]; cbn [length]; split; try lia;
          repeat constructor; assumption.
    + match goal with |- context [sceneLoop _ _ _ _ _ ?j ?s1 ?tr1] =>
        specialize (IH j s1 tr1);
        destruct (sceneLoop service dateNow cfg src rest j s1 tr1) as [[c s'] tr']
      end.
      destruct IH as ((H1 & H2 & H3 & H4 & H5 & H6) &
                      (added & Hh & Hlen & Hcur) & (more2 & Htr & Hn & Hall)).
      assert (Hcalls : (length (callsOf (more ++ more2)) <= 2 * length ((name, promptPrefix) :: rest))%nat
                       /\ Forall (sceneCall src) (callsOf (more ++ more2))).
      { rewrite callsOf_app, length_app.
        destruct Hshape as [[-> _]|[-> _]]; cbn [length app]; split; try lia;
          repeat (constructor; [assumption|]); assumption. }
      destruct (recordOf _ _ _ _ _) as [newImg|]; cbn in H1, H2, H3, H4, H5, H6, Hh, Hcur.
      * split; [now repeat split|]. split.
        -- exists (newImg :: added). rewrite Hh, <- app_assoc. cbn [app length].
           split; [reflexivity|]. split; [lia|].
           rewrite Hcur. now rewrite (currentAfter_app [newImg] added).
        -- exists (more ++ more2). rewrite Htr, app_assoc. now split.
      * split; [now repeat split|]. split.
        -- exists added. cbn [length]. repeat split; [assumption | lia | assumption].
        -- exists (more ++ more2). rewrite Htr, app_assoc. now split.
Qed.

(** X22. The persona batch with a source image loaded.  Whatever the
    remote model does, it ends with its two progress fields reset
    (not generating, progress 0); it appends at most five records, the
    last of which is current; it never touches the source image, the
    mask or the error state, so that a failure shows in a notice only;
    it makes at most ten remote calls, each at the standard tier, in
    16:9, at structure weight 20, without the mask, and its last notice
    tells whether it ran to the end. *)
Theorem persona_batch_outcome (s : Session) (tr : Trace) (src : ImageSource) :
  sourceImage s = Some src ->
  let '(s', tr') := handleGeneratePersonaScenes service dateNow cfg s tr in
  isGeneratingScenes s' = false /\ sceneProgress s' = 0%nat /\
  sourceImage s' = sourceImage s /\ App.maskImage s' = App.maskImage s /\
  errorState s' = errorState s /\
  (exists added,
     generatedImageHistory s' = generatedImageHistory s ++ added /\
     (length added <= 5)%nat /\
     currentGeneratedImage s' = currentAfter added (currentGeneratedImage s)) /\
  (exists more,
     tr' = tr ++ more /\ (length (callsOf more) <= 10)%nat /\
     Forall (sceneCall src) (callsOf more)) /\
  (last (toasts s') = Some ("Persona Scenario Generation Complete!"%string, success) \/
   last (toasts s') = Some ("Scenario Generation interrupted."%string, error)).
Proof.
  intro Hsrc. unfold handleGeneratePersonaScenes. rewrite Hsrc.
  pose proof (sceneLoop_outcome src scenes 0
                (setSceneProgress 0 (setIsGeneratingScenes true s)) tr) as H.
  destruct (sceneLoop _ _ _ _ _ _ _ _) as [[completed s'] tr'].
  destruct H as ((H1 & H2 & H3 & H4 & H5 & H6) & Hadded & Hmore).
  cbn in H1, H3, H4, Hadded.
  assert (Ht : forall msg ty (s0 : Session), last (toasts (showToast msg ty s0)) = Some (msg, ty))
    by (intros; cbn; apply last_snoc).
  destruct completed; cbn;
    (split; [reflexivity|]); (split; [reflexivity|]);
    (split; [now rewrite H1|]); (split; [assumption|]); (split; [assumption|]);
    (split; [assumption|]); (split; [exact Hmore|]).
  - left. apply (Ht _ _ s').
  - right. apply (Ht _ _ s').
Qed.

Lemma executeGeneration_keeps_source targetPrompt size aspectRatio osr osw seed
      (s : Session) (tr : Trace) :
  let s' := snd (fst (executeGeneration service t dateNow random cfg targetPrompt size
                        aspectRatio osr osw seed s tr)) in
  sourceImage s' = sourceImage s.
Proof.
  unfold executeGeneration.
  destruct (sourceImage s) as [src|] eqn:Hsrc; [|now cbn].
  destruct (hasApiKey cfg); cbn [negb]; [|now cbn].
  destruct (editImage _ _ _) as [[message|result] tr1]; [now cbn|].
  destruct (recordOf _ _ _ _ _) as [newImg|]; [|now cbn].
  destruct (ImageSize_eqb size K4); [|now cbn].
  unfold upscalePass.
  destruct (editImage _ _ _) as [[message|up] tr2]; [now cbn|].
  destruct (recordOf _ _ _ _ _); now cbn.
Qed.

(** X23. No operation of the session replaces the source image and
    keeps the mask that was drawn on the old one: whenever an operation
    ends with another source image than it found, the mask is empty. *)
Theorem mask_cleared_with_source (a : Action) (s : Session) (tr : Trace) :
  let s' := fst (step service t dateNow random cfg a s tr) in
  sourceImage s' <> sourceImage s -> App.maskImage s' = None.
Proof.
  cbv zeta.
  destruct a as [targetPrompt size ratio osr osw sd| | | | | | | | | |mask|];
    cbn [step fst]; intro H; try reflexivity; try (now destruct H).
  - exfalso. apply H.
    pose proof (executeGeneration_keeps_source targetPrompt size ratio osr osw sd s tr) as E.
    destruct (executeGeneration _ _ _ _ _ _ _ _ _ _ _ _ _) as [[o s'] tr']. exact E.
  - exfalso. apply H. unfold handleGeneratePersonaScenes.
    destruct (sourceImage s) as [src|] eqn:Hsrc; [|now cbn].
    pose proof (sceneLoop_outcome src scenes 0
                  (setSceneProgress 0 (setIsGeneratingScenes true s)) tr) as E.
    destruct (sceneLoop _ _ _ _ _ _ _ _) as [[completed s'] tr'].
    destruct E as ((E & _) & _). cbn in E. rewrite Hsrc in E.
    now destruct completed.
  - unfold handleSwapImages in *.
    destruct (sourceImage s) eqn:Ha, (currentGeneratedImage s) eqn:Hb;
      try reflexivity.
    congruence.
  - unfold handleResetToOriginal in *.
    destruct (originalImage s); [reflexivity | now destruct H].
Qed.

(** X24. Swapping exchanges the source image and the current record,
    and swapping twice gives both back; the history is not touched.
    Unless both are empty, when nothing happens, every swap clears the
    mask and the error state, so that the mask does not come back with
    the source. *)
Theorem swap_twice_restores_images (s : Session) :
  sourceImage (handleSwapImages s) = currentGeneratedImage s /\
  currentGeneratedImage (handleSwapImages s) = sourceImage s /\
  sourceImage (handleSwapImages (handleSwapImages s)) = sourceImage s /\
  currentGeneratedImage (handleSwapImages (handleSwapImages s))
  = currentGeneratedImage s /\
  generatedImageHistory (handleSwapImages s) = generatedImageHistory s /\
  match sourceImage s, currentGeneratedImage s with
  | None, None => handleSwapImages s = s
  | _, _ =>
      App.maskImage (handleSwapImages s) = None /\
      errorState (handleSwapImages s) = None /\
      App.maskImage (handleSwapImages (handleSwapImages s)) = None
  end.
Proof.
  unfold handleSwapImages.
  destruct (sourceImage s) as [a|] eqn:Ha, (currentGeneratedImage s) as [b|] eqn:Hb;
    cbn; rewrite ?Ha, ?Hb; cbn; now repeat split.
Qed.
End Batch.

Section BatchRuns.
Import GeminiService Composer App.
Local Open Scope list_scope.

Lemma persona_batch_outcome_witness :
  (exists s' tr',
     handleGeneratePersonaScenes sameAnswer tick sampleSettings midSession []
     = (s', tr') /\
     isGeneratingScenes s' = false /\ length (generatedImageHistory s') = 6%nat /\
     App.maskImage s' = Some "bWFzaw=="%string /\ length (callsOf tr') = 5%nat /\
     last (toasts s') = Some ("Persona Scenario Generation Complete!"%string, success)) /\
  (exists s' tr',
     handleGeneratePersonaScenes thirdRefused tick sampleSettings midSession []
     = (s', tr') /\
     isGeneratingScenes s' = false /\ sceneProgress s' = 0%nat /\
     length (generatedImageHistory s') = 3%nat /\ errorState s' = None /\
     last (toasts s') = Some ("Scenario Generation interrupted."%string, error)).
Proof.
  split.
  - pose proof (persona_batch_outcome sameAnswer tick sampleSettings midSession []
                  (shot "c291cmNl") eq_refl) as H.
    destruct (handleGeneratePersonaScenes sameAnswer tick sampleSettings midSession [])
      as [s' tr'] eqn:E.
    destruct H as (Hg & _ & _ & Hm & _).
    exists s', tr'. split; [reflexivity|]. split; [exact Hg|].
    vm_compute in E. injection E as <- <-. now repeat split.
  - pose proof (persona_batch_outcome thirdRefused tick sampleSettings midSession []
                  (shot "c291cmNl") eq_refl) as H.
    destruct (handleGeneratePersonaScenes thirdRefused tick sampleSettings midSession [])
      as [s' tr'] eqn:E.
    destruct H as (Hg & Hp & _ & _ & He & _).
    exists s', tr'. split; [reflexivity|]. split; [exact Hg|]. split; [exact Hp|].
    vm_compute in E. injection E as <- <-. now repeat split.
Defined.

Lemma mask_cleared_with_source_witness :
  sourceImage (handleBranchFromHistory (shot "QQ==") midSession) = Some (shot "QQ==") /\
  App.maskImage (handleBranchFromHistory (shot "QQ==") midSession) = None.
Proof.
  split; [reflexivity|].
  apply (mask_cleared_with_source sameAnswer sampleI18n tick 0 sampleSettings
           (BranchFromHistory (shot "QQ==")) midSession []).
  vm_compute. discriminate.
Defined.
End BatchRuns.

(** ** The composer and the random draws *)

Section ComposerProps.
Import GeminiService Composer App.
Local Open Scope list_scope.

Lemma floor_index (r : Q) (n : nat) :
  unitInterval r -> (0 < n)%nat ->
  (Z.to_nat (Qfloor (r * inject_Z (Z.of_nat n))) < n)%nat.
Proof.
  intros [H0 H1] Hn.
  assert (Hpos : (0 < inject_Z (Z.of_nat n))%Q).
  { change 0%Q with (inject_Z 0). rewrite <- Zlt_Qlt. lia. }
  assert (Hlo : (0 <= Qfloor (r * inject_Z (Z.of_nat n)))%Z).
  { change 0%Z with (Qfloor 0). apply Qfloor_resp_le. nra. }
  assert (Hhi : (Qfloor (r * inject_Z (Z.of_nat n)) < Z.of_nat n)%Z).
  { rewrite Zlt_Qlt. apply Qle_lt_trans with (r * inject_Z (Z.of_nat n))%Q.
    - apply Qfloor_le.
    - nra. }
  lia.
Qed.

Lemma pick_in_table {A} (table : list A) (r : Q) :
  unitInterval r -> table <> [] -> exists x, pick table r = Some x /\ In x table.
Proof.
  intros Hr Hne. unfold pick.
  assert (Hlen : (0 < length table)%nat) by (destruct table; [congruence | cbn; lia]).
  destruct (lookup_lt_is_Some_2 table _ (floor_index r _ Hr Hlen)) as [x Hx].
  exists x. split; [exact Hx|].
  apply list_elem_of_In. eapply list_elem_of_lookup_2. exact Hx.
Qed.

(** The scenario pool of each motion of the panel. *)
Lemma motion_has_pool (m : string) :
  In m MOTIONS ->
  Str.nonEmpty m = true /\
  exists pool, findVal SCENARIO_POOLS m = Some pool /\ pool <> [] /\
               Forall (fun line => Str.nonEmpty line = true) pool.
Proof.
  intro H. cbn in H.
  repeat (destruct H as [<-|H];
          [split; [reflexivity|]; eexists; split; [vm_compute; reflexivity|];
           split; [discriminate | repeat constructor]|]).
  destruct H.
Qed.

(** X25. With a motion of the panel selected, the composer adds exactly
    one scenario line, drawn from the pool of that motion and not
    empty, whatever value in [0, 1) the random draw takes: the index
    [floor(random * length)] never leaves the pool. *)
Theorem scenario_line_from_pool (sel : Selections) (random : Q) (m : string) :
  unitInterval random -> selectedMotion sel = Some m -> In m MOTIONS ->
  exists pool line,
    findVal SCENARIO_POOLS m = Some pool /\
    motionPrompts sel random = [line] /\ In line pool /\
    Str.nonEmpty line = true.
Proof.
  intros Hr Hsel Hm.
  destruct (motion_has_pool m Hm) as (Hne & pool & Hpool & Hnil & Hall).
  destruct (pick_in_table pool random Hr Hnil) as (line & Hpick & Hin).
  exists pool, line. split; [exact Hpool|].
  unfold motionPrompts. rewrite Hsel, Hne, Hpool. cbv zeta.
  unfold pick in Hpick. rewrite Hpick. cbn [default].
  split; [reflexivity|]. split; [exact Hin|].
  rewrite List.Forall_forall in Hall. now apply Hall.
Qed.

(** X26. A selected motion other than "static" decides the structure
    weight of the first call, whatever the weight of the settings: the
    call is made at weight 20, so that its prompt ends with the
    instruction that frees the pose.  "static" leaves the weight of the
    settings in force, and a weight passed by the caller always wins. *)
Theorem motion_frees_the_pose (random : Q) (cfg : Settings) targetPrompt size
  aspectRatio osr seed (s : Session) (src : ImageSource) (m : string) :
  selectedMotion (selections cfg) = Some m -> In m MOTIONS ->
  let args := firstArgs random cfg targetPrompt size aspectRatio osr in
  (m <> "static"%string ->
   GeminiService.structureWeight (args None seed s src) = 20%Z /\
   finalPrompt (args None seed s src)
   = (withMaskInstructions (args None seed s src) (withAesthetics (args None seed s src))
      ++ structureLow)%string) /\
  (m = "static"%string ->
   GeminiService.structureWeight (args None seed s src)
   = Composer.structureWeight (selections cfg)) /\
  (forall w, GeminiService.structureWeight (args (Some w) seed s src) = w).
Proof.
  intros Hsel Hm args.
  destruct (motion_has_pool m Hm) as (Hne & pool & Hpool & _).
  assert (Hw : forall osw,
            GeminiService.structureWeight (args osw seed s src)
            = effectiveStructureWeight (selections cfg) osw) by reflexivity.
  split; [|split].
  - intro Hns.
    assert (H20 : GeminiService.structureWeight (args None seed s src) = 20%Z).
    { rewrite Hw. unfold effectiveStructureWeight. rewrite Hsel, Hne, Hpool.
      destruct (String.eqb_spec m "static"); [contradiction | reflexivity]. }
    split; [exact H20|].
    unfold finalPrompt, withStructure. now rewrite H20.
  - intros ->. rewrite Hw. unfold effectiveStructureWeight. now rewrite Hsel.
  - intro w. rewrite Hw. unfold effectiveStructureWeight.
    destruct (selectedMotion (selections cfg)) as [m'|]; [|reflexivity].
    now rewrite !andb_false_r.
Qed.

(** X27. The fallback text of the composer is never used: the
    instruction it hands to [editImage] is always the parts joined by
    ", ", it is never blank, and it is never the fallback, since the
    negative-prompt block is always among the parts. *)
Theorem composer_fallback_unreachable (sel : Selections) (targetPrompt : string)
  (random : Q) :
  composedPrompt sel targetPrompt random
  = Str.join ", " (promptParts sel targetPrompt random) /\
  Str.nonEmpty (Str.trim (composedPrompt sel targetPrompt random)) = true /\
  composedPrompt sel targetPrompt random <> fallbackPrompt.
Proof.
  assert (Hjoin : Contains "background"
                    (Str.join ", " (promptParts sel targetPrompt random))).
  { apply (Contains_join _ _ _ _ (composer_negative_block sel targetPrompt random)).
    apply Contains_append_l, Contains_append_r.
    apply (Contains_join _ _ "(changing background:1.5)").
    - unfold strictNegativePrompts. now left.
    - now exists "(changing "%string, ":1.5)"%string. }
  pose proof (Contains_nonEmpty "background" _ eq_refl
                (trim_Contains "background" _ eq_refl eq_refl Hjoin)) as Htrim.
  assert (Heq : composedPrompt sel targetPrompt random
                = Str.join ", " (promptParts sel targetPrompt random)).
  { unfold composedPrompt.
    rewrite (Contains_nonEmpty "background" _ eq_refl Hjoin). cbn [negb orb].
    destruct (Str.trim (Str.join ", " (promptParts sel targetPrompt random)));
      [discriminate | reflexivity]. }
  split; [exact Heq|]. split; [now rewrite Heq|].
  intro Hfb. rewrite Heq in Hfb. rewrite Hfb in Hjoin.
  apply includes_of_Contains in Hjoin. vm_compute in Hjoin. discriminate.
Qed.

(** X28. [randomizeCinematic] with six draws in [0, 1) never reads
    outside its tables: it selects a shot size, a camera height, a
    motion and a camera movement of the panels, writes an action and an
    angle of its two lists as the director's cut, sets the weight to
    35 and leaves the angle, the style and the other settings alone.
    The weight 35 takes effect only when the motion drawn is "static":
    for every other motion the next generation runs at weight 20. *)
Theorem randomizeCinematic_draws_from_tables (r1 r2 r3 r4 r5 r6 : Q) (cfg : Settings) :
  unitInterval r1 -> unitInterval r2 -> unitInterval r3 ->
  unitInterval r4 -> unitInterval r5 -> unitInterval r6 ->
  exists cfg' notice v1 v2 v3 v4 action angle,
    randomizeCinematic r1 r2 r3 r4 r5 r6 cfg = Some (cfg', notice) /\
    selectedShotSize (selections cfg') = Some v1 /\ In v1 (map fst SHOT_SIZES) /\
    selectedCameraHeight (selections cfg') = Some v2 /\ In v2 (map fst CAMERA_HEIGHTS) /\
    selectedMotion (selections cfg') = Some v3 /\ In v3 MOTIONS /\
    selectedCameraMovement (selections cfg') = Some v4 /\
    In v4 (map fst CAMERA_MOVEMENTS) /\
    randomCinematicPrompt (selections cfg') = (action ++ ", " ++ angle)%string /\
    In action EXTREME_ACTIONS /\ In angle EXTREME_ANGLES /\
    Composer.structureWeight (selections cfg') = 35%Z /\
    effectiveStructureWeight (selections cfg') None
    = (if String.eqb v3 "static" then 35 else 20)%Z /\
    selectedAngle (selections cfg') = selectedAngle (selections cfg) /\
    selectedTrendyStyle (selections cfg') = selectedTrendyStyle (selections cfg) /\
    App.prompt cfg' = App.prompt cfg /\
    selectedAspectRatio cfg' = selectedAspectRatio cfg /\
    selectedSize cfg' = selectedSize cfg.
Proof.
  intros H1 H2 H3 H4 H5 H6.
  destruct (pick_in_table SHOT_SIZES r1 H1 ltac:(discriminate)) as (x1 & E1 & I1).
  destruct (pick_in_table CAMERA_HEIGHTS r2 H2 ltac:(discriminate)) as (x2 & E2 & I2).
  destruct (pick_in_table MOTIONS r3 H3 ltac:(discriminate)) as (x3 & E3 & I3).
  destruct (pick_in_table CAMERA_MOVEMENTS r4 H4 ltac:(discriminate)) as (x4 & E4 & I4).
  destruct (pick_in_table EXTREME_ACTIONS r5 H5 ltac:(discriminate)) as (x5 & E5 & I5).
  destruct (pick_in_table EXTREME_ANGLES r6 H6 ltac:(discriminate)) as (x6 & E6 & I6).
  unfold randomizeCinematic. rewrite E1, E2, E3, E4, E5, E6.
  eexists _, _, (fst x1), (fst x2), x3, (fst x4), x5, x6.
  split; [reflexivity|]. cbn [selections setSelections selectedShotSize
    selectedCameraHeight selectedMotion selectedCameraMovement randomCinematicPrompt
    Composer.structureWeight selectedAngle selectedTrendyStyle App.prompt
    selectedAspectRatio selectedSize].
  repeat (split; [first [reflexivity | assumption | now apply in_map]|]).
  split; [|now repeat split].
  destruct (motion_has_pool x3 I3) as (Hne & pool & Hpool & _).
  unfold effectiveStructureWeight.
  cbn [selectedMotion Composer.structureWeight]. rewrite Hne, Hpool.
  now destruct (String.eqb x3 "static").
Qed.
End ComposerProps.

Section ComposerRuns.
Import GeminiService Composer App.
Local Open Scope list_scope.

Lemma scenario_line_from_pool_witness :
  motionPrompts (selections (withMotion "lookingup")) (999 # 1000)
  = ["looking up in awe, soft lighting on face, contemplative expression"%string].
Proof.
  destruct (scenario_line_from_pool (selections (withMotion "lookingup")) (999 # 1000)
              "lookingup")
    as (pool & line & Hpool & Hline & _).
  - split; [discriminate | reflexivity].
  - reflexivity.
  - cbn. tauto.
  - rewrite Hline. vm_compute in Hline. symmetry. exact Hline.
Defined.

Lemma motion_frees_the_pose_witness :
  GeminiService.structureWeight
    (firstArgs 0 (withMotion "running") "wave at the camera" K1 R1_1 None None None
               loaded (shot "c291cmNl")) = 20%Z /\
  GeminiService.structureWeight
    (firstArgs 0 (withMotion "static") "wave at the camera" K1 R1_1 None None None
               loaded (shot "c291cmNl")) = 50%Z.
Proof.
  split.
  - destruct (motion_frees_the_pose 0 (withMotion "running") "wave at the camera"%string
                K1 R1_1 None None loaded (shot "c291cmNl") "running" eq_refl)
      as (H & _).
    + cbn. tauto.
    + apply H. discriminate.
  - destruct (motion_frees_the_pose 0 (withMotion "static") "wave at the camera"%string
                K1 R1_1 None None loaded (shot "c291cmNl") "static" eq_refl)
      as (_ & H & _).
    + cbn. tauto.
    + apply H. reflexivity.
Defined.

Lemma randomizeCinematic_draws_from_tables_witness :
  exists cfg' notice,
    randomizeCinematic (1 # 2) (1 # 2) (1 # 2) (1 # 2) (1 # 2) (1 # 2) sampleSettings
    = Some (cfg', notice) /\
    selectedMotion (selections cfg') = Some "jumping"%string /\
    Composer.structureWeight (selections cfg') = 35%Z /\
    effectiveStructureWeight (selections cfg') None = 20%Z /\
    notice = "Director's Cut: Lying down + Dutch Angle (Tilted 30 degrees)"%string.
Proof.
  destruct (randomizeCinematic_draws_from_tables (1 # 2) (1 # 2) (1 # 2) (1 # 2)
              (1 # 2) (1 # 2) sampleSettings)
    as (cfg' & notice & v1 & v2 & v3 & v4 & action & angle & Hrun & _);
    try (split; [discriminate | reflexivity]).
  exists cfg', notice. split; [exact Hrun|].
  vm_compute in Hrun. injection Hrun as <- <-. now repeat split.
Defined.
End ComposerRuns.

(** ** The mask and the overlay *)

Section Similarity.
Import Canvas ImagePanel.
Local Open Scope Q_scope.

(** X29. What is exported is what is shown.  For a displayed image the
    polyline [exportMask] strokes for a path is the polyline the
    overlay shows for it, moved by the letterbox bars and scaled, by
    one and the same positive factor on both axes; the line width of
    the mask is the line width of the overlay scaled by that factor. *)
Theorem mask_matches_overlay (img : Img) (p : Path) :
  displayed img ->
  0 < zoom img /\
  Forall2 (similar img) (map (toCanvas (layout img)) (points p)) (scaled img p) /\
  inject_Z (naturalWidth img) * (5 # 100)
  == renderWidth (layout img) * (5 # 100) * zoom img.
Proof.
  intro Hd. pose proof Hd as (Hnw & Hnh & _).
  destruct (layout_letterbox img Hd) as (Hrw & Hrh & Hratio & _).
  assert (Hnw' : 0 < inject_Z (naturalWidth img)).
  { change 0 with (inject_Z 0). now rewrite <- Zlt_Qlt. }
  assert (Hnh' : 0 < inject_Z (naturalHeight img)).
  { change 0 with (inject_Z 0). now rewrite <- Zlt_Qlt. }
  unfold zoom. split; [|split].
  - apply Qlt_shift_div_l; [exact Hrw | lra].
  - unfold scaled. induction (points p) as [|pt pts IH]; cbn [map]; constructor;
      [|exact IH].
    unfold similar, toCanvas, zoom. cbn [fst snd]. split.
    + field. lra.
    + apply Qeq_trans
        with (y pt * (renderWidth (layout img) * inject_Z (naturalHeight img))
              / renderWidth (layout img)).
      * field. lra.
      * rewrite Hratio. field. lra.
  - field. lra.
Qed.

Lemma mask_matches_overlay_witness :
  zoom wideImg == 4 /\
  Forall2 (similar wideImg) (map (toCanvas (layout wideImg)) (points zigzag))
          (scaled wideImg zigzag).
Proof.
  split; [reflexivity|].
  apply (mask_matches_overlay wideImg zigzag). unfold displayed. cbn. lia.
Defined.
End Similarity.

(** ** Progress flags *)

Section Flags.
Import GeminiService Composer App.
Local Open Scope list_scope.

Variable service : nat -> GenRequest -> Outcome.
Variable t : I18n.
Variable dateNow : Trace -> Z.
Variable random : Q.
Variable cfg : Settings.

(** X30. [executeGeneration] has no guard of its own against a
    generation in progress: with a source image and a key it runs in
    the same way, with the same remote calls and the same final state,
    whatever the two progress flags are when it starts. *)
Theorem generation_ignores_progress_flags targetPrompt size aspectRatio osr osw seed
  (s : Session) (tr : Trace) (generating upscaling : bool) :
  sourceImage s <> None -> hasApiKey cfg = true ->
  executeGeneration service t dateNow random cfg targetPrompt size aspectRatio
                    osr osw seed (setIsUpscaling upscaling (setIsGenerating generating s)) tr
  = executeGeneration service t dateNow random cfg targetPrompt size aspectRatio
                      osr osw seed s tr.
Proof.
  intros Hsrc Hkey. unfold executeGeneration.
  cbn [sourceImage setIsUpscaling setIsGenerating].
  destruct (sourceImage s) as [src|] eqn:E; [|congruence].
  rewrite Hkey. reflexivity.
Qed.
End Flags.

Section FlagsRuns.
Import GeminiService Composer App.
Local Open Scope list_scope.

Lemma generation_ignores_progress_flags_witness :
  executeGeneration twoAnswers sampleI18n tick 0 sampleSettings "make the hair red"%string
                    K1 R1_1 None None None (setIsGenerating true loaded) []
  = plainRun "make the hair red".
Proof.
  apply (generation_ignores_progress_flags twoAnswers sampleI18n tick 0 sampleSettings
           "make the hair red"%string K1 R1_1 None None None loaded [] true false).
  - discriminate.
  - reflexivity.
Defined.
End FlagsRuns.
